(** * calendarService: ICS ingestion, recurrence expansion and the
      upcoming-window filter

    A shallow embedding of [services/calendarService.ts] ([parseIcsDate],
    [parseICS], [filterUpcomingEvents], [findActiveEvent], [getStoredSchedule],
    [saveSchedule]) together with the part of the JavaScript host the service
    relies on: string methods, the regular expressions it uses, [parseInt] /
    [Number], and the [Date] object as specified by ECMA-262 (time values in
    milliseconds, [MakeDay], [MakeTime], [TimeClip], local time,
    [toISOString]).  The callers of the service are embedded as well:
    [services/storageService.ts], which shares the storage of the browser
    with it, and the parts of [App.tsx] and [components/TranscriberUI.tsx]
    that compute with schedules, sessions and durations.

    Modelling conventions.
    - Text is a [string] of 8-bit code units.
    - The numbers the service computes itself (fields of dates, time values,
      counts, what [parseInt] reads) are integers, or NaN: a [JSNum] is
      [Some z] for the integer [z] and [None] for NaN.
    - The numbers [Number] reads from the texts of an event are arbitrary: a
      [JSDouble.double] is a binary64 number, with IEEE 754 rounding in
      [Number] and in the arithmetic applied to it.
    - A [Date] is its time value, a [JSNum]: [None] is Invalid Date.
    - The host supplies the readings of its clock, [now] at the first
      [new Date()] of a call and [later] at the second, and the offset
      [LocalTZA] of local time from UTC, which is constant: the zone of the
      host has no daylight-saving transitions.
    - [localStorage] is a finite map from keys to texts with a quota:
      [setItem] throws when the browser refuses the new content.
      [JSON.stringify] and [JSON.parse] are a printer and a reader given as a
      parameter, at the type TypeScript declares for the stored value. *)

From Stdlib Require Import ZArith QArith List String Ascii Bool Lia Permutation Sorted.
From Stdlib Require Import DecimalString DecimalPos DecimalZ.
Import ListNotations.

Close Scope Q_scope.

Local Open Scope string_scope.
Local Open Scope Z_scope.

(** ** Control outcomes of a JavaScript call *)

Inductive outcome (A : Type) : Type :=
| Returned (a : A)
| Thrown (err : string)
| OutOfFuel.

Arguments Returned {A} a.
Arguments Thrown {A} err.
Arguments OutOfFuel {A}.

Definition bind {A B : Type} (m : outcome A) (f : A -> outcome B) : outcome B :=
  match m with
  | Returned a => f a
  | Thrown e => Thrown e
  | OutOfFuel => OutOfFuel
  end.

Notation "x <- m ;; k" := (bind m (fun x => k))
  (at level 61, m at next level, right associativity).

(** ** The integers among the JavaScript numbers, and NaN *)

Module JSNumber.

Definition JSNum : Type := option Z.

Definition NaN : JSNum := None.

Definition lift2 (f : Z -> Z -> Z) (a b : JSNum) : JSNum :=
  match a, b with
  | Some x, Some y => Some (f x y)
  | _, _ => None
  end.

Definition add : JSNum -> JSNum -> JSNum := lift2 Z.add.
Definition sub : JSNum -> JSNum -> JSNum := lift2 Z.sub.
Definition mul : JSNum -> JSNum -> JSNum := lift2 Z.mul.

(** Relational operators: every comparison with NaN is false. *)
Definition cmp2 (f : Z -> Z -> bool) (a b : JSNum) : bool :=
  match a, b with
  | Some x, Some y => f x y
  | _, _ => false
  end.

Definition lt : JSNum -> JSNum -> bool := cmp2 Z.ltb.
Definition le : JSNum -> JSNum -> bool := cmp2 Z.leb.
Definition ge : JSNum -> JSNum -> bool := cmp2 Z.geb.

(** [x || 0] on numbers: NaN and 0 are falsy. *)
Definition or_zero (a : JSNum) : JSNum :=
  match a with
  | Some x => Some x
  | None => Some 0
  end.

(** [Number.prototype.toString] on an integer or NaN: the decimal text, which
    is what JavaScript prints for the integers below [10 ^ 21] met here. *)
Definition toString (a : JSNum) : string :=
  match a with
  | Some z => NilZero.string_of_int (Z.to_int z)
  | None => "NaN"
  end.

End JSNumber.

Import JSNumber.

(** ** JavaScript numbers in full: IEEE 754 binary64 *)

Module JSDouble.

(** A Number value: NaN, an infinity, or a finite number given by its exact
    value, a rational.  The sign of zero is not represented: no operation
    applied to these numbers here (arithmetic, comparison, truncation)
    tells [-0] from [+0]. *)
Inductive double : Type :=
| NaN
| Infinity (negative : bool)
| Finite (q : Q).

(** Rounding of a rational to the nearest binary64 number, ties to even:
    [e] is the binary exponent of [|x|], [p] the exponent of the last place
    (53 bits of precision, never below [-1074]), [m] the significand rounded
    down and [m'] the significand rounded to nearest; a result of [2 ^ 1024]
    or more overflows to an infinity. *)
Definition round (x : Q) : double :=
  let n := Qnum x in
  let d := Zpos (Qden x) in
  if n =? 0 then Finite (inject_Z 0)
  else
    let a := Z.abs n in
    let e0 := Z.log2 a - Z.log2 d in
    let e := if (if 0 <=? e0 then d * 2 ^ e0 <=? a else d <=? a * 2 ^ (- e0))
             then e0 else e0 - 1 in
    let p := Z.max (e - 52) (-1074) in
    let num := if 0 <=? p then a else a * 2 ^ (- p) in
    let den := if 0 <=? p then d * 2 ^ p else d in
    let m := num / den in
    let r := num mod den in
    let m' := if (den <? 2 * r) || ((den =? 2 * r) && Z.odd m) then m + 1 else m in
    let s := if n <? 0 then -1 else 1 in
    if 0 <=? p then
      if 2 ^ 1024 <=? m' * 2 ^ p then Infinity (n <? 0)
      else Finite (inject_Z (s * m' * 2 ^ p))
    else Finite (Qred (Qmake (s * m') (Z.to_pos (2 ^ (- p))))).

(** The Number value of an integer. *)
Definition ofZ (z : Z) : double := round (inject_Z z).

Definition ofJSNum (a : JSNum) : double :=
  match a with
  | Some z => ofZ z
  | None => NaN
  end.

Definition zero : double := Finite (inject_Z 0).
Definition one : double := Finite (inject_Z 1).

Definition isFinite (a : double) : bool :=
  match a with
  | Finite _ => true
  | _ => false
  end.

Definition opp (a : double) : double :=
  match a with
  | NaN => NaN
  | Infinity s => Infinity (negb s)
  | Finite x => Finite (Qopp x)
  end.

(** [a + b] *)
Definition add (a b : double) : double :=
  match a, b with
  | NaN, _ | _, NaN => NaN
  | Infinity s, Infinity s' => if Bool.eqb s s' then Infinity s else NaN
  | Infinity s, Finite _ | Finite _, Infinity s => Infinity s
  | Finite x, Finite y => round (Qplus x y)
  end.

(** [a - b] *)
Definition sub (a b : double) : double := add a (opp b).

(** [a * b] *)
Definition mul (a b : double) : double :=
  match a, b with
  | NaN, _ | _, NaN => NaN
  | Infinity s, Infinity s' => Infinity (xorb s s')
  | Infinity s, Finite x | Finite x, Infinity s =>
      if Qnum x =? 0 then NaN else Infinity (xorb s (Qnum x <? 0))
  | Finite x, Finite y => round (Qmult x y)
  end.

(** [a <= b]; every comparison with NaN is false. *)
Definition le (a b : double) : bool :=
  match a, b with
  | NaN, _ | _, NaN => false
  | Infinity true, _ => true
  | _, Infinity false => true
  | Infinity false, _ => false
  | _, Infinity true => false
  | Finite x, Finite y => Qle_bool x y
  end.

(** [a >= b] *)
Definition ge (a b : double) : bool := le b a.

(** The integer part of a finite number, rounded towards zero
    (ToIntegerOrInfinity); [None] for NaN and the infinities. *)
Definition truncate (a : double) : option Z :=
  match a with
  | Finite x => Some (Z.quot (Qnum x) (Zpos (Qden x)))
  | _ => None
  end.

End JSDouble.

(** ** Strings *)

Module JSString.

Definition ascii_eqb (a b : ascii) : bool := Ascii.eqb a b.

Definition code (c : ascii) : nat := nat_of_ascii c.

Definition isDigit (c : ascii) : bool :=
  (48 <=? code c)%nat && (code c <=? 57)%nat.

Definition digitVal (c : ascii) : Z := Z.of_nat (code c) - 48.

(** [WhiteSpace] and [LineTerminator] code units below 256: TAB, LF, VT, FF,
    CR, SP, NBSP. *)
Definition isWhiteSpace (c : ascii) : bool :=
  let n := code c in
  ((9 <=? n)%nat && (n <=? 13)%nat) || (n =? 32)%nat || (n =? 160)%nat.

(** Line terminators, the characters [.] does not match. *)
Definition isLineTerminator (c : ascii) : bool :=
  (code c =? 10)%nat || (code c =? 13)%nat.

(** Upper case of a code unit: the letters a to z, and the accented letters
    of Latin-1 whose upper case is again a code unit below 256. *)
Definition toUpperChar (c : ascii) : ascii :=
  let n := code c in
  if (97 <=? n)%nat && (n <=? 122)%nat then ascii_of_nat (n - 32)
  else if (224 <=? n)%nat && (n <=? 254)%nat && negb (n =? 247)%nat
       then ascii_of_nat (n - 32)
  else c.

Fixpoint toUpperCase (s : string) : string :=
  match s with
  | EmptyString => EmptyString
  | String c s' => String (toUpperChar c) (toUpperCase s')
  end.

(** [s.substring(a, b)] for [a <= b]. *)
Definition substring (a b : nat) (s : string) : string :=
  String.substring a (b - a) s.

Fixpoint dropWhile (p : ascii -> bool) (s : string) : string :=
  match s with
  | EmptyString => EmptyString
  | String c s' => if p c then dropWhile p s' else s
  end.

Fixpoint rev_acc (s acc : string) : string :=
  match s with
  | EmptyString => acc
  | String c s' => rev_acc s' (String c acc)
  end.

Definition rev (s : string) : string := rev_acc s EmptyString.

Definition trimStart (s : string) : string := dropWhile isWhiteSpace s.
Definition trimEnd (s : string) : string := rev (dropWhile isWhiteSpace (rev s)).
Definition trim (s : string) : string := trimEnd (trimStart s).

(** If [p] is a prefix of [s], the rest of [s] after it. *)
Fixpoint stripPrefix (p s : string) : option string :=
  match p, s with
  | EmptyString, _ => Some s
  | String a p', String b s' => if ascii_eqb a b then stripPrefix p' s' else None
  | String _ _, EmptyString => None
  end.

(** [s.includes(p)]. *)
Fixpoint includes (p s : string) : bool :=
  match stripPrefix p s with
  | Some _ => true
  | None =>
      match s with
      | EmptyString => false
      | String _ s' => includes p s'
      end
  end.

(** [s.split(sep)] for a non-empty separator.  [skip] counts the characters
    of a separator occurrence that still have to be passed over; [cur] is the
    piece under construction, reversed. *)
Fixpoint split_go (sep : string) (skip : nat) (cur : string) (s : string)
  : list string :=
  match s with
  | EmptyString => [rev cur]
  | String c s' =>
      match skip with
      | S k => split_go sep k cur s'
      | O =>
          match stripPrefix sep s with
          | Some _ => rev cur :: split_go sep (String.length sep - 1) EmptyString s'
          | None => split_go sep O (String c cur) s'
          end
      end
  end.

Definition split (sep : string) (s : string) : list string :=
  split_go sep O EmptyString s.

(** [s.replace(pat, '')] with a string pattern: only the first occurrence is
    removed. *)
Fixpoint removeFirst (pat : string) (s : string) : string :=
  match stripPrefix pat s with
  | Some rest => rest
  | None =>
      match s with
      | EmptyString => EmptyString
      | String c s' => String c (removeFirst pat s')
      end
  end.

(** [s.substr(start, length)] for a start within the string. *)
Definition substr (start len : nat) (s : string) : string :=
  String.substring start len s.

(** [s.padStart(n, '0')]. *)
Definition padStart (n : nat) (s : string) : string :=
  String.concat "" (repeat "0" (n - String.length s)) ++ s.

(** Comparison of strings by code units, the order [localeCompare] induces on
    the digit-and-punctuation strings the service sorts; the result is the
    sign returned to the sort comparator. *)
Fixpoint localeCompare (a b : string) : Z :=
  match a, b with
  | EmptyString, EmptyString => 0
  | EmptyString, String _ _ => -1
  | String _ _, EmptyString => 1
  | String x a', String y b' =>
      if (code x <? code y)%nat then -1
      else if (code y <? code x)%nat then 1
      else localeCompare a' b'
  end.

(** Leading run of characters that are digits by [dv], as the value in base
    [radix] they denote and the number of characters read. *)
Fixpoint readDigits (radix : Z) (dv : ascii -> option Z) (acc : Z) (n : nat)
  (s : string) : Z * nat :=
  match s with
  | EmptyString => (acc, n)
  | String c s' =>
      match dv c with
      | Some d => readDigits radix dv (radix * acc + d) (S n) s'
      | None => (acc, n)
      end
  end.

Definition hexDigit (c : ascii) : option Z :=
  let n := code c in
  if isDigit c then Some (digitVal c)
  else if (97 <=? n)%nat && (n <=? 102)%nat then Some (Z.of_nat n - 87)
  else if (65 <=? n)%nat && (n <=? 70)%nat then Some (Z.of_nat n - 55)
  else None.

Definition radixDigit (radix : Z) (c : ascii) : option Z :=
  match hexDigit c with
  | Some d => if d <? radix then Some d else None
  | None => None
  end.

Definition readNumber (radix : Z) (s : string) : JSNum :=
  match readDigits radix (radixDigit radix) 0 O s with
  | (_, O) => NaN
  | (v, S _) => Some v
  end.

(** [parseInt(s)] with no radix argument: leading white space is skipped, a
    sign is read, a [0x] / [0X] prefix selects radix 16, and the longest
    prefix of digits is converted; no digit at all gives NaN. *)
Definition parseInt (s : string) : JSNum :=
  let s1 := trimStart s in
  let '(sign, s2) :=
    match s1 with
    | String "-" r => (-1, r)
    | String "+" r => (1, r)
    | _ => (1, s1)
    end in
  let '(radix, s3) :=
    match s2 with
    | String "0" (String "x" r) => (16, r)
    | String "0" (String "X" r) => (16, r)
    | _ => (10, s2)
    end in
  match readNumber radix s3 with
  | Some v => Some (sign * v)
  | None => NaN
  end.

(** All of [s] as digits of base [radix]; at least one digit is required. *)
Definition wholeNumber (radix : Z) (s : string) : JSNum :=
  match readDigits radix (radixDigit radix) 0 O s with
  | (_, O) => NaN
  | (v, S k) => if (S k =? String.length s)%nat then Some v else NaN
  end.

(** [s] without its first [n] characters. *)
Fixpoint skip (n : nat) (s : string) : string :=
  match n, s with
  | S k, String _ s' => skip k s'
  | _, _ => s
  end.

(** StrUnsignedDecimalLiteral other than [Infinity]: digits, an optional
    fraction part, an optional exponent part, with a digit before or after
    the point.  The result [(v, e)] stands for [v * 10 ^ e]. *)
Definition decimalLiteral (u : string) : option (Z * Z) :=
  let '(ip, n1) := readDigits 10 (radixDigit 10) 0 O u in
  let r1 := skip n1 u in
  let '(v, n2, r2) :=
    match r1 with
    | String "." r =>
        let '(w, k) := readDigits 10 (radixDigit 10) ip O r in (w, k, skip k r)
    | _ => (ip, O, r1)
    end in
  if (n1 + n2 =? 0)%nat then None
  else
    match r2 with
    | EmptyString => Some (v, - Z.of_nat n2)
    | String c r3 =>
        if ascii_eqb c "e" || ascii_eqb c "E" then
          let '(sign, r4) :=
            match r3 with
            | String "-" r => (-1, r)
            | String "+" r => (1, r)
            | _ => (1, r3)
            end in
          match wholeNumber 10 r4 with
          | Some x => Some (v, sign * x - Z.of_nat n2)
          | None => None
          end
        else None
    end.

(** The rational [v * 10 ^ e]. *)
Definition scaled (v e : Z) : Q :=
  if 0 <=? e then inject_Z (v * 10 ^ e) else Qmake v (Z.to_pos (10 ^ (- e))).

(** A signed StrDecimalLiteral: [Infinity], or digits with fraction and
    exponent parts, rounded to binary64. *)
Definition decimalNumber (t : string) : JSDouble.double :=
  let '(negative, u) :=
    match t with
    | String "-" r => (true, r)
    | String "+" r => (false, r)
    | _ => (false, t)
    end in
  if (u =? "Infinity")%string then JSDouble.Infinity negative
  else
    match decimalLiteral u with
    | Some (v, e) =>
        let x := JSDouble.round (scaled v e) in
        if negative then JSDouble.opp x else x
    | None => JSDouble.NaN
    end.

(** [Number(s)] (StringToNumber): the text is trimmed; the empty text is 0;
    an unsigned [0x] / [0o] / [0b] literal is its value, rounded to binary64;
    every other text is a signed decimal literal, or NaN. *)
Definition Number (s : string) : JSDouble.double :=
  let t := trim s in
  match t with
  | EmptyString => JSDouble.zero
  | String "0" (String "x" r) | String "0" (String "X" r) =>
      JSDouble.ofJSNum (wholeNumber 16 r)
  | String "0" (String "o" r) | String "0" (String "O" r) =>
      JSDouble.ofJSNum (wholeNumber 8 r)
  | String "0" (String "b" r) | String "0" (String "B" r) =>
      JSDouble.ofJSNum (wholeNumber 2 r)
  | _ => decimalNumber t
  end.

End JSString.

Import JSString.

(** ** Regular expressions

    The fragment of ECMAScript regular expressions the service uses, with the
    backtracking matcher of the language: alternatives and optional parts are
    tried left to right, repetition is greedy, and a match is searched from
    the leftmost start position.  Repetition is only ever applied to a
    character class in the service's expressions. *)

Module Regex.

Inductive re : Type :=
| Lit (l : string)
| Rep (p : ascii -> bool) (min : nat) (max : option nat)
| Seq (r1 r2 : re)
| Alt (r1 r2 : re)
| Opt (r : re)
| Cap (r : re).

(** Literal text at the head of [s]; under the [i] flag letters match in
    either case. *)
Fixpoint stripLit (ci : bool) (l s : string) : option string :=
  match l, s with
  | EmptyString, _ => Some s
  | String a l', String b s' =>
      if (if ci then ascii_eqb (toUpperChar a) (toUpperChar b) else ascii_eqb a b)
      then stripLit ci l' s' else None
  | String _ _, EmptyString => None
  end.

Definition maxAllows (max : option nat) : bool :=
  match max with
  | Some O => false
  | _ => true
  end.

Definition maxPred (max : option nat) : option nat :=
  match max with
  | Some n => Some (Nat.pred n)
  | None => None
  end.

(** Greedy repetition of the class [p], between [min] and [max] times: take
    one more character whenever possible, and give characters back one at a
    time when the continuation fails. *)
Fixpoint repGo {R : Type} (p : ascii -> bool) (min : nat) (max : option nat)
  (s : string) (k : string -> option R) : option R :=
  let stop := match min with O => k s | S _ => None end in
  match s with
  | EmptyString => stop
  | String c s' =>
      if p c && maxAllows max then
        match repGo p (Nat.pred min) (maxPred max) s' k with
        | Some x => Some x
        | None => stop
        end
      else stop
  end.

(** The text of [s] consumed when the rest is [s']. *)
Definition consumed (s s' : string) : string :=
  String.substring 0 (String.length s - String.length s') s.

(** [matchAt ci r s cap k]: match [r] at the head of [s], then continue with
    [k] on the rest; [cap] is the text of capture group 1 so far. *)
Fixpoint matchAt {R : Type} (ci : bool) (r : re) (s : string) (cap : option string)
  (k : string -> option string -> option R) : option R :=
  match r with
  | Lit l =>
      match stripLit ci l s with
      | Some s' => k s' cap
      | None => None
      end
  | Rep p min max => repGo p min max s (fun s' => k s' cap)
  | Seq r1 r2 => matchAt ci r1 s cap (fun s' cap' => matchAt ci r2 s' cap' k)
  | Alt r1 r2 =>
      match matchAt ci r1 s cap k with
      | Some x => Some x
      | None => matchAt ci r2 s cap k
      end
  | Opt r1 =>
      match matchAt ci r1 s cap k with
      | Some x => Some x
      | None => k s cap
      end
  | Cap r1 => matchAt ci r1 s cap (fun s' _ => k s' (Some (consumed s s')))
  end.

(** [s.match(r)] for a non-global expression: [None] is [null]; otherwise the
    value is element 1 of the match array. *)
Fixpoint exec (ci : bool) (r : re) (s : string) : option (option string) :=
  match matchAt ci r s None (fun _ cap => Some cap) with
  | Some cap => Some cap
  | None =>
      match s with
      | EmptyString => None
      | String _ s' => exec ci r s'
      end
  end.

(** [s.replace(r, '')] for a global expression: every match, found left to
    right without overlap, is removed. *)
Fixpoint removeAll_go (r : re) (skip : nat) (s : string) : string :=
  match s with
  | EmptyString => EmptyString
  | String c s' =>
      match skip with
      | S n => removeAll_go r n s'
      | O =>
          match matchAt false r s None (fun s1 _ => Some s1) with
          | Some s1 =>
              match (String.length s - String.length s1)%nat with
              | O => String c (removeAll_go r O s')
              | S n => removeAll_go r n s'
              end
          | None => String c (removeAll_go r O s')
          end
      end
  end.

Definition removeAll (r : re) (s : string) : string := removeAll_go r O s.

(** Character classes. *)
Definition isChar (a : ascii) (c : ascii) : bool := ascii_eqb a c.
Definition notChar (a : ascii) (c : ascii) : bool := negb (ascii_eqb a c).
Definition dot (c : ascii) : bool := negb (isLineTerminator c).
Definition spaceOrTab (c : ascii) : bool := (code c =? 32)%nat || (code c =? 9)%nat.

Definition star (p : ascii -> bool) : re := Rep p 0 None.
Definition plus (p : ascii -> bool) : re := Rep p 1 None.
Definition exactly (n : nat) (p : ascii -> bool) : re := Rep p n (Some n).

Fixpoint seq (rs : list re) : re :=
  match rs with
  | [] => Lit ""
  | [r] => r
  | r :: rs' => Seq r (seq rs')
  end.

End Regex.

Import Regex.

(** ** The Date object (ECMA-262, "Date Objects") *)

Module JSDate.

(** The host: the offset of local time from UTC in milliseconds, and the
    readings of the clock, time values: [now] at the first [new Date()] of a
    call and [later] at the second, for the calls that read the clock
    twice. *)
Record Host : Type := hostOf { LocalTZA : Z; now : Z; later : Z }.

(** A host whose clock does not advance between the two readings. *)
Definition mkHost (tza t : Z) : Host := hostOf tza t t.

Definition Date : Type := JSNum.

Definition msPerDay : Z := 86400000.
Definition msPerHour : Z := 3600000.
Definition msPerMinute : Z := 60000.
Definition msPerSecond : Z := 1000.

Definition Day (t : Z) : Z := t / msPerDay.
Definition TimeWithinDay (t : Z) : Z := t mod msPerDay.

Definition DayFromYear (y : Z) : Z :=
  365 * (y - 1970) + (y - 1969) / 4 - (y - 1901) / 100 + (y - 1601) / 400.

Definition isLeap (y : Z) : bool :=
  (y mod 4 =? 0) && (negb (y mod 100 =? 0) || (y mod 400 =? 0)).

Definition DaysInYear (y : Z) : Z := if isLeap y then 366 else 365.

(** The year containing day number [d]: the largest [y] with
    [DayFromYear y <= d], found from an estimate that is off by at most one. *)
Definition YearFromDay (d : Z) : Z :=
  let y0 := 1970 + (400 * d) / 146097 in
  if d <? DayFromYear y0 then y0 - 1
  else if DayFromYear (y0 + 1) <=? d then y0 + 1
  else y0.

Definition YearFromTime (t : Z) : Z := YearFromDay (Day t).

Definition InLeapYear (t : Z) : Z := if isLeap (YearFromTime t) then 1 else 0.

Definition DayWithinYear (t : Z) : Z := Day t - DayFromYear (YearFromTime t).

(** Number of days of the year before month [m] (0 = January). *)
Definition monthStart (leap : Z) (m : Z) : Z :=
  if m =? 0 then 0
  else if m =? 1 then 31
  else if m =? 2 then 59 + leap
  else if m =? 3 then 90 + leap
  else if m =? 4 then 120 + leap
  else if m =? 5 then 151 + leap
  else if m =? 6 then 181 + leap
  else if m =? 7 then 212 + leap
  else if m =? 8 then 243 + leap
  else if m =? 9 then 273 + leap
  else if m =? 10 then 304 + leap
  else 334 + leap.

Definition monthOfDay (leap : Z) (d : Z) : Z :=
  if d <? 31 then 0
  else if d <? 59 + leap then 1
  else if d <? 90 + leap then 2
  else if d <? 120 + leap then 3
  else if d <? 151 + leap then 4
  else if d <? 181 + leap then 5
  else if d <? 212 + leap then 6
  else if d <? 243 + leap then 7
  else if d <? 273 + leap then 8
  else if d <? 304 + leap then 9
  else if d <? 334 + leap then 10
  else 11.

Definition MonthFromTime (t : Z) : Z := monthOfDay (InLeapYear t) (DayWithinYear t).

Definition DateFromTime (t : Z) : Z :=
  DayWithinYear t - monthStart (InLeapYear t) (MonthFromTime t) + 1.

Definition WeekDay (t : Z) : Z := (Day t + 4) mod 7.

Definition HourFromTime (t : Z) : Z := (t / msPerHour) mod 24.
Definition MinFromTime (t : Z) : Z := (t / msPerMinute) mod 60.
Definition SecFromTime (t : Z) : Z := (t / msPerSecond) mod 60.
Definition msFromTime (t : Z) : Z := t mod msPerSecond.

Definition MakeTime (hour min sec ms : Z) : Z :=
  hour * msPerHour + min * msPerMinute + sec * msPerSecond + ms.

Definition MakeDay (year month date : Z) : Z :=
  let ym := year + month / 12 in
  let mn := month mod 12 in
  DayFromYear ym + monthStart (if isLeap ym then 1 else 0) mn + date - 1.

Definition MakeDate (day time : Z) : Z := day * msPerDay + time.

Definition TimeClip (t : Z) : Date :=
  if 8640000000000000 <? Z.abs t then NaN else Some t.

Section WithHost.

Variable h : Host.

Definition LocalTime (t : Z) : Z := t + LocalTZA h.
Definition UTC (t : Z) : Z := t - LocalTZA h.

(** [new Date()]. *)
Definition newDate : Date := Some (now h).

(** The second [new Date()] of a call. *)
Definition newDateLater : Date := Some (later h).

(** [new Date(value)] for a number. *)
Definition newDateOfValue (v : JSNum) : Date :=
  match v with
  | Some t => TimeClip t
  | None => NaN
  end.

(** [new Date(year, month, date, hours, minutes, seconds)] on fields that
    are integers of at most four digits, as [parseIcsDate] passes them: the
    fields are local; a year from 0 to 99 denotes 1900 + year.  On such
    fields the arithmetic of [MakeDay], [MakeTime] and [MakeDate] is exact
    ([newDateOfNumbers_fields] below). *)
Definition newDateOfFields (year month date hours minutes seconds : JSNum) : Date :=
  match year, month, date, hours, minutes, seconds with
  | Some y, Some m, Some dt, Some hh, Some mi, Some s =>
      let yr := if (0 <=? y) && (y <=? 99) then 1900 + y else y in
      TimeClip (UTC (MakeDate (MakeDay yr m dt) (MakeTime hh mi s 0)))
  | _, _, _, _, _, _ => NaN
  end.

(** The same constructor on arbitrary Number values, with the arithmetic of
    ECMA-262 in binary64.  [MakeTime]: the fields are truncated, and
    [((h * msPerHour + m * msPerMinute) + s * msPerSecond) + milli] is
    computed with IEEE 754 operations. *)
Definition MakeTimeN (hour min sec ms : JSDouble.double) : JSDouble.double :=
  match JSDouble.truncate hour, JSDouble.truncate min,
        JSDouble.truncate sec, JSDouble.truncate ms with
  | Some hh, Some m, Some s, Some milli =>
      JSDouble.add
        (JSDouble.add
           (JSDouble.add (JSDouble.mul (JSDouble.ofZ hh) (JSDouble.ofZ msPerHour))
                         (JSDouble.mul (JSDouble.ofZ m) (JSDouble.ofZ msPerMinute)))
           (JSDouble.mul (JSDouble.ofZ s) (JSDouble.ofZ msPerSecond)))
        (JSDouble.ofZ milli)
  | _, _, _, _ => JSDouble.NaN
  end.

(** [MakeDay]: [Day(t) + dt - 1] for the first day [t] of the month.  The
    result is NaN when no such [t] exists "because some argument is out of
    range", which ECMA-262 leaves to the implementation: the bounds here,
    a year within a million and a month within ten million of 0, are those
    of V8. *)
Definition MakeDayN (year month date : JSDouble.double) : JSDouble.double :=
  match JSDouble.truncate year, JSDouble.truncate month, JSDouble.truncate date with
  | Some y, Some m, Some dt =>
      if JSDouble.le (JSDouble.ofZ (-1000000)) year
         && JSDouble.le year (JSDouble.ofZ 1000000)
         && JSDouble.le (JSDouble.ofZ (-10000000)) month
         && JSDouble.le month (JSDouble.ofZ 10000000)
      then
        let ym := y + m / 12 in
        let mn := m mod 12 in
        JSDouble.sub
          (JSDouble.add
             (JSDouble.ofZ (DayFromYear ym + monthStart (if isLeap ym then 1 else 0) mn))
             (JSDouble.ofZ dt))
          JSDouble.one
      else JSDouble.NaN
  | _, _, _ => JSDouble.NaN
  end.

(** [MakeDate]: [day * msPerDay + time], NaN when that is not finite. *)
Definition MakeDateN (day time : JSDouble.double) : JSDouble.double :=
  if JSDouble.isFinite day && JSDouble.isFinite time then
    let tv := JSDouble.add (JSDouble.mul day (JSDouble.ofZ msPerDay)) time in
    if JSDouble.isFinite tv then tv else JSDouble.NaN
  else JSDouble.NaN.

Definition newDateOfNumbers (year month date hours minutes seconds : JSDouble.double)
  : Date :=
  let yr := match JSDouble.truncate year with
            | Some y => if (0 <=? y) && (y <=? 99) then JSDouble.ofZ (1900 + y) else year
            | None => year
            end in
  match JSDouble.truncate
          (MakeDateN (MakeDayN yr month date)
                     (MakeTimeN hours minutes seconds JSDouble.zero)) with
  | Some tv => TimeClip (UTC tv)
  | None => NaN
  end.

Definition getTime (d : Date) : JSNum := d.

Definition getLocal (f : Z -> Z) (d : Date) : JSNum :=
  match d with
  | Some t => Some (f (LocalTime t))
  | None => NaN
  end.

Definition getFullYear : Date -> JSNum := getLocal YearFromTime.
Definition getMonth : Date -> JSNum := getLocal MonthFromTime.
Definition getDate : Date -> JSNum := getLocal DateFromTime.
Definition getDay : Date -> JSNum := getLocal WeekDay.
Definition getHours : Date -> JSNum := getLocal HourFromTime.
Definition getMinutes : Date -> JSNum := getLocal MinFromTime.
Definition getSeconds : Date -> JSNum := getLocal SecFromTime.

(** [d.setDate(dt)]; the value is the new time value of [d]. *)
Definition setDate (d : Date) (dt : JSNum) : Date :=
  match d, dt with
  | Some t, Some n =>
      let lt := LocalTime t in
      TimeClip (UTC (MakeDate (MakeDay (YearFromTime lt) (MonthFromTime lt) n)
                              (TimeWithinDay lt)))
  | _, _ => NaN
  end.

(** [d.setMonth(m)]. *)
Definition setMonth (d : Date) (m : JSNum) : Date :=
  match d, m with
  | Some t, Some n =>
      let lt := LocalTime t in
      TimeClip (UTC (MakeDate (MakeDay (YearFromTime lt) n (DateFromTime lt))
                              (TimeWithinDay lt)))
  | _, _ => NaN
  end.

(** [d.setFullYear(y)]; an invalid date is first reset to time value 0. *)
Definition setFullYear (d : Date) (y : JSNum) : Date :=
  match y with
  | Some n =>
      let lt := match d with Some t => LocalTime t | None => 0 end in
      TimeClip (UTC (MakeDate (MakeDay n (MonthFromTime lt) (DateFromTime lt))
                              (TimeWithinDay lt)))
  | None => NaN
  end.

End WithHost.

Definition dec (z : Z) : string := JSNumber.toString (Some z).

Definition isoYear (y : Z) : string :=
  if (0 <=? y) && (y <=? 9999) then padStart 4 (dec y)
  else (if y <? 0 then "-" else "+") ++ padStart 6 (dec (Z.abs y)).

(** [d.toISOString()], in UTC; throws a RangeError on an invalid date. *)
Definition toISOString (d : Date) : outcome string :=
  match d with
  | None => Thrown "RangeError"
  | Some t =>
      Returned (isoYear (YearFromTime t) ++ "-" ++
                padStart 2 (dec (MonthFromTime t + 1)) ++ "-" ++
                padStart 2 (dec (DateFromTime t)) ++ "T" ++
                padStart 2 (dec (HourFromTime t)) ++ ":" ++
                padStart 2 (dec (MinFromTime t)) ++ ":" ++
                padStart 2 (dec (SecFromTime t)) ++ "." ++
                padStart 3 (dec (msFromTime t)) ++ "Z")
  end.

End JSDate.

Import JSDate.

(** ** Arrays *)

Module JSArray.

(** [a.findIndex(p)]; [None] is -1. *)
Fixpoint findIndex {A : Type} (p : A -> bool) (a : list A) : option nat :=
  match a with
  | [] => None
  | x :: a' => if p x then Some O
               else match findIndex p a' with
                    | Some i => Some (S i)
                    | None => None
                    end
  end.

(** [a[index] = v] for an index within the array. *)
Fixpoint assign {A : Type} (index : nat) (v : A) (a : list A) : list A :=
  match a, index with
  | [], _ => []
  | _ :: a', O => v :: a'
  | x :: a', S i => x :: assign i v a'
  end.

End JSArray.

(** ** The browser: [localStorage] and [JSON]

    [localStorage] is a finite map from keys to texts.  The browser limits
    what an origin may store: [setItem] throws a QuotaExceededError when it
    refuses the new content, and leaves the storage as it was.
    [JSON.stringify] and [JSON.parse] are taken at the type TypeScript
    declares for the value stored: a codec is a pair of a printer and a
    reader, and the reader gives [None] where [JSON.parse] throws.  Texts
    that denote a JSON value of another shape are outside the model. *)

Module LocalStorage.

Definition Storage : Type := list (string * string).

(** What the browser agrees to hold. *)
Definition Quota : Type := Storage -> bool.

(** [localStorage.getItem(key)]; [None] is [null]. *)
Definition getItem (st : Storage) (key : string) : option string :=
  match find (fun kv => (fst kv =? key)%string) st with
  | Some kv => Some (snd kv)
  | None => None
  end.

(** [localStorage.setItem(key, value)]. *)
Definition setItem (quota : Quota) (st : Storage) (key value : string)
  : outcome Storage :=
  let st' := (key, value) :: filter (fun kv => negb (fst kv =? key)%string) st in
  if quota st' then Returned st' else Thrown "QuotaExceededError".

End LocalStorage.

Import LocalStorage.

(** [JSON] at the type [A]: [JSON.stringify] and [JSON.parse]. *)
Record JSON (A : Type) : Type := mkJSON {
  stringify : A -> string;
  parse : string -> option A
}.

Arguments stringify {A} _ _.
Arguments parse {A} _ _.

(** ** services/calendarService.ts *)

Module CalendarService.

(** [CalendarEvent] of types.ts; optional fields are options. *)
Record CalendarEvent : Type := mkEvent {
  id : string;
  title : string;
  startTime : string;
  endTime : string;
  days : list JSNum;
  date : option string;
  location : option string;
  isExternal : option bool
}.

(** Element [i] of an array of numbers; a missing element is [undefined],
    which every arithmetic use below turns into NaN. *)
Definition elem (i : nat) (a : list JSDouble.double) : JSDouble.double :=
  nth i a JSDouble.NaN.

(** Element [i] of an array of strings known to be long enough. *)
Definition part (i : nat) (a : list string) : string := nth i a "".

(** [parseIcsDate].  The fallback reads the clock.  Within [parseICS] every
    token given to [parseIcsDate] was captured by an expression that asks
    for 8 digits, so the fallback is not taken there and the clock is read
    twice only, at the start. *)
Definition parseIcsDate (h : Host) (dateStr : string) : Date :=
  if (dateStr =? "")%string || (String.length dateStr <? 8)%nat then newDate h
  else
    let year := parseInt (substring 0 4 dateStr) in
    let month := sub (parseInt (substring 4 6 dateStr)) (Some 1) in
    let day := parseInt (substring 6 8 dateStr) in
    if includes "T" dateStr then
      let timePart := removeFirst "Z" (part 1 (split "T" dateStr)) in
      let hour := or_zero (parseInt (substring 0 2 timePart)) in
      let minute := or_zero (parseInt (substring 2 4 timePart)) in
      let second := or_zero (parseInt (substring 4 6 timePart)) in
      newDateOfFields h year month day hour minute second
    else
      newDateOfFields h year month day (Some 0) (Some 0) (Some 0).

(** The regular expressions of [parseICS]. *)

Definition CR : string := String "013" EmptyString.
Definition LF : string := String "010" EmptyString.

(** [/\r?\n[ \t]/g] *)
Definition reFold : re := seq [Opt (Lit CR); Lit LF; exactly 1 spaceOrTab].

(** [NAME(?:;[^:]* )?:(value)], written here with a space before the
    closing parenthesis of the optional parameter part. *)
Definition reProperty (name : string) (value : re) : re :=
  seq [Lit name; Opt (Seq (Lit ";") (star (notChar ":"))); Lit ":"; Cap value].

(** [\d{8}T\d{6}Z?|\d{8}] *)
Definition reDateTime : re :=
  Alt (seq [exactly 8 isDigit; Lit "T"; exactly 6 isDigit; Opt (Lit "Z")])
      (exactly 8 isDigit).

Definition reSummary : re := reProperty "SUMMARY" (star dot).
Definition reDtStart : re := reProperty "DTSTART" reDateTime.
Definition reDtEnd : re := reProperty "DTEND" reDateTime.
Definition reRRule : re := reProperty "RRULE" (star dot).
Definition reLocation : re := reProperty "LOCATION" (star dot).

(** [/FREQ=([^;]+)/i], [/COUNT=(\d+)/i], [/UNTIL=(\d{8}T\d{6}Z?|\d{8})/i],
    [/INTERVAL=(\d+)/i] *)
Definition reFreq : re := Seq (Lit "FREQ=") (Cap (plus (notChar ";"))).
Definition reCount : re := Seq (Lit "COUNT=") (Cap (plus isDigit)).
Definition reUntil : re := Seq (Lit "UNTIL=") (Cap reDateTime).
Definition reInterval : re := Seq (Lit "INTERVAL=") (Cap (plus isDigit)).

(** [m[1]]; group 1 takes part in every match of the expressions above. *)
Definition group1 (m : option string) : string :=
  match m with
  | Some s => s
  | None => ""
  end.

(** The loop bound [count]: a number, or [Infinity]. *)
Inductive Count : Type :=
| Infinity
| Finite (n : JSNum).

(** [iterations < count] *)
Definition ltCount (iterations : Z) (count : Count) : bool :=
  match count with
  | Infinity => true
  | Finite n => lt (Some iterations) n
  end.

Section Block.

Variable h : Host.
(** [now] and [expansionLimit] of [parseICS]. *)
Variable now : Date.
Variable expansionLimit : Date.
(** The block being processed. *)
Variable blockIdx : nat.
Variable title : string.
Variable location : string.
Variable duration : JSNum.

Definition hhmm (d : Date) : string :=
  padStart 2 (toString (getHours h d)) ++ ":" ++ padStart 2 (toString (getMinutes h d)).

(** The template literal [`ics-${blockIdx}-${idx}-${occStart.getTime()}`]. *)
Definition eventId (idx : Z) (occStart : Date) : string :=
  "ics-" ++ toString (Some (Z.of_nat blockIdx)) ++ "-" ++ toString (Some idx)
         ++ "-" ++ toString (getTime occStart).

(** [addOccurrence]: [events.push] appends. *)
Definition addOccurrence (occStart : Date) (idx : Z) (events : list CalendarEvent)
  : outcome (list CalendarEvent) :=
  let occEnd := newDateOfValue (add (getTime occStart) duration) in
  if lt occEnd now then Returned events
  else
    iso <- toISOString occStart ;;
    Returned (events ++ [ mkEvent (eventId idx occStart)
                                  title
                                  (hhmm occStart)
                                  (hhmm occEnd)
                                  [getDay h occStart]
                                  (Some (part 0 (split "T" iso)))
                                  (Some location)
                                  (Some true) ])%list.

(** The recurrence rule of the block. *)
Variable freq : string.
Variable count : Count.
Variable until : Date.
Variable interval : JSNum.

(** The body of the loop after [addOccurrence]: the new value of
    [currentStart], or [None] for [break]. *)
Definition advance (currentStart : Date) : option Date :=
  if (freq =? "DAILY")%string then
    Some (setDate h currentStart (add (getDate h currentStart) interval))
  else if (freq =? "WEEKLY")%string then
    Some (setDate h currentStart (add (getDate h currentStart) (mul (Some 7) interval)))
  else if (freq =? "MONTHLY")%string then
    Some (setMonth h currentStart (add (getMonth h currentStart) interval))
  else if (freq =? "YEARLY")%string then
    Some (setFullYear h currentStart (add (getFullYear h currentStart) interval))
  else None.

(** The [while] loop; one unit of fuel per evaluation of its condition. *)
Fixpoint expand (fuel : nat) (currentStart : Date) (iterations : Z)
  (events : list CalendarEvent) : outcome (list CalendarEvent) :=
  match fuel with
  | O => OutOfFuel
  | S fuel' =>
      if ltCount iterations count && le currentStart until
         && le currentStart expansionLimit
      then
        events1 <- addOccurrence (newDateOfValue (getTime currentStart)) iterations events ;;
        match advance currentStart with
        | None => Returned events1
        | Some next =>
            let iterations' := iterations + 1 in
            if 500 <? iterations' then Returned events1
            else expand fuel' next iterations' events1
        end
      else Returned events
  end.

End Block.

(** The callback of [veventBlocks.forEach]. *)
Definition processBlock (fuel : nat) (h : Host) (now expansionLimit : Date)
  (block : string) (blockIdx : nat) (events : list CalendarEvent)
  : outcome (list CalendarEvent) :=
  let summaryMatch := exec false reSummary block in
  let dtStartMatch := exec false reDtStart block in
  let dtEndMatch := exec false reDtEnd block in
  let rruleMatch := exec false reRRule block in
  let locationMatch := exec false reLocation block in
  match summaryMatch, dtStartMatch with
  | Some summary1, Some dtStart1 =>
      let title := trim (group1 summary1) in
      let location := match locationMatch with
                      | Some l => trim (group1 l)
                      | None => "No location"
                      end in
      let startBase := parseIcsDate h (group1 dtStart1) in
      let duration := match dtEndMatch with
                      | Some e => sub (getTime (parseIcsDate h (group1 e))) (getTime startBase)
                      | None => Some (60 * 60 * 1000)
                      end in
      let rrule := match rruleMatch with
                   | Some r => Some (trim (group1 r))
                   | None => None
                   end in
      match rrule with
      | None | Some EmptyString =>
          addOccurrence h now blockIdx title location duration startBase 0 events
      | Some rrule =>
          let freqMatch := exec true reFreq rrule in
          let countMatch := exec true reCount rrule in
          let untilMatch := exec true reUntil rrule in
          let intervalMatch := exec true reInterval rrule in
          let freq := match freqMatch with
                      | Some f => toUpperCase (group1 f)
                      | None => "WEEKLY"
                      end in
          let count := match countMatch with
                       | Some c => Finite (parseInt (group1 c))
                       | None => Infinity
                       end in
          let until := match untilMatch with
                       | Some u => parseIcsDate h (group1 u)
                       | None => expansionLimit
                       end in
          let interval := match intervalMatch with
                          | Some i => parseInt (group1 i)
                          | None => Some 1
                          end in
          expand h now expansionLimit blockIdx title location duration
                 freq count until interval
                 fuel (newDateOfValue (getTime startBase)) 0 events
      end
  | _, _ => Returned events
  end.

Fixpoint forEachBlock (fuel : nat) (h : Host) (now expansionLimit : Date)
  (blocks : list string) (blockIdx : nat) (events : list CalendarEvent)
  : outcome (list CalendarEvent) :=
  match blocks with
  | [] => Returned events
  | block :: rest =>
      events1 <- processBlock fuel h now expansionLimit block blockIdx events ;;
      forEachBlock fuel h now expansionLimit rest (S blockIdx) events1
  end.

(** The comparator of the final [sort]. *)
Definition or_empty (s : option string) : string :=
  match s with
  | Some EmptyString | None => ""
  | Some t => t
  end.

Definition option_string_eqb (a b : option string) : bool :=
  match a, b with
  | Some x, Some y => (x =? y)%string
  | None, None => true
  | _, _ => false
  end.

Definition compareEvents (a b : CalendarEvent) : Z :=
  if negb (option_string_eqb (date a) (date b))
  then localeCompare (or_empty (date a)) (or_empty (date b))
  else localeCompare (startTime a) (startTime b).

(** [Array.prototype.sort] with a comparator: a stable sort. *)
Fixpoint insertSorted {A : Type} (cmp : A -> A -> Z) (x : A) (l : list A) : list A :=
  match l with
  | [] => [x]
  | y :: l' => if 0 <? cmp x y then y :: insertSorted cmp x l' else x :: l
  end.

Fixpoint sort {A : Type} (cmp : A -> A -> Z) (l : list A) : list A :=
  match l with
  | [] => []
  | x :: l' => insertSorted cmp x (sort cmp l')
  end.

(** [expansionLimit]: a second [new Date()], moved by
    [setDate(now.getDate() + 60)], where [now] is the first. *)
Definition expansionLimitOf (h : Host) : Date :=
  setDate h (newDateLater h) (add (getDate h (newDate h)) (Some 60)).

(** [parseICS], with the fuel given to each [while] loop. *)
Definition parseICSFuel (fuel : nat) (h : Host) (icsData : string)
  : outcome (list CalendarEvent) :=
  let unfoldedData := removeAll reFold icsData in
  let veventBlocks := tl (split "BEGIN:VEVENT" unfoldedData) in
  let now := newDate h in
  let expansionLimit := expansionLimitOf h in
  events <- forEachBlock fuel h now expansionLimit veventBlocks 0 [] ;;
  Returned (sort compareEvents events).

(** No loop evaluates its condition more than 501 times (shown below), so
    this much fuel is never exhausted. *)
Definition loopFuel : nat := 501.

Definition parseICS (h : Host) (icsData : string) : outcome (list CalendarEvent) :=
  parseICSFuel loopFuel h icsData.

(** [!event.date] *)
Definition lacksDate (event : CalendarEvent) : bool :=
  match date event with
  | None | Some EmptyString => true
  | Some _ => false
  end.

(** [eventEnd] of [filterUpcomingEvents]: [new Date(y, m - 1, d, endH, endM)]. *)
Definition eventEnd (h : Host) (event : CalendarEvent) : Date :=
  let endHM := map Number (split ":" (endTime event)) in
  let ymd := map Number (split "-" (or_empty (date event))) in
  newDateOfNumbers h (elem 0 ymd) (JSDouble.sub (elem 1 ymd) JSDouble.one) (elem 2 ymd)
                   (elem 0 endHM) (elem 1 endHM) JSDouble.zero.

Definition upcoming (h : Host) (now : Date) (event : CalendarEvent) : bool :=
  if lacksDate event then true
  else ge (eventEnd h event) now.

(** [filterUpcomingEvents]. *)
Definition filterUpcomingEvents (h : Host) (schedule : list CalendarEvent)
  : list CalendarEvent :=
  let now := newDate h in
  filter (upcoming h now) schedule.

(** The wall-clock minutes [H * 60 + M] read from an ["H:M"] text. *)
Definition minutesOf (hm : string) : JSDouble.double :=
  let a := map Number (split ":" hm) in
  JSDouble.add (JSDouble.mul (elem 0 a) (JSDouble.ofZ 60)) (elem 1 a).

(** The callback of [schedule.find]. *)
Definition activeAt (todayIso : string) (currentTimeMins : JSNum)
  (event : CalendarEvent) : bool :=
  if negb (option_string_eqb (date event) (Some todayIso)) then false
  else
    let startMins := minutesOf (startTime event) in
    let endMins := minutesOf (endTime event) in
    JSDouble.ge (JSDouble.ofJSNum currentTimeMins) startMins
    && JSDouble.le (JSDouble.ofJSNum currentTimeMins) endMins.

(** [findActiveEvent]; [None] is [null]. *)
Definition findActiveEvent (h : Host) (schedule : list CalendarEvent)
  : outcome (option CalendarEvent) :=
  let now := newDate h in
  iso <- toISOString now ;;
  let todayIso := part 0 (split "T" iso) in
  let currentTimeMins := add (mul (getHours h now) (Some 60)) (getMinutes h now) in
  Returned (find (activeAt todayIso currentTimeMins) schedule).

Definition SCHEDULE_KEY : string := "transcriber_pro_calendar_v2".

(** [getStoredSchedule]: an absent or empty item, and a text [JSON.parse]
    rejects, give the empty schedule. *)
Definition getStoredSchedule (J : JSON (list CalendarEvent)) (h : Host) (st : Storage)
  : list CalendarEvent :=
  match getItem st SCHEDULE_KEY with
  | Some stored =>
      if (stored =? "")%string then []
      else
        match parse J stored with
        | Some schedule => filterUpcomingEvents h schedule
        | None => []
        end
  | None => []
  end.

(** [saveSchedule]. *)
Definition saveSchedule (J : JSON (list CalendarEvent)) (quota : Quota) (st : Storage)
  (schedule : list CalendarEvent) : outcome Storage :=
  setItem quota st SCHEDULE_KEY (stringify J schedule).

End CalendarService.

Import CalendarService.

(** ** types.ts *)

Module Types.

Inductive Speaker : Type := user | ai.

Module TranscriptionSegment.
Record t : Type := mk {
  id : string;
  text : string;
  speaker : Speaker;
  timestamp : Z
}.
End TranscriptionSegment.

Module AnalysisResult.
Record t : Type := mk {
  summary : string;
  keyPoints : list string;
  actionItems : list string
}.
End AnalysisResult.

Module Session.
Record t : Type := mk {
  id : string;
  title : string;
  timestamp : Z;
  segments : list TranscriptionSegment.t;
  analysis : option AnalysisResult.t;
  duration : option Z
}.
End Session.

End Types.

Import Types.

(** ** services/storageService.ts *)

Module StorageService.

Definition STORAGE_KEY : string := "transcriber_pro_sessions_local".

Section WithJSON.

Variable J : JSON (list Session.t).
Variable quota : Quota.

(** [getSessions]. *)
Definition getSessions (st : Storage) : list Session.t :=
  match getItem st STORAGE_KEY with
  | None => []
  | Some stored =>
      if (stored =? "")%string then []
      else
        match parse J stored with
        | Some sessions => sessions
        | None => []
        end
  end.

(** [saveSession]: the session replaces the first stored session with its
    id, or is put in front. *)
Definition saveSession (st : Storage) (session : Session.t) : outcome Storage :=
  let sessions := getSessions st in
  let index := JSArray.findIndex
                 (fun s => (Session.id s =? Session.id session)%string) sessions in
  let sessions' :=
    match index with
    | Some i => JSArray.assign i session sessions
    | None => session :: sessions
    end in
  setItem quota st STORAGE_KEY (stringify J sessions').

(** [deleteSession]. *)
Definition deleteSession (st : Storage) (id : string) : outcome Storage :=
  let sessions := filter (fun s => negb (Session.id s =? id)%string) (getSessions st) in
  setItem quota st STORAGE_KEY (stringify J sessions).

End WithJSON.

End StorageService.

(** ** App.tsx: the parts that compute *)

Module App.

(** [formatDuration]: [Math.floor] of the quotient, and the remainder [%],
    which has the sign of the dividend. *)
Definition formatDuration (seconds : Z) : string :=
  let mins := seconds / 60 in
  let secs := Z.rem seconds 60 in
  padStart 2 (toString (Some mins)) ++ ":" ++ padStart 2 (toString (Some secs)).

(** The state the calendar and session handlers read and write, with the
    storage of the browser. *)
Record State : Type := mkState {
  storage : Storage;
  schedule : list CalendarEvent;
  pastSessions : list Session.t;
  currentTime : Date;
  notification : option string;
  error : option string
}.

(** The callback of the auto-refresh timer.  [h] is the host at
    [new Date()] in the callback, [h'] the host when the state update runs
    [filterUpcomingEvents]. *)
Definition tick (h h' : Host) (s : State) : State :=
  let now := newDate h in
  let sched := match getSeconds h now with
               | Some 0 => filterUpcomingEvents h' (schedule s)
               | _ => schedule s
               end in
  mkState (storage s) sched (pastSessions s) now (notification s) (error s).

Section WithJSON.

Variable JC : JSON (list CalendarEvent).
Variable JS : JSON (list Session.t).
Variable quota : Quota.

(** [loadData]. *)
Definition loadData (h : Host) (s : State) : State :=
  mkState (storage s)
          (getStoredSchedule JC h (storage s))
          (StorageService.getSessions JS (storage s))
          (currentTime s) (notification s) (error s).

(** What the [catch] of [handleICSImport] leaves. *)
Definition importFailed (s : State) : State :=
  mkState (storage s) (schedule s) (pastSessions s) (currentTime s)
          (notification s)
          (Some "Failed to parse calendar. Ensure it's a valid .ics file.").

(** [handleICSImport] on the text of the file.  [h] is the host during
    [parseICS], [h'] the host during [filterUpcomingEvents]; an exception of
    [parseICS] or of [saveSchedule] is caught. *)
Definition handleICSImport (h h' : Host) (text : string) (s : State) : State :=
  match parseICS h text with
  | Returned rawEvents =>
      if (0 <? List.length rawEvents)%nat then
        match saveSchedule JC quota (storage s) rawEvents with
        | Returned stored =>
            mkState stored
                    (filterUpcomingEvents h' rawEvents)
                    (pastSessions s)
                    (currentTime s)
                    (Some ("Successfully imported "
                           ++ toString (Some (Z.of_nat (List.length rawEvents)))
                           ++ " events."))
                    (error s)
        | _ => importFailed s
        end
      else
        mkState (storage s) (schedule s) (pastSessions s) (currentTime s)
                (notification s)
                (Some "The file was parsed but contained no upcoming events.")
  | _ => importFailed s
  end.

(** The [onDelete] handler of a session card: [deleteSession(id)], then
    [loadData()]; an exception of [deleteSession] ends the handler. *)
Definition onDelete (h : Host) (id : string) (s : State) : outcome State :=
  stored <- StorageService.deleteSession JS quota (storage s) id ;;
  Returned (loadData h (mkState stored (schedule s) (pastSessions s) (currentTime s)
                                (notification s) (error s))).

End WithJSON.

(** The event of the callout on the dashboard, shown when the schedule is
    not empty: [findActiveEvent(schedule) || schedule[0]]. *)
Definition calloutEvent (h : Host) (schedule : list CalendarEvent)
  : outcome (option CalendarEvent) :=
  active <- findActiveEvent h schedule ;;
  Returned (match active with
            | Some e => Some e
            | None => hd_error schedule
            end).

End App.

(** ** components/TranscriberUI.tsx: the time label of a segment *)

Module TranscriberUI.

Section WithLocale.

(** [new Date(value).toLocaleTimeString([], ...)], which depends on the
    locale of the browser. *)
Variable toLocaleTimeString : Z -> string.

(** [displayTime] of [SegmentCard]; the start time is optional, and 0 counts
    as absent. *)
Definition displayTime (segment : TranscriptionSegment.t) (startTime : option Z)
  : outcome string :=
  match startTime with
  | Some start =>
      if start =? 0 then
        Returned (toLocaleTimeString (TranscriptionSegment.timestamp segment))
      else
        iso <- toISOString (newDateOfValue
                              (Some (TranscriptionSegment.timestamp segment - start))) ;;
        Returned (substr 14 5 iso)
  | None => Returned (toLocaleTimeString (TranscriptionSegment.timestamp segment))
  end.

End WithLocale.

End TranscriberUI.

(** * Vocabulary of the properties

    Predicates, measures and concrete hosts, events and feeds that the
    statements below are about. *)

(** ** Outcomes and sequences *)

(** An outcome other than the exhaustion of the fuel. *)
Inductive Completes {A : Type} : outcome A -> Prop :=
| Completes_returned (a : A) : Completes (Returned a)
| Completes_thrown (err : string) : Completes (Thrown err).

#[local] Hint Constructors Completes : core.

(** The value a call returned, if it returned. *)
Definition returned {A : Type} (o : outcome A) : option A :=
  match o with
  | Returned a => Some a
  | _ => None
  end.

(** [Subseq l1 l2]: [l1] is [l2] with some elements deleted. *)
Inductive Subseq {A : Type} : list A -> list A -> Prop :=
| Subseq_nil : Subseq [] []
| Subseq_skip (x : A) (l1 l2 : list A) : Subseq l1 l2 -> Subseq l1 (x :: l2)
| Subseq_keep (x : A) (l1 l2 : list A) : Subseq l1 l2 -> Subseq (x :: l1) (x :: l2).

#[local] Hint Constructors Subseq : core.

(** ** Texts *)

(** Every character of [s] satisfies [p]. *)
Fixpoint allChars (p : ascii -> bool) (s : string) : bool :=
  match s with
  | EmptyString => true
  | String c s' => p c && allChars p s'
  end.

(** The number a run of decimal digits denotes. *)
Definition decimalValue (s : string) : Z :=
  fst (readDigits 10 (radixDigit 10) 0 O s).

(** A non-empty run of decimal digits. *)
Definition isNumeral (s : string) : Prop := allChars isDigit s = true /\ s <> "".

(** [lang ci r w]: the text [w] is matched by [r]. *)
Fixpoint lang (ci : bool) (r : re) (w : string) : Prop :=
  match r with
  | Lit l => stripLit ci l w = Some ""
  | Rep p min max =>
      allChars p w = true /\ (min <= String.length w)%nat /\
      match max with Some n => (String.length w <= n)%nat | None => True end
  | Seq r1 r2 => exists u v, w = u ++ v /\ lang ci r1 u /\ lang ci r2 v
  | Alt r1 r2 => lang ci r1 w \/ lang ci r2 w
  | Opt r1 => w = "" \/ lang ci r1 w
  | Cap r1 => lang ci r1 w
  end.

(** ** Numbers *)

(** A Number that is [+Infinity] or an integer not below [c]. *)
Definition atLeast (c : Z) (x : JSDouble.double) : Prop :=
  x = JSDouble.Infinity false \/ exists r, x = JSDouble.Finite (inject_Z r) /\ c <= r.

(** [approx K x x']: the Number [x'] computed for the integer [x] is [x]
    itself when [x] is at most [K], and in any case [+Infinity] or an
    integer that is not below [x] or not below [K]. *)
Definition approx (K x : Z) (x' : JSDouble.double) : Prop :=
  (x <= K -> x' = JSDouble.Finite (inject_Z x)) /\ atLeast (Z.min x K) x'.

(** A bound, above every time value, up to which the arithmetic of the Date
    constructor is exact on fields that are not negative. *)
Definition exactBound : Z := 2 ^ 53 - 10 ^ 14.

(** ** Hosts and dates *)

(** A host whose local time is within a day of UTC, as ECMA-262 requires. *)
Definition saneHost (h : Host) : Prop := Z.abs (LocalTZA h) <= msPerDay.

(** A date whose time value, when valid, is within the range of time
    values, so that copying it with [new Date(d.getTime())] gives it back. *)
Definition clipped (d : Date) : Prop := newDateOfValue (getTime d) = d.


(** The local wall-clock reading of a host, written as an ISO text. *)
Definition localClock (h : Host) : outcome string :=
  toISOString (Some (LocalTime h (now h))).

(** ** Find-active *)

(** The date text [findActiveEvent] compares with: the UTC calendar date of
    the clock reading. *)
Definition todayIsoOf (h : Host) : string :=
  match toISOString (newDate h) with
  | Returned iso => part 0 (split "T" iso)
  | _ => ""
  end.

(** The local wall-clock minutes of the clock reading. *)
Definition currentTimeMinsOf (h : Host) : JSNum :=
  add (mul (getHours h (newDate h)) (Some 60)) (getMinutes h (newDate h)).

(** The wall-clock minute of the clock reading, local time. *)
Definition currentMinute (h : Host) : Z :=
  HourFromTime (LocalTime h (now h)) * 60 + MinFromTime (LocalTime h (now h)).

(** [ActiveNow h e]: the date of [e] is the date text [findActiveEvent]
    derives from the clock, which is the UTC calendar date, and the window of
    [e] contains the local wall-clock minute, end points included: the
    minutes read from [startTime] are a number not above it, and the minutes
    read from [endTime] a number not below it. *)
Definition ActiveNow (h : Host) (e : CalendarEvent) : Prop :=
  date e = Some (todayIsoOf h) /\
  JSDouble.le (minutesOf (startTime e)) (JSDouble.ofZ (currentMinute h)) = true /\
  JSDouble.le (JSDouble.ofZ (currentMinute h)) (minutesOf (endTime e)) = true.

(** ** Blocks and occurrences *)

(** The trimmed [RRULE] value of a block, when it has one. *)
Definition rruleOf (block : string) : option string :=
  match exec false reRRule block with
  | Some r => Some (trim (group1 r))
  | None => None
  end.

(** [until] of a rule: its decoded [UNTIL], else the expansion limit. *)
Definition untilOf (h : Host) (expansionLimit : Date) (rrule : string) : Date :=
  match exec true reUntil rrule with
  | Some u => parseIcsDate h (group1 u)
  | None => expansionLimit
  end.

(** An event of block [blockIdx] generated for occurrence [idx] at start [t]. *)
Definition OccurrenceOf (h : Host) (blockIdx : nat) (idx t : Z) (e : CalendarEvent) : Prop :=
  id e = eventId blockIdx idx (Some t) /\ startTime e = hhmm h (Some t).

(** Occurrence keys: block index and occurrence index, in the order in which
    [parseICS] generates occurrences. *)
Definition Key : Type := (nat * Z)%type.

(** Keys in lexicographic order. *)
Definition keyLt (k k' : Key) : Prop :=
  (fst k < fst k')%nat \/ (fst k = fst k' /\ snd k < snd k').

Definition keyLe (k k' : Key) : Prop := k = k' \/ keyLt k k'.

(** [HasKey e k]: the identifier of [e] is the one of occurrence [k], for some
    start instant. *)
Definition HasKey (e : CalendarEvent) (k : Key) : Prop :=
  0 <= snd k /\ exists t, id e = eventId (fst k) (snd k) (Some t).

(** [Indexed events k]: the events carry keys that increase strictly along
    the list and are all below [k]. *)
Inductive Indexed : list CalendarEvent -> Key -> Prop :=
| Indexed_nil (k : Key) : Indexed [] k
| Indexed_snoc (events : list CalendarEvent) (e : CalendarEvent) (k0 k1 k : Key) :
    Indexed events k0 -> keyLe k0 k1 -> HasKey e k1 -> keyLt k1 k ->
    Indexed (events ++ [e]) k.

(** ** Tokens, occurrences and rules *)

(** Days of month [m] (1 = January) of year [y]. *)
Definition DaysInMonth (y m : Z) : Z :=
  if m =? 2 then (if isLeap y then 29 else 28)
  else if (m =? 4) || (m =? 6) || (m =? 9) || (m =? 11) then 30
  else 31.

(** The numbers written in a date-time token [YYYYMMDD] or
    [YYYYMMDDTHHMMSS]; the time fields of a date-only token are 0. *)
Definition tokenField (a b : nat) (w : string) : Z := decimalValue (substring a b w).
Definition tokenYear : string -> Z := tokenField 0 4.
Definition tokenMonth : string -> Z := tokenField 4 6.
Definition tokenDay : string -> Z := tokenField 6 8.
Definition tokenHour : string -> Z := tokenField 9 11.
Definition tokenMinute : string -> Z := tokenField 11 13.
Definition tokenSecond : string -> Z := tokenField 13 15.

(** A token of the shape the block expressions accept whose numbers are a
    date of the calendar, from year 100 on, and a time of the day. *)
Definition calendarToken (w : string) : Prop :=
  lang false reDateTime w /\
  100 <= tokenYear w /\
  1 <= tokenMonth w <= 12 /\
  1 <= tokenDay w <= DaysInMonth (tokenYear w) (tokenMonth w) /\
  tokenHour w < 24 /\ tokenMinute w < 60 /\ tokenSecond w < 60.

(** The UTC calendar date of a time value, as [toISOString] writes it. *)
Definition utcDateText (t : Z) : string :=
  match toISOString (Some t) with
  | Returned iso => part 0 (split "T" iso)
  | _ => ""
  end.

(** The event [addOccurrence] appends for occurrence [idx] of a block when
    the occurrence starts at [t]. *)
Definition occurrenceEvent (h : Host) (blockIdx : nat) (title location : string)
  (duration : JSNum) (idx t : Z) : CalendarEvent :=
  mkEvent (eventId blockIdx idx (Some t)) title
          (hhmm h (Some t))
          (hhmm h (newDateOfValue (add (Some t) duration)))
          [getDay h (Some t)]
          (Some (utcDateText t))
          (Some location)
          (Some true).

(** The decoded [DTSTART] of a block. *)
Definition startOf (h : Host) (block : string) : Date :=
  match exec false reDtStart block with
  | Some m => parseIcsDate h (group1 m)
  | None => NaN
  end.

(** The duration of the occurrences of a block: decoded [DTEND] minus decoded
    [DTSTART], or one hour. *)
Definition durationOf (h : Host) (block : string) : JSNum :=
  match exec false reDtEnd block with
  | Some e => sub (getTime (parseIcsDate h (group1 e))) (getTime (startOf h block))
  | None => Some (60 * 60 * 1000)
  end.

(** The parts of a recurrence rule, with the defaults of [parseICS]. *)
Definition freqOf (rrule : string) : string :=
  match exec true reFreq rrule with
  | Some f => toUpperCase (group1 f)
  | None => "WEEKLY"
  end.

Definition countOf (rrule : string) : Count :=
  match exec true reCount rrule with
  | Some c => Finite (parseInt (group1 c))
  | None => Infinity
  end.

Definition intervalOf (rrule : string) : JSNum :=
  match exec true reInterval rrule with
  | Some i => parseInt (group1 i)
  | None => Some 1
  end.

(** The frequencies the loop advances by. *)
Definition knownFreq (freq : string) : bool :=
  (freq =? "DAILY")%string || (freq =? "WEEKLY")%string
  || (freq =? "MONTHLY")%string || (freq =? "YEARLY")%string.

(** The number of days a daily or weekly rule advances by. *)
Definition stepDays (freq : string) (interval : Z) : Z :=
  if (freq =? "DAILY")%string then interval else 7 * interval.

(** [Emitted h now e]: [e] is the event of an occurrence that had not ended
    at [now]: its end instant is not before [now]. *)
Definition Emitted (h : Host) (now : Date) (e : CalendarEvent) : Prop :=
  exists blockIdx title location duration idx t,
    0 <= idx <= 500 /\
    lt (newDateOfValue (add (Some t) duration)) now = false /\
    e = occurrenceEvent h blockIdx title location duration idx t.

(** The order of the final sort on events that have a date: by the date
    text, then by the start time text, both compared by code units. *)
Definition scheduleOrder (a b : CalendarEvent) : Prop :=
  exists da db,
    date a = Some da /\ date b = Some db /\
    (localeCompare da db < 0 \/
     (da = db /\ localeCompare (startTime a) (startTime b) <= 0)).

(** A text without line breaks. *)
Definition oneLine (s : string) : Prop := allChars dot s = true.

(** ** Storage *)

(** [RoundTrips J a]: the text [JSON.stringify] prints for [a] is not empty
    and [JSON.parse] reads it back as [a]. *)
Definition RoundTrips {A : Type} (J : JSON A) (a : A) : Prop :=
  stringify J a <> "" /\ parse J (stringify J a) = Some a.

(** The sessions with identifier [id] are absent from a list. *)
Definition absent (id : string) (sessions : list Session.t) : Prop :=
  Forall (fun s => Session.id s <> id) sessions.

(** ** The auto-refresh timer *)

(** One run of the timer callback on a host with offset [tza]: the clock
    reads [fst r] at [new Date()] and [snd r] in [filterUpcomingEvents]. *)
Definition runTick (tza : Z) (s : App.State) (r : Z * Z) : App.State :=
  App.tick (mkHost tza (fst r)) (mkHost tza (snd r)) s.

(** Clock readings in the order of time: each run reads [new Date()] first,
    and runs follow one another. *)
Fixpoint inOrder (from : Z) (rs : list (Z * Z)) : Prop :=
  match rs with
  | [] => True
  | r :: rs' => from <= fst r /\ fst r <= snd r /\ inOrder (snd r) rs'
  end.

(** The reading taken in [filterUpcomingEvents] by the last run that fell on
    second 0 of a minute of local time. *)
Fixpoint lastPrune (tza : Z) (rs : list (Z * Z)) : option Z :=
  match rs with
  | [] => None
  | r :: rs' =>
      match lastPrune tza rs' with
      | Some t => Some t
      | None => if SecFromTime (fst r + tza) =? 0 then Some (snd r) else None
      end
  end.

(** ** Concrete hosts, events and feeds *)

(** A host in UTC at 2025-03-10 10:00:00. *)
Definition hostUTC : Host := mkHost 0 1741600800000.

(** A host eleven hours east of UTC (such as Pacific/Noumea) whose local time
    is 2025-03-10 10:00:00, which is 2025-03-09 23:00:00 UTC. *)
Definition hostNoumea : Host := mkHost (11 * msPerHour) 1741561200000.

(** A host in UTC whose clock reads 1970-01-02 00:00:00. *)
Definition hostAtMidnight : Host := mkHost 0 86400000.

(** A host in UTC whose clock passes the end of January 2025 between the two
    readings of a call: 2025-01-31 23:59:59.999 and 2025-02-01 00:00:00.000. *)
Definition hostOverMonthEnd : Host := hostOf 0 1738367999999 1738368000000.

(** An event of one hour that ends at 00:00 on 1970-01-02. *)
Definition eventEndingNow : CalendarEvent :=
  mkEvent "ics-0-0-82800000" "Night shift" "23:00" "00:00" [Some 4]
          (Some "1970-01-02") (Some "No location") (Some true).

(** Two events of one day sharing the boundary 10:00. *)
Definition eventNineToTen (day : string) : CalendarEvent :=
  mkEvent "a" "Planning" "09:00" "10:00" [Some 1] (Some day) (Some "No location") (Some true).

Definition eventTenToEleven (day : string) : CalendarEvent :=
  mkEvent "b" "Review" "10:00" "11:00" [Some 1] (Some day) (Some "No location") (Some true).

(** The feed of the round-trip example. *)
Definition standupFeed : string :=
"BEGIN:VCALENDAR
BEGIN:VEVENT
SUMMARY:Standup
DTSTART:20990101T100000
DTEND:20990101T110000
END:VEVENT
END:VCALENDAR".

(** One evening event. *)
Definition eveningFeed : string :=
"BEGIN:VEVENT
SUMMARY:Dinner
DTSTART:20990101T200000
DTEND:20990101T210000
END:VEVENT".

(** A daily rule that does not advance: [INTERVAL=0], no [COUNT], no [UNTIL],
    starting one day after the clock reading 2025-01-01 00:00:00 UTC. *)
Definition stuckFeed : string :=
"BEGIN:VEVENT
SUMMARY:Stuck
DTSTART:20250102T100000
RRULE:FREQ=DAILY;INTERVAL=0
END:VEVENT".

(** A weekly rule that starts on 2025-04-25, with [UNTIL] far away. *)
Definition lateFeed : string :=
"BEGIN:VEVENT
SUMMARY:Retro
DTSTART:20250425T090000
RRULE:FREQ=WEEKLY;UNTIL=20991231
END:VEVENT".

(** Two blocks, the first recurring weekly, at 2025-01-01 00:00:00 UTC. *)
Definition twoBlockFeed : string :=
"BEGIN:VEVENT
SUMMARY:Sync
DTSTART:20250106T090000
DTEND:20250106T093000
RRULE:FREQ=WEEKLY;INTERVAL=4;UNTIL=20991231
END:VEVENT
BEGIN:VEVENT
SUMMARY:Review
DTSTART:20250106T090000
END:VEVENT".

(** What [parseICS] returns for [twoBlockFeed] at that instant on a host in
    UTC: the third weekly occurrence, on March 3, is past the limit. *)
Definition twoBlockEvents : list CalendarEvent :=
  [ mkEvent "ics-0-0-1736154000000" "Sync" "09:00" "09:30" [Some 1]
            (Some "2025-01-06") (Some "No location") (Some true);
    mkEvent "ics-1-0-1736154000000" "Review" "09:00" "10:00" [Some 1]
            (Some "2025-01-06") (Some "No location") (Some true);
    mkEvent "ics-0-1-1738573200000" "Sync" "09:00" "09:30" [Some 1]
            (Some "2025-02-03") (Some "No location") (Some true) ].

(** A weekly rule with [UNTIL] far beyond the limit, read at 2025-01-01
    00:00:00 UTC: occurrences on January 6, February 3; March 3 is past the
    limit of March 2. *)
Definition farUntilBlock : string :=
"
SUMMARY:Sync
DTSTART:20250106T090000
DTEND:20250106T093000
RRULE:FREQ=WEEKLY;INTERVAL=4;UNTIL=20991231
END:VEVENT".

(** A block with a daily rule of five occurrences, read at
    2025-01-01 00:00:00 UTC, and the events it gives. *)
Definition dailyBlock : string :=
"
SUMMARY:Daily
DTSTART:20250102T100000
RRULE:FREQ=DAILY;COUNT=5
END:VEVENT".

Definition dailyEvents : list CalendarEvent :=
  [ mkEvent "ics-0-0-1735812000000" "Daily" "10:00" "11:00" [Some 4]
            (Some "2025-01-02") (Some "No location") (Some true);
    mkEvent "ics-0-1-1735898400000" "Daily" "10:00" "11:00" [Some 5]
            (Some "2025-01-03") (Some "No location") (Some true);
    mkEvent "ics-0-2-1735984800000" "Daily" "10:00" "11:00" [Some 6]
            (Some "2025-01-04") (Some "No location") (Some true);
    mkEvent "ics-0-3-1736071200000" "Daily" "10:00" "11:00" [Some 0]
            (Some "2025-01-05") (Some "No location") (Some true);
    mkEvent "ics-0-4-1736157600000" "Daily" "10:00" "11:00" [Some 1]
            (Some "2025-01-06") (Some "No location") (Some true) ].

(** A block whose rule has a frequency the loop does not know. *)
Definition hourlyBlock : string :=
"
SUMMARY:Pulse
DTSTART:20250102T100000
RRULE:FREQ=HOURLY
END:VEVENT".

(** A block without a rule. *)
Definition singleBlock : string :=
"
SUMMARY:Standup
DTSTART:20990101T100000
DTEND:20990101T110000
END:VEVENT".

(** A codec for examples: the printer writes the identifiers of the elements
    as a JSON array of strings, and the reader finds, among the lists of the
    example, the one whose text it is given. *)
Definition quote : string := String (ascii_of_nat 34) "".

Definition printIds {A : Type} (key : A -> string) (l : list A) : string :=
  "[" ++ String.concat "," (map (fun a => quote ++ key a ++ quote) l) ++ "]".

Definition exampleCodec {A : Type} (key : A -> string) (known : list (list A))
  : JSON (list A) :=
  mkJSON (list A) (printIds key)
         (fun text => find (fun l => (printIds key l =? text)%string) known).

(** Three sessions, the third a later state of the first, and the codec of
    the examples for lists of them: it prints identifier and title. *)
Definition sessionA : Session.t :=
  Session.mk "session-1" "Planning" 1735689600000 [] None None.

Definition sessionB : Session.t :=
  Session.mk "session-2" "Review" 1735693200000 [] None None.

Definition sessionA' : Session.t :=
  Session.mk "session-1" "Planning, with notes"
             1735689600000
             [TranscriptionSegment.mk "seg-1735689601000" "Hello" user 1735689601000]
             None None.

Definition sessionCodec : JSON (list Session.t) :=
  exampleCodec (fun s => Session.id s ++ " " ++ Session.title s)
               [ []; [sessionA]; [sessionB; sessionA]; [sessionB; sessionA'] ].

Definition scheduleCodec : JSON (list CalendarEvent) :=
  exampleCodec id [twoBlockEvents].

(** A storage that holds [sessions]. *)
Definition storageWith (sessions : list Session.t) : Storage :=
  [(StorageService.STORAGE_KEY, stringify sessionCodec sessions)].

(** A quota on the number of characters of the keys and values stored. *)
Definition sizeOf (st : Storage) : nat :=
  fold_right (fun kv n => (String.length (fst kv) + String.length (snd kv) + n)%nat) O st.

Definition quotaOf (limit : Z) : Quota := fun st => Z.of_nat (sizeOf st) <=? limit.

(** A browser that holds five million characters, and one that is full. *)
Definition roomy : Quota := quotaOf 5000000.
Definition full : Quota := quotaOf 0.

(** The storage after [twoBlockEvents] were saved in an empty one. *)
Definition storedSchedule : Storage :=
  [(SCHEDULE_KEY, stringify scheduleCodec twoBlockEvents)].

(** The state of the App at start. *)
Definition initialState : App.State := App.mkState [] [] [] NaN None None.

(** Three runs of the timer on a host in UTC, the first and the last on a
    full minute. *)
Definition threeTicks : list (Z * Z) :=
  [(1735689600000, 1735689600001); (1735689601000, 1735689601000);
   (1735689660000, 1735689660002)].

(** * Properties *)

(** ** The upcoming-window filter *)

Lemma Subseq_In {A : Type} (l1 l2 : list A) :
  Subseq l1 l2 -> forall x, In x l1 -> In x l2.
Proof.
  induction 1; simpl; intros y Hy; auto.
  destruct Hy as [-> | Hy]; auto.
Qed.

Lemma Subseq_length {A : Type} (l1 l2 : list A) :
  Subseq l1 l2 -> (List.length l1 <= List.length l2)%nat.
Proof. induction 1; simpl; lia. Qed.

Lemma filter_Subseq {A : Type} (p : A -> bool) (l : list A) :
  Subseq (filter p l) l.
Proof.
  induction l as [|x l IH]; simpl; [constructor|].
  destruct (p x); auto.
Qed.

Lemma filter_twice {A : Type} (p : A -> bool) (l : list A) :
  filter p (filter p l) = filter p l.
Proof.
  induction l as [|x l IH]; simpl; [reflexivity|].
  destruct (p x) eqn:Hp; simpl; [rewrite Hp, IH|]; auto.
Qed.

(** What [upcoming] decides, in terms of the event's end instant. *)
Lemma upcoming_spec (h : Host) (e : CalendarEvent) :
  upcoming h (newDate h) e = true <->
  lacksDate e = true \/ exists t, eventEnd h e = Some t /\ now h <= t.
Proof.
  unfold upcoming, newDate.
  destruct (lacksDate e); [intuition|].
  unfold ge, cmp2.
  destruct (eventEnd h e) as [t|]; split.
  - intros H. right. exists t. split; [reflexivity|]. apply Z.geb_le in H. lia.
  - intros [H | (t' & [= <-] & H)]; [discriminate|]. apply Z.geb_le. lia.
  - discriminate.
  - intros [H | (t' & H & _)]; discriminate.
Qed.

(** C10. [filterUpcomingEvents] returns its input with some events deleted:
    the events kept are events of the input, unchanged, in the order of the
    input, none of them repeated and none new. *)
Theorem filterUpcomingEvents_subsequence (h : Host) (schedule : list CalendarEvent) :
  Subseq (filterUpcomingEvents h schedule) schedule.
Proof. unfold filterUpcomingEvents. apply filter_Subseq. Qed.

(** C8. Pruning twice at the same clock reading gives the sequence pruning
    once gives. *)
Theorem filterUpcomingEvents_idempotent (h : Host) (schedule : list CalendarEvent) :
  filterUpcomingEvents h (filterUpcomingEvents h schedule)
  = filterUpcomingEvents h schedule.
Proof. unfold filterUpcomingEvents. apply filter_twice. Qed.


(** ** The decoder *)

(** C4, as the code has it.  A token of fewer than 8 characters, the empty
    token included, decodes to the clock reading. *)
Theorem parseIcsDate_short_token (h : Host) (dateStr : string) :
  (String.length dateStr < 8)%nat -> parseIcsDate h dateStr = newDate h.
Proof.
  intros Hlen. unfold parseIcsDate.
  apply Nat.ltb_lt in Hlen. rewrite Hlen, orb_true_r. reflexivity.
Qed.

Lemma parseIcsDate_short_token_witness :
  parseIcsDate (mkHost 0 1735689600000) "2025" = Some 1735689600000.
Proof. apply (parseIcsDate_short_token (mkHost 0 1735689600000) "2025"). simpl. lia. Defined.

(** C4 as stated fails: a malformed token of 8 characters decodes to Invalid
    Date, not to the clock reading. *)
Lemma parseIcsDate_malformed_long_token :
  parseIcsDate (mkHost 0 1735689600000) "abcdefgh" = NaN /\
  parseIcsDate (mkHost 0 1735689600000) "abcdefgh" <> newDate (mkHost 0 1735689600000).
Proof. split; [vm_compute; reflexivity | vm_compute; discriminate]. Qed.

(** ** Find-active *)

(** [find] returns the first element satisfying the test. *)
Lemma find_first {A : Type} (p : A -> bool) (l : list A) (x : A) :
  find p l = Some x <->
  exists l1 l2, l = (l1 ++ x :: l2)%list /\ p x = true /\ Forall (fun y => p y = false) l1.
Proof.
  induction l as [|a l IH]; simpl.
  - split; [discriminate|]. intros (l1 & l2 & H & _). destruct l1; discriminate.
  - destruct (p a) eqn:Hp.
    + split.
      * intros [= <-]. exists [], l. auto.
      * intros (l1 & l2 & H & Hx & Hl1). destruct l1 as [|b l1]; simpl in H.
        -- congruence.
        -- injection H as <- _. inversion Hl1; congruence.
    + rewrite IH. split.
      * intros (l1 & l2 & -> & Hx & Hl1). exists (a :: l1), l2. auto.
      * intros (l1 & l2 & H & Hx & Hl1). destruct l1 as [|b l1]; simpl in H.
        -- congruence.
        -- injection H as <- ->. inversion Hl1; subst. eauto.
Qed.

Lemma find_none_iff {A : Type} (p : A -> bool) (l : list A) :
  find p l = None <-> Forall (fun y => p y = false) l.
Proof.
  induction l as [|a l IH]; simpl.
  - split; auto.
  - destruct (p a) eqn:Hp.
    + split; [discriminate|]. inversion 1; congruence.
    + rewrite IH. split; [auto|]. inversion 1; auto.
Qed.

(** [findActiveEvent] always returns, and it returns the first event of the
    sequence that passes its test, [null] when none passes. *)
Lemma findActiveEvent_returns_first (h : Host) (schedule : list CalendarEvent) :
  findActiveEvent h schedule
  = Returned (find (activeAt (todayIsoOf h) (currentTimeMinsOf h)) schedule).
Proof. reflexivity. Qed.

(** The test of [findActiveEvent]: the date is the date text compared with,
    and the window read from the two time texts contains the current minute,
    end points included. *)
Lemma activeAt_spec (today : string) (cur : Z) (e : CalendarEvent) :
  activeAt today (Some cur) e = true <->
  date e = Some today /\
  JSDouble.le (minutesOf (startTime e)) (JSDouble.ofZ cur) = true /\
  JSDouble.le (JSDouble.ofZ cur) (minutesOf (endTime e)) = true.
Proof.
  unfold activeAt, JSDouble.ge. cbn [JSDouble.ofJSNum].
  destruct (option_string_eqb (date e) (Some today)) eqn:Hd; cbn [negb].
  - assert (date e = Some today) as Hdate.
    { destruct (date e) as [d|]; cbn [option_string_eqb] in Hd; [|discriminate].
      apply String.eqb_eq in Hd. congruence. }
    rewrite andb_true_iff. tauto.
  - split; [discriminate|]. intros (Hdate & _). rewrite Hdate in Hd.
    cbn [option_string_eqb] in Hd. rewrite String.eqb_refl in Hd. discriminate.
Qed.

(** On the host in UTC the event listed first wins the tie at 10:00. *)
Lemma findActiveEvent_tie_utc :
  localClock hostUTC = Returned "2025-03-10T10:00:00.000Z" /\
  findActiveEvent hostUTC [eventNineToTen "2025-03-10"; eventTenToEleven "2025-03-10"]
  = Returned (Some (eventNineToTen "2025-03-10")).
Proof. split; vm_compute; reflexivity. Qed.

(** C6 on the host east of UTC: it is 10:00 on 2025-03-10 there, both events
    are dated 2025-03-10 and their windows contain 10:00, and no event is
    found, because the date compared with is the UTC date 2025-03-09. *)
Theorem findActiveEvent_misses_local_today :
  localClock hostNoumea = Returned "2025-03-10T10:00:00.000Z" /\
  todayIsoOf hostNoumea = "2025-03-09" /\
  findActiveEvent hostNoumea [eventNineToTen "2025-03-10"; eventTenToEleven "2025-03-10"]
  = Returned None.
Proof. repeat split; vm_compute; reflexivity. Qed.

(** ** Expansion on concrete feeds *)

(** At 2025-01-01 00:00:00 UTC on a host in UTC the example holds. *)
Lemma parseICS_standup_utc :
  parseICS (mkHost 0 1735689600000) standupFeed
  = Returned [ mkEvent "ics-0-0-4070944800000" "Standup" "10:00" "11:00" [Some 4]
                       (Some "2099-01-01") (Some "No location") (Some true) ].
Proof. vm_compute. reflexivity. Qed.

(** C3 on a host eleven hours east of UTC at the same instant: the single
    occurrence starts at 10:00 local time on 2099-01-01 and its [date] is the
    UTC date 2098-12-31. *)
Theorem parseICS_standup_date_is_utc :
  parseICS (mkHost (11 * msPerHour) 1735689600000) standupFeed
  = Returned [ mkEvent "ics-0-0-4070905200000" "Standup" "10:00" "11:00" [Some 4]
                       (Some "2098-12-31") (Some "No location") (Some true) ] /\
  toISOString (Some (LocalTime (mkHost (11 * msPerHour) 1735689600000) 4070905200000))
  = Returned "2099-01-01T10:00:00.000Z".
Proof. split; vm_compute; reflexivity. Qed.

(** C2 on this feed: the block contributes 501 occurrences; the last of them
    has occurrence index 500. *)
Theorem parseICS_stuck_rule_501 :
  option_map (fun l => (List.length l, map id (skipn 500 l)))
             (returned (parseICS (mkHost 0 1735689600000) stuckFeed))
  = Some (501%nat, ["ics-0-500-1735812000000"]).
Proof. vm_compute. reflexivity. Qed.

(** ** Event identifiers *)

Lemma string_of_uint_digits (d : Decimal.uint) :
  allChars isDigit (NilEmpty.string_of_uint d) = true.
Proof. induction d; simpl; auto. Qed.

(** The decimal text of a natural number is made of digits. *)
Lemma toString_digits (z : Z) :
  0 <= z -> allChars isDigit (toString (Some z)) = true.
Proof.
  intros Hz. unfold toString, NilZero.string_of_int.
  destruct z as [|p|p]; [reflexivity| |lia].
  simpl. unfold NilZero.string_of_uint.
  destruct (Pos.to_uint p); try reflexivity; apply string_of_uint_digits.
Qed.

(** The decimal text determines the integer. *)
Lemma toString_inj (z z' : Z) :
  toString (Some z) = toString (Some z') -> z = z'.
Proof.
  unfold toString. intros H.
  assert (forall n, Z.to_int n <> Decimal.Pos Decimal.Nil /\
                    Z.to_int n <> Decimal.Neg Decimal.Nil) as Hnn.
  { intros [|p|p]; simpl; split; try discriminate;
      intros [= E]; exact (Unsigned.to_uint_nonnil p E). }
  apply DecimalZ.to_int_inj.
  assert (Some (Z.to_int z) = Some (Z.to_int z')) as E.
  { rewrite <- (NilZero.isi (Z.to_int z)), <- (NilZero.isi (Z.to_int z')), H;
      try apply Hnn. reflexivity. }
  congruence.
Qed.

(** A run of digits followed by a dash is read off unambiguously. *)
Lemma digits_dash_inj (a a' r r' : string) :
  allChars isDigit a = true -> allChars isDigit a' = true ->
  (a ++ "-" ++ r = a' ++ "-" ++ r')%string -> a = a' /\ r = r'.
Proof.
  revert a'. induction a as [|c a IH]; intros [|c' a'] Ha Ha' E; simpl in *.
  - injection E as ->. auto.
  - injection E as <- _. apply andb_true_iff in Ha' as [Hc _]. discriminate.
  - injection E as -> _. apply andb_true_iff in Ha as [Hc _]. discriminate.
  - injection E as <- E. apply andb_true_iff in Ha as [_ Ha].
    apply andb_true_iff in Ha' as [_ Ha'].
    destruct (IH a' Ha Ha' E) as [-> ->]. auto.
Qed.

(** The identifier determines the block index, the occurrence index and the
    start instant. *)
Lemma eventId_inj (b b' : nat) (i i' : Z) (t t' : Z) :
  0 <= i -> 0 <= i' ->
  eventId b i (Some t) = eventId b' i' (Some t') -> b = b' /\ i = i' /\ t = t'.
Proof.
  intros Hi Hi'. unfold eventId, getTime. intros E.
  injection E as E.
  apply digits_dash_inj in E as [Eb E]; try (apply toString_digits; lia).
  apply digits_dash_inj in E as [Ei Et]; try (apply toString_digits; lia).
  apply toString_inj in Eb, Ei, Et. repeat split; lia.
Qed.

Lemma keyLt_trans (a b c : Key) : keyLt a b -> keyLt b c -> keyLt a c.
Proof. unfold keyLt. destruct a, b, c; simpl. lia. Qed.

Lemma keyLt_le_trans (a b c : Key) : keyLt a b -> keyLe b c -> keyLt a c.
Proof. intros H [<- | H']; [assumption | eapply keyLt_trans; eassumption]. Qed.

Lemma keyLt_irrefl (a : Key) : ~ keyLt a a.
Proof. unfold keyLt. lia. Qed.

Lemma HasKey_inj (e e' : CalendarEvent) (k k' : Key) :
  HasKey e k -> HasKey e' k' -> id e = id e' -> k = k'.
Proof.
  intros (Hk & t & Ht) (Hk' & t' & Ht') E.
  rewrite Ht, Ht' in E. apply eventId_inj in E as (Hb & Hi & _); try assumption.
  destruct k, k'; simpl in *; congruence.
Qed.

Lemma Indexed_weaken (events : list CalendarEvent) (k k' : Key) :
  Indexed events k -> keyLe k k' -> Indexed events k'.
Proof.
  intros H Hle. destruct H as [k | events e k0 k1 k H0 H01 He H1k].
  - constructor.
  - econstructor; eauto using keyLt_le_trans.
Qed.

Lemma Indexed_keys (events : list CalendarEvent) (k : Key) :
  Indexed events k ->
  forall e, In e events -> exists k', HasKey e k' /\ keyLt k' k.
Proof.
  induction 1 as [k | events e k0 k1 k H0 IH H01 He H1k]; intros e' Hin.
  - destruct Hin.
  - apply in_app_or in Hin as [Hin | [<- | []]].
    + destruct (IH e' Hin) as (k' & Hk' & Hlt). exists k'. split; [assumption|].
      eapply keyLt_trans; [|eassumption]. eapply keyLt_le_trans; eassumption.
    + eauto.
Qed.

Lemma Indexed_NoDup (events : list CalendarEvent) (k : Key) :
  Indexed events k -> NoDup (map id events).
Proof.
  induction 1 as [k | events e k0 k1 k H0 IH H01 He H1k]; simpl.
  - constructor.
  - rewrite map_app. simpl. apply NoDup_app_remove_l with (l := []). simpl.
    apply Permutation_NoDup with (l := id e :: map id events).
    + apply Permutation_cons_append.
    + constructor; [|assumption].
      intros Hin. apply in_map_iff in Hin as (e' & Eid & Hin).
      destruct (Indexed_keys _ _ H0 e' Hin) as (k' & Hk' & Hlt).
      assert (k' = k1) as -> by (eapply HasKey_inj; eauto).
      eapply keyLt_irrefl, keyLt_le_trans; eassumption.
Qed.

(** ** The expansion loop *)

Section Expansion.

Variable h : Host.
Variables now expansionLimit : Date.
Variable blockIdx : nat.
Variables title location : string.
Variable duration : JSNum.

Local Abbreviation addOcc := (addOccurrence h now blockIdx title location duration).

(** [addOccurrence] drops the occurrence, appends one event for it, or throws
    on an invalid start. *)
Lemma addOccurrence_cases (occStart : Date) (idx : Z) (events : list CalendarEvent) :
  addOcc occStart idx events = Returned events \/
  (exists t e, occStart = Some t /\ id e = eventId blockIdx idx (Some t) /\
               startTime e = hhmm h (Some t) /\
               addOcc occStart idx events = Returned (events ++ [e])%list) \/
  (occStart = None /\ exists err, addOcc occStart idx events = Thrown err).
Proof.
  unfold addOccurrence.
  destruct (lt _ now); [left; reflexivity | right].
  destruct occStart as [t|]; simpl.
  - left. eexists t, _. repeat split; reflexivity.
  - right. eauto.
Qed.

Lemma addOccurrence_completes (occStart : Date) (idx : Z) (events : list CalendarEvent) :
  Completes (addOcc occStart idx events).
Proof.
  destruct (addOccurrence_cases occStart idx events)
    as [-> | [(t & e & _ & _ & _ & ->) | (_ & err & ->)]]; auto.
Qed.

Variable freq : string.
Variable count : Count.
Variable until : Date.
Variable interval : JSNum.

Local Abbreviation loop := (expand h now expansionLimit blockIdx title location duration
                               freq count until interval).

(** The loop evaluates its condition with [iterations] from 0 to 500 only:
    fuel for the remaining evaluations is enough, and more fuel changes
    nothing. *)
Lemma expand_terminates (fuel : nat) :
  forall (currentStart : Date) (iterations : Z) (events : list CalendarEvent),
    0 <= iterations <= 500 -> (Z.to_nat (501 - iterations) <= fuel)%nat ->
    Completes (loop fuel currentStart iterations events) /\
    forall extra, loop (fuel + extra)%nat currentStart iterations events
                  = loop fuel currentStart iterations events.
Proof.
  induction fuel as [|fuel IH]; intros cur it events Hit Hfuel; [lia|].
  simpl.
  destruct (ltCount it count && le cur until && le cur expansionLimit); [|auto].
  destruct (addOccurrence_cases (newDateOfValue (getTime cur)) it events)
    as [-> | [(t & e & _ & _ & _ & ->) | (_ & err & ->)]]; simpl; auto;
    (destruct (advance h freq interval cur) as [next|]; [|auto]);
    (destruct (500 <? it + 1) eqn:Hbreak; [auto|]);
    apply Z.ltb_ge in Hbreak; apply IH; lia.
Qed.

(** A rule for the loop: a property [Inv] of the number of iterations and the
    events so far that holds at entry, and is kept when an occurrence is
    dropped or appended, holds of what the loop returns at some iteration
    count.  An appended occurrence has the current index and a start instant
    that passed the loop condition. *)
Lemma expand_invariant (Inv : Z -> list CalendarEvent -> Prop) (fuel : nat) :
  (forall it events, 0 <= it <= 500 -> Inv it events -> Inv (it + 1) events) ->
  (forall it events t e,
      0 <= it <= 500 -> Inv it events ->
      ltCount it count = true ->
      le (Some t) until = true -> le (Some t) expansionLimit = true ->
      id e = eventId blockIdx it (Some t) -> startTime e = hhmm h (Some t) ->
      Inv (it + 1) (events ++ [e])%list) ->
  forall (currentStart : Date) (iterations : Z) (events events' : list CalendarEvent),
    0 <= iterations <= 500 -> Inv iterations events ->
    loop fuel currentStart iterations events = Returned events' ->
    exists it', iterations <= it' <= 501 /\ Inv it' events'.
Proof.
  intros Hskip Hadd.
  induction fuel as [|fuel IH]; intros cur it events events' Hit HInv Hrun;
    simpl in Hrun; [discriminate|].
  destruct (ltCount it count && le cur until && le cur expansionLimit) eqn:Hcond.
  - apply andb_true_iff in Hcond as [Hcond Hlimit].
    apply andb_true_iff in Hcond as [Hcount Huntil].
    destruct cur as [t|]; [|discriminate].
    assert (forall events1, Inv (it + 1) events1 ->
              match advance h freq interval (Some t) with
              | Some next =>
                  if 500 <? it + 1 then Returned events1
                  else expand h now expansionLimit blockIdx title location duration
                              freq count until interval fuel next (it + 1) events1
              | None => Returned events1
              end = Returned events' ->
              exists it', it <= it' <= 501 /\ Inv it' events') as Hrest.
    { intros events1 HInv1 Hk.
      destruct (advance h freq interval (Some t)) as [next|].
      - destruct (500 <? it + 1) eqn:Hbreak.
        + injection Hk as <-. exists (it + 1). split; [lia | assumption].
        + apply Z.ltb_ge in Hbreak.
          destruct (IH next (it + 1) events1 events') as (it' & Hit' & HInv');
            try assumption; try lia.
          exists it'. split; [lia | assumption].
      - injection Hk as <-. exists (it + 1). split; [lia | assumption]. }
    destruct (addOccurrence_cases (newDateOfValue (getTime (Some t))) it events)
      as [E | [(t' & e & Ht' & Hid & Hst & E) | (_ & err & E)]];
      rewrite E in Hrun; simpl in Hrun.
    + apply Hrest with (events1 := events); auto.
    + apply Hrest with (events1 := (events ++ [e])%list); [|assumption].
      simpl in Ht'. unfold TimeClip in Ht'.
      destruct (8640000000000000 <? Z.abs t); [discriminate|].
      injection Ht' as <-. eapply Hadd; eassumption.
    + discriminate.
  - injection Hrun as <-. exists it. split; [lia | assumption].
Qed.

End Expansion.

(** ** One block *)

(** What [processBlock] does with a block: nothing, one call of
    [addOccurrence] on the decoded [DTSTART], or the expansion loop from
    iteration 0. *)
Lemma processBlock_cases (fuel : nat) (h : Host) (now expansionLimit : Date)
  (block : string) (blockIdx : nat) (events : list CalendarEvent) :
  processBlock fuel h now expansionLimit block blockIdx events = Returned events \/
  (exists title location duration dtStart1,
      exec false reDtStart block = Some dtStart1 /\
      (rruleOf block = None \/ rruleOf block = Some "") /\
      processBlock fuel h now expansionLimit block blockIdx events
      = addOccurrence h now blockIdx title location duration
                      (parseIcsDate h (group1 dtStart1)) 0 events) \/
  (exists title location duration freq count interval startBase rrule,
      rruleOf block = Some rrule /\ rrule <> "" /\
      processBlock fuel h now expansionLimit block blockIdx events
      = expand h now expansionLimit blockIdx title location duration
               freq count (untilOf h expansionLimit rrule) interval
               fuel startBase 0 events).
Proof.
  unfold processBlock, rruleOf, untilOf.
  destruct (exec false reSummary block) as [summary1|]; [|left; reflexivity].
  destruct (exec false reDtStart block) as [dtStart1|]; [|left; reflexivity].
  right.
  destruct (exec false reRRule block) as [r|].
  - destruct (trim (group1 r)) as [|c rrule] eqn:Hr.
    + left. eexists _, _, _, _. repeat split. right. reflexivity.
    + right. eexists _, _, _, _, _, _, _, _. repeat split. discriminate.
  - left. eexists _, _, _, _. repeat split. left. reflexivity.
Qed.

(** With 501 units of fuel a block is processed to completion, and more fuel
    changes nothing. *)
Lemma processBlock_terminates (h : Host) (now expansionLimit : Date)
  (block : string) (blockIdx : nat) (events : list CalendarEvent) :
  Completes (processBlock loopFuel h now expansionLimit block blockIdx events) /\
  forall extra,
    processBlock (loopFuel + extra) h now expansionLimit block blockIdx events
    = processBlock loopFuel h now expansionLimit block blockIdx events.
Proof.
  unfold processBlock.
  destruct (exec false reSummary block) as [summary1|]; [|auto].
  destruct (exec false reDtStart block) as [dtStart1|]; [|auto].
  destruct (exec false reRRule block) as [r|].
  - destruct (trim (group1 r)) as [|c rrule].
    + split; [apply addOccurrence_completes | reflexivity].
    + apply expand_terminates; unfold loopFuel; simpl; lia.
  - split; [apply addOccurrence_completes | reflexivity].
Qed.

(** A block appends events for its own index only, with increasing occurrence
    indices. *)
Lemma processBlock_Indexed (fuel : nat) (h : Host) (now expansionLimit : Date)
  (block : string) (blockIdx : nat) (events events' : list CalendarEvent) :
  Indexed events (blockIdx, 0) ->
  processBlock fuel h now expansionLimit block blockIdx events = Returned events' ->
  Indexed events' (S blockIdx, 0).
Proof.
  intros HInd Hrun.
  assert (forall it, 0 <= it -> keyLe (blockIdx, it) (S blockIdx, 0)) as Hnext.
  { intros it _. right. left. simpl. lia. }
  destruct (processBlock_cases fuel h now expansionLimit block blockIdx events)
    as [E | [(title & location & duration & dtStart1 & _ & _ & E)
            | (title & location & duration & freq & count & interval & startBase
               & rrule & _ & _ & E)]];
    rewrite E in Hrun.
  - injection Hrun as <-. eapply Indexed_weaken; [eassumption | apply Hnext; lia].
  - destruct (addOccurrence_cases h now blockIdx title location duration
                (parseIcsDate h (group1 dtStart1)) 0 events)
      as [E' | [(t & e & _ & Hid & _ & E') | (_ & err & E')]];
      rewrite E' in Hrun; [| |discriminate]; injection Hrun as <-.
    + eapply Indexed_weaken; [eassumption | apply Hnext; lia].
    + apply Indexed_snoc with (k0 := (blockIdx, 0)) (k1 := (blockIdx, 0)).
      * assumption.
      * left. reflexivity.
      * split; simpl; [lia | eauto].
      * left. simpl. lia.
  - apply expand_invariant
      with (Inv := fun it evs => Indexed evs (blockIdx, it)) in Hrun.
    + destruct Hrun as (it' & Hit' & HInd').
      eapply Indexed_weaken; [eassumption | apply Hnext; lia].
    + intros it evs Hit H. eapply Indexed_weaken; [eassumption|].
      right. right. simpl. lia.
    + intros it evs t e Hit H _ _ _ Hid _.
      apply Indexed_snoc with (k0 := (blockIdx, it)) (k1 := (blockIdx, it)).
      * assumption.
      * left. reflexivity.
      * split; simpl; [lia | eauto].
      * right. simpl. lia.
    + lia.
    + assumption.
Qed.

(** ** The expansion limit *)

Lemma monthOfDay_range (leap d : Z) : 0 <= monthOfDay leap d <= 11.
Proof.
  unfold monthOfDay.
  repeat match goal with |- context [if ?c then _ else _] => destruct c end; lia.
Qed.

Lemma MonthFromTime_range (t : Z) : 0 <= MonthFromTime t <= 11.
Proof. apply monthOfDay_range. Qed.

(** Setting the date to the current date plus or minus some days moves the
    day and keeps the year-month anchoring and the time of the day. *)
Lemma MakeDay_same_month (t n : Z) :
  MakeDay (YearFromTime t) (MonthFromTime t) (DateFromTime t + n) = Day t + n.
Proof.
  pose proof (MonthFromTime_range t) as Hm.
  unfold MakeDay.
  rewrite (Z.div_small (MonthFromTime t) 12), (Z.mod_small (MonthFromTime t) 12) by lia.
  rewrite Z.add_0_r.
  unfold DateFromTime, DayWithinYear, InLeapYear. lia.
Qed.

Lemma setDate_plus_days (h : Host) (t n : Z) :
  setDate h (Some t) (add (getDate h (Some t)) (Some n)) = TimeClip (t + n * msPerDay).
Proof.
  unfold setDate, getDate, getLocal, add, lift2.
  rewrite MakeDay_same_month. f_equal.
  unfold UTC, MakeDate, Day, TimeWithinDay, LocalTime.
  pose proof (Z.div_mod (t + LocalTZA h) msPerDay) as Hdm.
  unfold msPerDay in *. lia.
Qed.

(** Setting the date of one date to the date of another plus some days. *)
Lemma setDate_from (h : Host) (t u n : Z) :
  setDate h (Some u) (add (getDate h (Some t)) (Some n))
  = TimeClip (u + (n + DateFromTime (LocalTime h t) - DateFromTime (LocalTime h u))
                  * msPerDay).
Proof.
  unfold setDate, getDate, getLocal, add, lift2.
  replace (DateFromTime (LocalTime h t) + n)
    with (DateFromTime (LocalTime h u)
          + (n + DateFromTime (LocalTime h t) - DateFromTime (LocalTime h u))) by lia.
  rewrite MakeDay_same_month. f_equal.
  unfold UTC, MakeDate, Day, TimeWithinDay, LocalTime.
  pose proof (Z.div_mod (u + LocalTZA h) msPerDay) as Hdm.
  unfold msPerDay in *. lia.
Qed.

Lemma expansionLimitOf_TimeClip (h : Host) :
  expansionLimitOf h
  = TimeClip (later h
              + (60 + DateFromTime (LocalTime h (now h))
                 - DateFromTime (LocalTime h (later h))) * msPerDay).
Proof. unfold expansionLimitOf, newDate, newDateLater. apply setDate_from. Qed.

(** Two readings of the clock on one local day. *)
Lemma same_day_same_date (t u : Z) : Day t = Day u -> DateFromTime t = DateFromTime u.
Proof.
  intros H. unfold DateFromTime, MonthFromTime, DayWithinYear, InLeapYear, YearFromTime.
  rewrite H. reflexivity.
Qed.

Lemma expansionLimitOf_same_day (h : Host) :
  Day (LocalTime h (now h)) = Day (LocalTime h (later h)) ->
  expansionLimitOf h = TimeClip (later h + 60 * msPerDay).
Proof.
  intros H. rewrite expansionLimitOf_TimeClip, (same_day_same_date _ _ H).
  f_equal. lia.
Qed.

(** The expansion limit is the second clock reading plus 60 days and the
    days by which the day of the month of the first reading exceeds the one
    of the second, or Invalid Date when that is outside the range of time
    values; it is the second reading plus 60 days when both readings fall on
    one local day. *)
Theorem expansionLimitOf_60_days (h : Host) :
  expansionLimitOf h
  = TimeClip (later h
              + (60 + DateFromTime (LocalTime h (now h))
                 - DateFromTime (LocalTime h (later h))) * msPerDay) /\
  (Day (LocalTime h (now h)) = Day (LocalTime h (later h)) ->
   expansionLimitOf h
   = if 8640000000000000 <? Z.abs (later h + 60 * msPerDay) then NaN
     else Some (later h + 60 * msPerDay)).
Proof.
  split; [apply expansionLimitOf_TimeClip|].
  intros H. rewrite (expansionLimitOf_same_day h H). reflexivity.
Qed.

Lemma le_TimeClip (t u : Z) : le (Some t) (TimeClip u) = true -> t <= u.
Proof.
  unfold TimeClip, le, cmp2. destruct (8640000000000000 <? Z.abs u); [discriminate|].
  apply Z.leb_le.
Qed.

(** ** All blocks, and the final sort *)

Lemma forEachBlock_terminates (h : Host) (now expansionLimit : Date)
  (blocks : list string) :
  forall (blockIdx : nat) (events : list CalendarEvent),
    Completes (forEachBlock loopFuel h now expansionLimit blocks blockIdx events) /\
    forall extra,
      forEachBlock (loopFuel + extra) h now expansionLimit blocks blockIdx events
      = forEachBlock loopFuel h now expansionLimit blocks blockIdx events.
Proof.
  induction blocks as [|block rest IH]; intros blockIdx events;
    cbn [forEachBlock]; [auto|].
  destruct (processBlock_terminates h now expansionLimit block blockIdx events)
    as [Hc Hfuel].
  split.
  - destruct Hc as [events1 | err]; cbn [bind]; [apply IH | auto].
  - intros extra. rewrite Hfuel.
    destruct (processBlock loopFuel h now expansionLimit block blockIdx events);
      cbn [bind]; [apply IH | reflexivity | reflexivity].
Qed.

Lemma forEachBlock_Indexed (fuel : nat) (h : Host) (now expansionLimit : Date)
  (blocks : list string) :
  forall (blockIdx : nat) (events events' : list CalendarEvent),
    Indexed events (blockIdx, 0) ->
    forEachBlock fuel h now expansionLimit blocks blockIdx events = Returned events' ->
    Indexed events' ((blockIdx + List.length blocks)%nat, 0).
Proof.
  induction blocks as [|block rest IH]; intros blockIdx events events' HInd Hrun;
    simpl in *.
  - injection Hrun as <-. rewrite Nat.add_0_r. assumption.
  - destruct (processBlock fuel h now expansionLimit block blockIdx events)
      as [events1| |] eqn:Hblock; simpl in Hrun; try discriminate.
    replace (blockIdx + S (List.length rest))%nat
      with (S blockIdx + List.length rest)%nat by lia.
    eapply IH; [|eassumption].
    eapply processBlock_Indexed; eassumption.
Qed.

Lemma insertSorted_Permutation {A : Type} (cmp : A -> A -> Z) (x : A) (l : list A) :
  Permutation (insertSorted cmp x l) (x :: l).
Proof.
  induction l as [|y l IH]; simpl; [reflexivity|].
  destruct (0 <? cmp x y); [|reflexivity].
  rewrite IH. apply perm_swap.
Qed.

(** The sort rearranges the events and does nothing else. *)
Lemma sort_Permutation {A : Type} (cmp : A -> A -> Z) (l : list A) :
  Permutation (sort cmp l) l.
Proof.
  induction l as [|x l IH]; simpl; [reflexivity|].
  rewrite insertSorted_Permutation. auto.
Qed.

(** What [parseICS] returns is a rearrangement of what the blocks appended. *)
Lemma parseICSFuel_returned (fuel : nat) (h : Host) (icsData : string)
  (result : list CalendarEvent) :
  parseICSFuel fuel h icsData = Returned result ->
  exists blocks events,
    forEachBlock fuel h (newDate h) (expansionLimitOf h) blocks 0 [] = Returned events /\
    Permutation result events.
Proof.
  unfold parseICSFuel. intros Hrun.
  match type of Hrun with context [forEachBlock fuel h ?n ?l ?bs 0 []] =>
    destruct (forEachBlock fuel h n l bs 0 []) as [events| |] eqn:Hblocks;
    simpl in Hrun; try discriminate; exists bs, events end.
  injection Hrun as <-. split; [assumption | apply sort_Permutation].
Qed.

(** With the fuel [parseICS] gives its loops the run completes, and more
    fuel gives the same outcome. *)
Lemma parseICS_completes (h : Host) (icsData : string) :
  Completes (parseICS h icsData) /\
  forall extra, parseICSFuel (loopFuel + extra) h icsData = parseICS h icsData.
Proof.
  unfold parseICS, parseICSFuel.
  match goal with |- context [forEachBlock loopFuel h ?n ?l ?bs 0 []] =>
    destruct (forEachBlock_terminates h n l bs 0 []) as [Hc Hfuel] end.
  split.
  - destruct Hc; simpl; auto.
  - intros extra. rewrite Hfuel. reflexivity.
Qed.

(** C9. The identifiers of the events [parseICS] returns are pairwise
    distinct, and each is the identifier text built from a block index, an
    occurrence index within the block and the start instant of the
    occurrence. *)
Theorem parseICS_ids_distinct (h : Host) (icsData : string)
  (result : list CalendarEvent) :
  parseICS h icsData = Returned result ->
  NoDup (map id result) /\
  Forall (fun e => exists blockIdx idx t,
              0 <= idx /\ id e = eventId blockIdx idx (Some t)) result.
Proof.
  intros Hrun. apply parseICSFuel_returned in Hrun as (blocks & events & Hblocks & Hperm).
  apply forEachBlock_Indexed in Hblocks; [|constructor].
  split.
  - eapply Permutation_NoDup.
    + apply Permutation_map. symmetry. eassumption.
    + eapply Indexed_NoDup. eassumption.
  - apply Forall_forall. intros e Hin.
    eapply Permutation_in in Hin; [|eassumption].
    destruct (Indexed_keys _ _ Hblocks e Hin) as ([b i] & (Hi & t & Hid) & _).
    exists b, i, t. auto.
Qed.

Lemma parseICS_ids_distinct_witness :
  NoDup (map id twoBlockEvents) /\
  Forall (fun e => exists blockIdx idx t,
              0 <= idx /\ id e = eventId blockIdx idx (Some t)) twoBlockEvents.
Proof.
  apply (parseICS_ids_distinct (mkHost 0 1735689600000) twoBlockFeed twoBlockEvents).
  vm_compute. reflexivity.
Defined.

(** ** Bounds on what one block contributes *)

(** Every block appends events to the result, at most 501 of them. *)
Lemma processBlock_at_most_501 (fuel : nat) (h : Host) (now expansionLimit : Date)
  (block : string) (blockIdx : nat) (events events' : list CalendarEvent) :
  processBlock fuel h now expansionLimit block blockIdx events = Returned events' ->
  exists new, events' = (events ++ new)%list /\ (List.length new <= 501)%nat.
Proof.
  intros Hrun.
  destruct (processBlock_cases fuel h now expansionLimit block blockIdx events)
    as [E | [(title & location & duration & dtStart1 & _ & _ & E)
            | (title & location & duration & freq & count & interval & startBase
               & rrule & _ & _ & E)]];
    rewrite E in Hrun.
  - injection Hrun as <-. exists []. rewrite app_nil_r. simpl. split; [reflexivity | lia].
  - destruct (addOccurrence_cases h now blockIdx title location duration
                (parseIcsDate h (group1 dtStart1)) 0 events)
      as [E' | [(t & e & _ & _ & _ & E') | (_ & err & E')]];
      rewrite E' in Hrun; [| |discriminate]; injection Hrun as <-.
    + exists []. rewrite app_nil_r. simpl. split; [reflexivity | lia].
    + exists [e]. simpl. split; [reflexivity | lia].
  - apply expand_invariant
      with (Inv := fun it evs => exists new, evs = (events ++ new)%list /\
                                             Z.of_nat (List.length new) <= it) in Hrun.
    + destruct Hrun as (it' & Hit' & new & -> & Hlen). exists new. split; [reflexivity | lia].
    + intros it evs Hit (new & -> & Hlen). exists new. split; [reflexivity | lia].
    + intros it evs t e Hit (new & -> & Hlen) _ _ _ _ _.
      exists (new ++ [e])%list. rewrite app_assoc, length_app. simpl. split; [reflexivity | lia].
    + lia.
    + exists []. rewrite app_nil_r. simpl. split; [reflexivity | lia].
Qed.

(** When both clock readings of the parse fall on one local day, a block
    that carries a recurrence rule only appends occurrences that start no
    later than 60 days after the second reading, and no later than the
    [until] of the rule; the limit of 60 days applies whatever [UNTIL]
    says. *)
Lemma recurring_block_within_ceiling (h : Host) (fuel : nat) (block : string)
  (blockIdx : nat) (rrule : string) (events events' : list CalendarEvent) :
  Day (LocalTime h (now h)) = Day (LocalTime h (later h)) ->
  rruleOf block = Some rrule -> rrule <> "" ->
  processBlock fuel h (newDate h) (expansionLimitOf h) block blockIdx events
  = Returned events' ->
  exists new,
    events' = (events ++ new)%list /\
    Forall (fun e => exists idx t,
                OccurrenceOf h blockIdx idx t e /\
                t <= later h + 60 * msPerDay /\
                le (Some t) (untilOf h (expansionLimitOf h) rrule) = true) new.
Proof.
  intros Hday Hrule Hne Hrun.
  destruct (processBlock_cases fuel h (newDate h) (expansionLimitOf h) block blockIdx events)
    as [E | [(title & location & duration & dtStart1 & _ & Hnone & E)
            | (title & location & duration & freq & count & interval & startBase
               & rrule' & Hrule' & _ & E)]];
    rewrite E in Hrun.
  - injection Hrun as <-. exists []. rewrite app_nil_r. split; [reflexivity | constructor].
  - exfalso. destruct Hnone as [H | H]; rewrite H in Hrule; congruence.
  - assert (rrule' = rrule) as -> by congruence.
    apply expand_invariant
      with (Inv := fun (_ : Z) evs =>
              exists new, evs = (events ++ new)%list /\
                Forall (fun e => exists idx t,
                          OccurrenceOf h blockIdx idx t e /\
                          t <= later h + 60 * msPerDay /\
                          le (Some t) (untilOf h (expansionLimitOf h) rrule) = true) new)
      in Hrun.
    + destruct Hrun as (_ & _ & Hnew). exact Hnew.
    + auto.
    + intros it evs t e Hit (new & -> & Hall) _ Huntil Hlimit Hid Hst.
      exists (new ++ [e])%list. rewrite app_assoc. split; [reflexivity|].
      apply Forall_app. split; [assumption|]. constructor; [|constructor].
      exists it, t. repeat split; try assumption.
      apply le_TimeClip. rewrite <- (expansionLimitOf_same_day h Hday). assumption.
    + lia.
    + exists []. rewrite app_nil_r. split; [reflexivity | constructor].
Qed.

(** C5 on a host whose clock passes the end of a month between the two
    readings of [parseICS], 2025-01-31 23:59:59.999 and 2025-02-01
    00:00:00.000 UTC: the expansion limit is 1 February with its day of the
    month set to 31 + 60, which is 2 May, and the weekly rule yields an
    occurrence on 25 April, more than 60 days after both readings.  On a
    host whose clock stands at the first reading the same feed yields no
    occurrence. *)
Theorem parseICS_limit_after_month_end :
  localClock hostOverMonthEnd = Returned "2025-01-31T23:59:59.999Z" /\
  toISOString (newDateLater hostOverMonthEnd) = Returned "2025-02-01T00:00:00.000Z" /\
  toISOString (expansionLimitOf hostOverMonthEnd) = Returned "2025-05-02T00:00:00.000Z" /\
  parseICS hostOverMonthEnd lateFeed
  = Returned [ mkEvent "ics-0-0-1745571600000" "Retro" "09:00" "10:00" [Some 5]
                       (Some "2025-04-25") (Some "No location") (Some true) ] /\
  later hostOverMonthEnd + 60 * msPerDay < 1745571600000 /\
  parseICS (mkHost 0 (now hostOverMonthEnd)) lateFeed = Returned [].
Proof. repeat split; vm_compute; reflexivity. Qed.

(** ** The calendar of the Date model *)

(** [YearFromDay] is the year of ECMA-262: the one whose first day is the
    last first day of a year not after [d]. *)
Lemma YearFromDay_spec (d : Z) :
  DayFromYear (YearFromDay d) <= d < DayFromYear (YearFromDay d + 1).
Proof.
  unfold YearFromDay.
  set (y0 := 1970 + 400 * d / 146097).
  assert (146097 * (y0 - 1970) <= 400 * d < 146097 * (y0 - 1970) + 146097) as Hy0.
  { unfold y0. pose proof (Z.div_mod (400 * d) 146097).
    pose proof (Z.mod_pos_bound (400 * d) 146097). lia. }
  clearbody y0.
  destruct (d <? DayFromYear y0) eqn:H1; [apply Z.ltb_lt in H1 | apply Z.ltb_ge in H1].
  - replace (y0 - 1 + 1) with y0 by lia. split; [|assumption].
    unfold DayFromYear in *. Z.div_mod_to_equations; lia.
  - destruct (DayFromYear (y0 + 1) <=? d) eqn:H2;
      [apply Z.leb_le in H2 | apply Z.leb_gt in H2].
    + split; [assumption|]. unfold DayFromYear in *. Z.div_mod_to_equations; lia.
    + split; assumption.
Qed.

(** A year has [DaysInYear] days. *)
Lemma DayFromYear_succ (y : Z) : DayFromYear (y + 1) = DayFromYear y + DaysInYear y.
Proof.
  unfold DayFromYear, DaysInYear, isLeap.
  destruct (Z.eqb_spec (y mod 4) 0) as [H4|H4];
    destruct (Z.eqb_spec (y mod 100) 0) as [H100|H100];
    destruct (Z.eqb_spec (y mod 400) 0) as [H400|H400]; cbn [negb andb orb];
    Z.div_mod_to_equations; lia.
Qed.

Lemma DayWithinYear_range (t : Z) :
  0 <= DayWithinYear t < DaysInYear (YearFromTime t).
Proof.
  unfold DayWithinYear, YearFromTime.
  pose proof (YearFromDay_spec (Day t)) as H.
  rewrite DayFromYear_succ in H. lia.
Qed.

(** The day of the month is between 1 and 31. *)
Lemma DateFromTime_range (t : Z) : 1 <= DateFromTime t <= 31.
Proof.
  pose proof (DayWithinYear_range t) as H.
  unfold DateFromTime, MonthFromTime, InLeapYear, DaysInYear in *.
  destruct (isLeap (YearFromTime t)); unfold monthOfDay;
    repeat match goal with
           | |- context [if (?a <? ?b) then _ else _] => destruct (Z.ltb_spec a b)
           end;
    unfold monthStart; simpl; lia.
Qed.

(** ** What the matcher accepts *)

Lemma stripLit_sound (ci : bool) (l : string) :
  forall s s', stripLit ci l s = Some s' ->
  exists w, s = w ++ s' /\ stripLit ci l w = Some "".
Proof.
  induction l as [|a l IH]; intros s s' H; simpl in H.
  - injection H as <-. exists "". auto.
  - destruct s as [|b s]; [discriminate|].
    destruct (if ci then ascii_eqb (toUpperChar a) (toUpperChar b) else ascii_eqb a b) eqn:Hab;
      [|discriminate].
    destruct (IH s s' H) as (w & -> & Hw).
    exists (String b w). split; [reflexivity|]. simpl. rewrite Hab. assumption.
Qed.

Lemma repGo_sound {R : Type} (p : ascii -> bool) (s : string) :
  forall (min : nat) (max : option nat) (k : string -> option R) (x : R),
    repGo p min max s k = Some x ->
    exists w rest, s = w ++ rest /\ lang false (Rep p min max) w /\ k rest = Some x.
Proof.
  induction s as [|c s IH]; intros min max k x H; simpl in H.
  - destruct min; [|discriminate]. exists "", "". simpl. repeat split; auto.
    destruct max; lia.
  - assert (match min with O => k (String c s) | S _ => None end = Some x ->
            exists w rest, String c s = w ++ rest /\ lang false (Rep p min max) w /\
                           k rest = Some x) as Hstop.
    { destruct min; [|discriminate]. intros Hk. exists "", (String c s). simpl.
      repeat split; auto. destruct max; lia. }
    destruct (p c && maxAllows max) eqn:Hc; [|auto].
    destruct (repGo p (Nat.pred min) (maxPred max) s k) as [x'|] eqn:Hgo; [|auto].
    injection H as ->. apply andb_true_iff in Hc as [Hp Hmax].
    destruct (IH _ _ _ _ Hgo) as (w & rest & -> & (Hall & Hmin & Hmx) & Hk).
    exists (String c w), rest. simpl. rewrite Hp, Hall. repeat split; auto; [lia|].
    destruct max as [[|n]|]; simpl in *; try discriminate; auto; lia.
Qed.

Lemma lang_Rep_ci (ci : bool) p min max w : lang false (Rep p min max) w -> lang ci (Rep p min max) w.
Proof. auto. Qed.

Lemma append_assoc (a b c : string) : (a ++ b) ++ c = a ++ (b ++ c).
Proof. induction a; simpl; congruence. Qed.

(** Soundness of the matcher: a successful match consumed a text of the
    language and the continuation succeeded on the rest. *)
Lemma matchAt_sound {R : Type} (ci : bool) (r : re) :
  forall (s : string) (cap : option string) (k : string -> option string -> option R) (x : R),
    matchAt ci r s cap k = Some x ->
    exists w rest cap', s = w ++ rest /\ lang ci r w /\ k rest cap' = Some x.
Proof.
  induction r as [l | p min max | r1 IH1 r2 IH2 | r1 IH1 r2 IH2 | r1 IH1 | r1 IH1];
    intros s cap k x H; simpl in H.
  - destruct (stripLit ci l s) as [s'|] eqn:Hl; [|discriminate].
    destruct (stripLit_sound _ _ _ _ Hl) as (w & -> & Hw). exists w, s', cap. auto.
  - apply repGo_sound in H as (w & rest & -> & Hw & Hk). exists w, rest, cap. auto.
  - apply IH1 in H as (u & rest1 & cap1 & -> & Hu & H).
    apply IH2 in H as (v & rest & cap' & -> & Hv & Hk).
    exists (u ++ v), rest, cap'. rewrite append_assoc. repeat split; auto.
    simpl. eauto.
  - destruct (matchAt ci r1 s cap k) as [x'|] eqn:H1.
    + injection H as ->. apply IH1 in H1 as (w & rest & cap' & -> & Hw & Hk).
      exists w, rest, cap'. simpl. auto.
    + apply IH2 in H as (w & rest & cap' & -> & Hw & Hk).
      exists w, rest, cap'. simpl. auto.
  - destruct (matchAt ci r1 s cap k) as [x'|] eqn:H1.
    + injection H as ->. apply IH1 in H1 as (w & rest & cap' & -> & Hw & Hk).
      exists w, rest, cap'. simpl. auto.
    + exists "", s, cap. simpl. auto.
  - apply IH1 in H as (w & rest & cap' & -> & Hw & Hk). eexists w, rest, _. simpl. eauto.
Qed.

Lemma length_append (a b : string) :
  String.length (a ++ b) = (String.length a + String.length b)%nat.
Proof. induction a; simpl; congruence. Qed.

Lemma substring_prefix (w rest : string) :
  String.substring 0 (String.length w) (w ++ rest) = w.
Proof.
  induction w as [|c w IH]; simpl.
  - destruct rest; reflexivity.
  - rewrite IH. reflexivity.
Qed.

Lemma consumed_append (w rest : string) : consumed (w ++ rest) rest = w.
Proof.
  unfold consumed. rewrite length_append.
  replace (String.length w + String.length rest - String.length rest)%nat
    with (String.length w) by lia.
  apply substring_prefix.
Qed.

(** A capture group records the text its body matched. *)
Lemma matchAt_Cap {R : Type} (ci : bool) (r : re) (s : string) (cap : option string)
  (k : string -> option string -> option R) (x : R) :
  matchAt ci (Cap r) s cap k = Some x ->
  exists w rest, s = w ++ rest /\ lang ci r w /\ k rest (Some w) = Some x.
Proof.
  simpl. intros H. apply matchAt_sound in H as (w & rest & _ & -> & Hw & Hk).
  rewrite consumed_append in Hk. eauto.
Qed.

Lemma exec_sound (ci : bool) (r : re) (s : string) (cap : option string) :
  exec ci r s = Some cap ->
  exists s', matchAt ci r s' None (fun _ c => Some c) = Some cap.
Proof.
  induction s as [|c s IH]; simpl.
  - destruct (matchAt ci r "" None (fun _ c => Some c)) as [cap'|] eqn:H; [|discriminate].
    intros [= <-]. eauto.
  - destruct (matchAt ci r (String c s) None (fun _ c0 => Some c0)) as [cap'|] eqn:H.
    + intros [= <-]. eauto.
    + exact IH.
Qed.

(** A match of a property expression captures a text of the value's
    language. *)
Lemma reProperty_capture (name : string) (value : re) (block : string)
  (cap : option string) :
  exec false (reProperty name value) block = Some cap ->
  exists w, cap = Some w /\ lang false value w.
Proof.
  intros H. apply exec_sound in H as (s & H).
  unfold reProperty, seq in H. cbn [matchAt] in H.
  destruct (stripLit false name s) as [s1|]; [|discriminate].
  match type of H with
  | match ?m with Some _ => _ | None => ?alt end = _ =>
      assert (alt = Some cap \/ m = Some cap) as [H' | H']
        by (destruct m; [right | left]; assumption)
  end.
  - destruct (stripLit false ":" s1) as [s2|]; [|discriminate].
    apply matchAt_sound in H' as (w & rest & _ & -> & Hw & Hk).
    rewrite consumed_append in Hk. injection Hk as <-. eauto.
  - destruct (stripLit false ";" s1) as [s2|]; [|discriminate].
    apply repGo_sound in H' as (w0 & rest0 & _ & _ & H').
    destruct (stripLit false ":" rest0) as [s3|]; [|discriminate].
    apply matchAt_sound in H' as (w & rest & _ & -> & Hw & Hk).
    rewrite consumed_append in Hk. injection Hk as <-. eauto.
Qed.

(** ** Decoding a matched date-time token *)

Lemma ascii_eqb_eq (a b : ascii) : ascii_eqb a b = true -> a = b.
Proof. apply Ascii.eqb_eq. Qed.

Lemma stripLit_exact (l w : string) : stripLit false l w = Some "" -> w = l.
Proof.
  revert w. induction l as [|a l IH]; intros w H; simpl in H.
  - congruence.
  - destruct w as [|b w]; [discriminate|].
    destruct (ascii_eqb a b) eqn:Hab; [|discriminate].
    apply ascii_eqb_eq in Hab as ->. f_equal. auto.
Qed.

(** The ten digits. *)
Lemma isDigit_inv (c : ascii) :
  isDigit c = true ->
  In c ["0"; "1"; "2"; "3"; "4"; "5"; "6"; "7"; "8"; "9"]%char.
Proof.
  destruct c as [[] [] [] [] [] [] [] []]; vm_compute; intros H;
    first [discriminate | tauto].
Qed.

Ltac digit_cases c H :=
  apply isDigit_inv in H;
  repeat (destruct H as [H | H]; [subst c | ]); [.. | destruct H].

Lemma digit_radix10 (c : ascii) :
  isDigit c = true -> exists d, radixDigit 10 c = Some d /\ 0 <= d <= 9.
Proof. intros H. digit_cases c H; vm_compute; eexists; (split; [reflexivity | split; discriminate]). Qed.

Lemma readDigits_digits (s : string) :
  forall (acc : Z) (n : nat),
    allChars isDigit s = true -> 0 <= acc ->
    exists v, readDigits 10 (radixDigit 10) acc n s = (v, (n + String.length s)%nat) /\
              acc * 10 ^ Z.of_nat (String.length s) <= v
              < (acc + 1) * 10 ^ Z.of_nat (String.length s).
Proof.
  induction s as [|c s IH]; intros acc n Hs Hacc;
    cbn [allChars readDigits String.length] in *.
  - exists acc. rewrite Nat.add_0_r. split; [reflexivity | simpl; lia].
  - apply andb_true_iff in Hs as [Hc Hs].
    destruct (digit_radix10 c Hc) as (d & -> & Hd).
    destruct (IH (10 * acc + d) (S n) Hs) as (v & -> & Hv); [lia|].
    exists v. split; [f_equal; lia|].
    rewrite Nat2Z.inj_succ, Z.pow_succ_r by lia.
    pose proof (Z.pow_pos_nonneg 10 (Z.of_nat (String.length s))). nia.
Qed.

(** [parseInt] on a non-empty run of digits is its decimal value. *)
Lemma parseInt_digits (s : string) :
  allChars isDigit s = true -> s <> "" ->
  exists v, parseInt s = Some v /\ 0 <= v < 10 ^ Z.of_nat (String.length s).
Proof.
  intros Hs Hne.
  destruct (readDigits_digits s 0 O Hs) as (v & Hv & Hrange); [lia|].
  assert (parseInt s = match readNumber 10 s with Some v => Some (1 * v) | None => NaN end) as ->.
  { destruct s as [|c s]; [congruence|]. simpl in Hs.
    apply andb_true_iff in Hs as [Hc Hs].
    destruct s as [|c' s].
    - digit_cases c Hc; reflexivity.
    - simpl in Hs. apply andb_true_iff in Hs as [Hc' Hs].
      digit_cases c Hc; try reflexivity.
      digit_cases c' Hc'; reflexivity. }
  unfold readNumber. rewrite Hv.
  destruct s as [|c s]; [congruence|]. cbn [String.length Nat.add] in *.
  exists v. split; [f_equal; lia | lia].
Qed.

Lemma append_empty_r (w : string) : w ++ "" = w.
Proof. induction w as [|c w IH]; simpl; [reflexivity | rewrite IH; reflexivity]. Qed.

Lemma allChars_app (p : ascii -> bool) (a b : string) :
  allChars p (a ++ b) = allChars p a && allChars p b.
Proof. induction a as [|c a IH]; simpl; [reflexivity|]. rewrite IH, andb_assoc. reflexivity. Qed.

Lemma substring_app_l (u rest : string) :
  forall a n, (a + n <= String.length u)%nat ->
  String.substring a n (u ++ rest) = String.substring a n u.
Proof.
  induction u as [|c u IH]; intros a n H; simpl in H.
  - assert (a = 0 /\ n = 0)%nat as [-> ->] by lia. destruct rest; reflexivity.
  - destruct a as [|a]; simpl.
    + destruct n as [|n]; [reflexivity|]. f_equal. apply IH. lia.
    + apply IH. lia.
Qed.

Lemma substring_digits (u : string) :
  forall a n, (a + n <= String.length u)%nat -> allChars isDigit u = true ->
  allChars isDigit (String.substring a n u) = true /\
  String.length (String.substring a n u) = n.
Proof.
  induction u as [|c u IH]; intros a n H Hu; simpl in H.
  - assert (a = 0 /\ n = 0)%nat as [-> ->] by lia. auto.
  - simpl in Hu. apply andb_true_iff in Hu as [Hc Hu].
    destruct a as [|a]; simpl.
    + destruct n as [|n]; [auto|]. destruct (IH O n) as [H1 H2]; [lia | assumption|].
      simpl. rewrite Hc, H1, H2. auto.
    + apply IH; [lia | assumption].
Qed.

(** A field of [n] digits cut out of a token decodes to a number below
    [10 ^ n]. *)
Lemma parseInt_field (u rest : string) (a b : nat) :
  allChars isDigit u = true -> (a < b <= String.length u)%nat ->
  exists v, parseInt (substring a b (u ++ rest)) = Some v /\
            0 <= v < 10 ^ Z.of_nat (b - a).
Proof.
  intros Hu Hab. unfold substring.
  rewrite substring_app_l by lia.
  destruct (substring_digits u a (b - a)) as [Hd Hlen]; [lia | assumption|].
  destruct (parseInt_digits (String.substring a (b - a) u) Hd) as (v & Hv & Hrange).
  - intros E. rewrite E in Hlen. simpl in Hlen. lia.
  - rewrite Hlen in Hrange. eauto.
Qed.

Lemma digit_not (a c : ascii) :
  isDigit a = false -> isDigit c = true -> ascii_eqb a c = false.
Proof.
  intros Ha Hc. destruct (ascii_eqb a c) eqn:E; [|reflexivity].
  apply ascii_eqb_eq in E. congruence.
Qed.

Lemma includes_digits (a : ascii) (u rest : string) :
  isDigit a = false -> allChars isDigit u = true ->
  includes (String a "") (u ++ rest) = includes (String a "") rest.
Proof.
  intros Ha. induction u as [|c u IH]; intros Hu; [reflexivity|].
  simpl in Hu. apply andb_true_iff in Hu as [Hc Hu].
  simpl. rewrite (digit_not a c Ha Hc). apply IH. assumption.
Qed.

Lemma rev_acc_app (u acc : string) : rev_acc u acc = rev_acc u "" ++ acc.
Proof.
  revert acc. induction u as [|c u IH]; intros acc; simpl; [reflexivity|].
  rewrite IH, (IH (String c "")), append_assoc. reflexivity.
Qed.

Lemma rev_rev_acc (u acc : string) : rev (rev_acc u acc) = rev acc ++ u.
Proof.
  revert acc. induction u as [|c u IH]; intros acc; simpl.
  - induction (rev acc); simpl; congruence.
  - rewrite IH. unfold rev. simpl. rewrite (rev_acc_app acc), append_assoc. reflexivity.
Qed.

Lemma split_go_digits (a : ascii) (u rest cur : string) :
  isDigit a = false -> allChars isDigit u = true ->
  split_go (String a "") 0 cur (u ++ rest)
  = split_go (String a "") 0 (rev_acc u cur) rest.
Proof.
  intros Ha. revert cur. induction u as [|c u IH]; intros cur Hu; [reflexivity|].
  simpl in Hu. apply andb_true_iff in Hu as [Hc Hu].
  simpl. rewrite (digit_not a c Ha Hc). apply IH. assumption.
Qed.

Lemma removeFirst_digits (a : ascii) (u rest : string) :
  isDigit a = false -> allChars isDigit u = true ->
  removeFirst (String a "") (u ++ rest) = u ++ removeFirst (String a "") rest.
Proof.
  intros Ha. induction u as [|c u IH]; intros Hu; [reflexivity|].
  simpl in Hu. apply andb_true_iff in Hu as [Hc Hu].
  simpl. rewrite (digit_not a c Ha Hc). f_equal. apply IH. assumption.
Qed.

(** The shape of a text matched by the date-time expression: 8 digits, or 8
    digits, [T], 6 digits and an optional [Z]. *)
Lemma reDateTime_shape (w : string) :
  lang false reDateTime w ->
  exists d8 tail,
    w = d8 ++ tail /\ allChars isDigit d8 = true /\ String.length d8 = 8%nat /\
    (tail = "" \/
     exists d6 z, tail = "T" ++ d6 ++ z /\ allChars isDigit d6 = true /\
                  String.length d6 = 6%nat /\ (z = "" \/ z = "Z")).
Proof.
  unfold reDateTime, seq, exactly. cbn [lang].
  intros [(d8 & v & -> & (H8 & Hmin8 & Hmax8) & t & v2 & -> & Ht
           & d6 & z & -> & (H6 & Hmin6 & Hmax6) & Hz)
         | (H8 & Hmin8 & Hmax8)].
  - exists d8, (t ++ d6 ++ z). repeat split; [assumption | lia |].
    right. apply stripLit_exact in Ht as ->. exists d6, z.
    repeat split; [assumption | lia |].
    destruct Hz as [-> | Hz]; [left; reflexivity | right; apply stripLit_exact; assumption].
  - exists w, "". repeat split; [|assumption | lia | left; reflexivity].
    symmetry. apply append_empty_r.
Qed.

Lemma monthStart_bound (leap m : Z) : 0 <= leap <= 1 -> 0 <= monthStart leap m <= 335.
Proof.
  intros H. unfold monthStart.
  repeat match goal with |- context [if ?c then _ else _] => destruct c end; lia.
Qed.

(** Fields in the ranges two, four or six digits can express give a valid
    date. *)
Lemma newDateOfFields_valid (h : Host) (y m d hh mi s : Z) :
  saneHost h ->
  0 <= y < 10000 -> -1 <= m < 99 -> 0 <= d < 100 ->
  0 <= hh < 100 -> 0 <= mi < 100 -> 0 <= s < 100 ->
  exists t, newDateOfFields h (Some y) (Some m) (Some d) (Some hh) (Some mi) (Some s)
            = Some t.
Proof.
  unfold saneHost. intros Hh Hy Hm Hd Hhh Hmi Hs.
  unfold newDateOfFields, TimeClip.
  set (yr := if (0 <=? y) && (y <=? 99) then 1900 + y else y).
  assert (0 <= yr < 10000) as Hyr.
  { unfold yr. destruct ((0 <=? y) && (y <=? 99)) eqn:E; [|lia].
    apply andb_true_iff in E as [_ E]. apply Z.leb_le in E. lia. }
  clearbody yr.
  match goal with |- exists t, (if ?c then _ else _) = _ => destruct c eqn:E end;
    [|eauto].
  exfalso. apply Z.ltb_lt in E.
  unfold UTC, MakeDate, MakeDay, MakeTime in E.
  pose proof (monthStart_bound (if isLeap (yr + m / 12) then 1 else 0) (m mod 12)) as Hms.
  assert (0 <= (if isLeap (yr + m / 12) then 1 else 0) <= 1) as Hleap
    by (destruct (isLeap _); lia).
  specialize (Hms Hleap).
  set (ms := monthStart _ _) in *. clearbody ms.
  assert (-1 <= m / 12 <= 8) as Hq by (Z.div_mod_to_equations; lia).
  set (q := m / 12) in *. clearbody q.
  assert (-720000 <= DayFromYear (yr + q) <= 2940000) as Hdy
    by (unfold DayFromYear; Z.div_mod_to_equations; lia).
  set (dy := DayFromYear _) in *. clearbody dy.
  unfold msPerDay, msPerHour, msPerMinute, msPerSecond in *. lia.
Qed.

Lemma rev_snoc (c : ascii) (u : string) : rev (String c (rev_acc u "")) = u ++ String c "".
Proof.
  unfold rev. simpl. rewrite rev_acc_app. f_equal.
  change (rev_acc (rev_acc u "") "") with (rev (rev_acc u "")).
  rewrite rev_rev_acc. reflexivity.
Qed.

(** The time part [parseIcsDate] extracts from a token with a time. *)
Lemma timePart_of_token (d8 d6 z : string) :
  allChars isDigit d8 = true -> allChars isDigit d6 = true -> z = "" \/ z = "Z" ->
  removeFirst "Z" (part 1 (split "T" (d8 ++ "T" ++ d6 ++ z))) = d6.
Proof.
  intros H8 H6 Hz. unfold split.
  rewrite (split_go_digits "T" d8 _ "") by (assumption || reflexivity).
  cbn [append split_go stripPrefix ascii_eqb Ascii.eqb Bool.eqb String.length Nat.sub part nth].
  rewrite (split_go_digits "T" d6 z "") by (assumption || reflexivity).
  destruct Hz as [-> | ->]; cbn [split_go stripPrefix ascii_eqb Ascii.eqb Bool.eqb nth].
  - rewrite rev_rev_acc. simpl. rewrite <- (append_empty_r d6) at 1.
    rewrite removeFirst_digits by (assumption || reflexivity). apply append_empty_r.
  - rewrite rev_snoc, removeFirst_digits by (assumption || reflexivity).
    simpl. apply append_empty_r.
Qed.

(** A text matched by the date-time expression decodes to a valid date. *)
Lemma parseIcsDate_token (h : Host) (w : string) :
  saneHost h -> lang false reDateTime w -> exists t, parseIcsDate h w = Some t.
Proof.
  intros Hh Hw.
  destruct (reDateTime_shape w Hw) as (d8 & tail & -> & H8 & Hlen & Htail).
  unfold parseIcsDate.
  assert ((d8 ++ tail =? "")%string || (String.length (d8 ++ tail) <? 8)%nat = false) as ->.
  { apply orb_false_iff. split.
    - destruct d8; [discriminate | reflexivity].
    - apply Nat.ltb_ge. rewrite length_append. lia. }
  destruct (parseInt_field d8 tail 0 4 H8) as (y & -> & Hy); [lia|].
  destruct (parseInt_field d8 tail 4 6 H8) as (m & -> & Hm); [lia|].
  destruct (parseInt_field d8 tail 6 8 H8) as (d & -> & Hd); [lia|].
  rewrite (includes_digits "T" d8 tail) by (assumption || reflexivity).
  cbn [sub lift2]. simpl Z.of_nat in *.
  destruct Htail as [-> | (d6 & z & -> & H6 & Hlen6 & Hz)].
  - cbn [includes stripPrefix]. apply newDateOfFields_valid; try assumption; lia.
  - rewrite (timePart_of_token d8 d6 z H8 H6 Hz).
    replace (includes "T" ("T" ++ d6 ++ z)) with true by reflexivity.
    rewrite <- (append_empty_r d6).
    destruct (parseInt_field d6 "" 0 2 H6) as (hh & -> & Hhh); [lia|].
    destruct (parseInt_field d6 "" 2 4 H6) as (mi & -> & Hmi); [lia|].
    destruct (parseInt_field d6 "" 4 6 H6) as (s & -> & Hs); [lia|].
    cbn [or_zero]. simpl Z.of_nat in *.
    apply newDateOfFields_valid; try assumption; lia.
Qed.

(** ** [parseICS] does not throw *)

Lemma TimeClip_clipped (t : Z) : clipped (TimeClip t).
Proof.
  unfold clipped, TimeClip, getTime.
  destruct (8640000000000000 <? Z.abs t) eqn:E; simpl; [reflexivity|].
  unfold TimeClip. rewrite E. reflexivity.
Qed.

Lemma NaN_clipped : clipped NaN.
Proof. reflexivity. Qed.

#[local] Hint Resolve TimeClip_clipped NaN_clipped : core.

Lemma advance_clipped (h : Host) (freq : string) (interval : JSNum)
  (currentStart next : Date) :
  advance h freq interval currentStart = Some next -> clipped next.
Proof.
  unfold advance, setDate, setMonth, setFullYear.
  repeat match goal with |- context [if ?c then _ else _] => destruct c end;
    intros [= <-];
    repeat match goal with |- context [match ?x with _ => _ end] => destruct x end;
    auto.
Qed.

Lemma addOccurrence_returns (h : Host) (now : Date) (blockIdx : nat)
  (title location : string) (duration : JSNum) (t idx : Z) (events : list CalendarEvent) :
  exists events',
    addOccurrence h now blockIdx title location duration (Some t) idx events
    = Returned events'.
Proof.
  destruct (addOccurrence_cases h now blockIdx title location duration (Some t) idx events)
    as [E | [(t' & e & _ & _ & _ & E) | (E & _)]]; [eauto | eauto | discriminate].
Qed.

Lemma expand_returns (h : Host) (now expansionLimit : Date) (blockIdx : nat)
  (title location : string) (duration : JSNum) (freq : string) (count : Count)
  (until : Date) (interval : JSNum) (fuel : nat) :
  forall (currentStart : Date) (iterations : Z) (events : list CalendarEvent),
    clipped currentStart ->
    0 <= iterations <= 500 -> (Z.to_nat (501 - iterations) <= fuel)%nat ->
    exists events',
      expand h now expansionLimit blockIdx title location duration
             freq count until interval fuel currentStart iterations events
      = Returned events'.
Proof.
  induction fuel as [|fuel IH]; intros cur it events Hcur Hit Hfuel; [lia|].
  cbn [expand].
  destruct (ltCount it count && le cur until && le cur expansionLimit) eqn:Hcond;
    [|eauto].
  apply andb_true_iff in Hcond as [_ Hlimit].
  destruct cur as [t|]; [|discriminate].
  rewrite Hcur.
  destruct (addOccurrence_returns h now blockIdx title location duration t it events)
    as (events1 & ->).
  cbn [bind].
  destruct (advance h freq interval (Some t)) as [next|] eqn:Hadv; [|eauto].
  destruct (500 <? it + 1) eqn:Hbreak; [eauto|].
  apply Z.ltb_ge in Hbreak. apply IH; [|lia|lia].
  eapply advance_clipped. eassumption.
Qed.

Lemma parseIcsDate_clipped (h : Host) (dateStr : string) (t : Z) :
  parseIcsDate h dateStr = Some t -> clipped (TimeClip t).
Proof. auto. Qed.

Lemma processBlock_returns (h : Host) (now expansionLimit : Date) (block : string)
  (blockIdx : nat) (events : list CalendarEvent) :
  saneHost h ->
  exists events',
    processBlock loopFuel h now expansionLimit block blockIdx events = Returned events'.
Proof.
  intros Hh. unfold processBlock.
  destruct (exec false reSummary block) as [summary1|]; [|eauto].
  destruct (exec false reDtStart block) as [dtStart1|] eqn:Hstart; [|eauto].
  apply reProperty_capture in Hstart as (w & -> & Hw).
  destruct (parseIcsDate_token h w Hh Hw) as (t & Ht). cbn [group1]. rewrite Ht.
  destruct (exec false reRRule block) as [r|].
  - destruct (trim (group1 r)) as [|c rrule].
    + apply addOccurrence_returns.
    + apply expand_returns; [apply TimeClip_clipped | lia | unfold loopFuel; simpl; lia].
  - apply addOccurrence_returns.
Qed.

Lemma forEachBlock_returns (h : Host) (now expansionLimit : Date) (blocks : list string) :
  saneHost h ->
  forall (blockIdx : nat) (events : list CalendarEvent),
  exists events',
    forEachBlock loopFuel h now expansionLimit blocks blockIdx events = Returned events'.
Proof.
  intros Hh. induction blocks as [|block rest IH]; intros blockIdx events;
    cbn [forEachBlock]; [eauto|].
  destruct (processBlock_returns h now expansionLimit block blockIdx events Hh)
    as (events1 & ->).
  cbn [bind]. apply IH.
Qed.

(** On a sane host [parseICS] returns a list of events for every input: it
    does not throw. *)
Lemma parseICS_returns (h : Host) (icsData : string) :
  saneHost h -> exists events, parseICS h icsData = Returned events.
Proof.
  intros Hh. unfold parseICS, parseICSFuel.
  match goal with |- context [forEachBlock loopFuel h ?n ?l ?bs 0 []] =>
    destruct (forEachBlock_returns h n l bs Hh 0%nat []) as (events & ->) end.
  cbn [bind]. eauto.
Qed.

(** C7. [parseICS] terminates on every input: each expansion loop stops
    within 501 evaluations of its condition whatever the rule is, a
    non-advancing interval or an unbounded count included, so the run
    completes with the fuel [parseICS] gives its loops and any larger amount
    of fuel gives the same outcome; and on a host whose local time is within
    a day of UTC the outcome is a returned list of events. *)
Theorem parseICS_terminates (h : Host) (icsData : string) :
  Completes (parseICS h icsData) /\
  (forall extra, parseICSFuel (loopFuel + extra) h icsData = parseICS h icsData) /\
  (saneHost h -> exists events, parseICS h icsData = Returned events).
Proof.
  destruct (parseICS_completes h icsData) as [Hc Hfuel].
  repeat split; [assumption | assumption | apply parseICS_returns].
Qed.

(** ** Find-active, in full *)

Lemma activeAt_ActiveNow (h : Host) (e : CalendarEvent) :
  activeAt (todayIsoOf h) (currentTimeMinsOf h) e = true <-> ActiveNow h e.
Proof. apply activeAt_spec. Qed.

(** [findActiveEvent] returns an event exactly when that event is the first of
    the sequence that is active now, and [null] exactly when no event is. *)
Theorem findActiveEvent_first_match (h : Host) (schedule : list CalendarEvent) :
  (forall e,
      findActiveEvent h schedule = Returned (Some e) <->
      exists before after,
        schedule = (before ++ e :: after)%list /\ ActiveNow h e /\
        Forall (fun e' => ~ ActiveNow h e') before) /\
  (findActiveEvent h schedule = Returned None <->
   Forall (fun e' => ~ ActiveNow h e') schedule).
Proof.
  rewrite findActiveEvent_returns_first.
  assert (forall l, Forall (fun y => activeAt (todayIsoOf h) (currentTimeMinsOf h) y = false) l
                    <-> Forall (fun e' => ~ ActiveNow h e') l) as Hall.
  { intros l. rewrite !Forall_forall. split; intros H e' Hin.
    - rewrite <- activeAt_ActiveNow. rewrite (H e' Hin). discriminate.
    - apply not_true_is_false. rewrite activeAt_ActiveNow. auto. }
  split.
  - intros e. split.
    + intros [= H]. apply find_first in H as (l1 & l2 & -> & He & Hl1).
      exists l1, l2. rewrite <- activeAt_ActiveNow, <- Hall. auto.
    + intros (l1 & l2 & -> & He & Hl1). f_equal. apply find_first.
      exists l1, l2. rewrite activeAt_ActiveNow, Hall. auto.
  - split.
    + intros [= H]. apply Hall, find_none_iff. assumption.
    + intros H. f_equal. apply find_none_iff, Hall. assumption.
Qed.

(** ** Binary64 arithmetic on integers *)

Lemma Qred_inject_Z (z : Z) : Qred (inject_Z z) = inject_Z z.
Proof.
  unfold Qred, inject_Z. cbn [Qnum Qden].
  pose proof (Z.ggcd_correct_divisors z 1) as H.
  pose proof (Z.ggcd_gcd z 1) as Hg.
  destruct (Z.ggcd z 1) as [g [aa bb]]. cbn [fst snd] in *.
  rewrite Z.gcd_1_r in Hg. subst g. destruct H as [H1 H2].
  rewrite !Z.mul_1_l in *. subst. reflexivity.
Qed.

Lemma Qred_scaled (z k : Z) :
  0 < k -> Qred (Qmake (z * k) (Z.to_pos k)) = inject_Z z.
Proof.
  intros Hk. rewrite <- Qred_inject_Z. apply Qred_complete.
  unfold Qeq, inject_Z. cbn [Qnum Qden]. rewrite Z2Pos.id by assumption. lia.
Qed.

Lemma sign_abs (z : Z) : (if z <? 0 then -1 else 1) * Z.abs z = z.
Proof. destruct (Z.ltb_spec z 0); lia. Qed.

(** The integers up to [2 ^ 53] are binary64 numbers. *)
Lemma round_small (z : Z) :
  Z.abs z <= 2 ^ 53 -> JSDouble.round (inject_Z z) = JSDouble.Finite (inject_Z z).
Proof.
  intros Hz. unfold JSDouble.round. cbn [Qnum Qden inject_Z].
  destruct (Z.eqb_spec z 0) as [-> | Hnz]; [reflexivity|].
  change (Z.log2 1) with 0. rewrite Z.sub_0_r.
  assert (0 < Z.abs z) as Ha by lia.
  pose proof (Z.log2_spec (Z.abs z) Ha) as [Hlo Hhi].
  pose proof (Z.log2_nonneg (Z.abs z)) as He.
  assert (Z.log2 (Z.abs z) <= 53) as He53.
  { change 53 with (Z.log2 (2 ^ 53)). apply Z.log2_le_mono. assumption. }
  pose proof (sign_abs z) as Hs.
  remember (Z.log2 (Z.abs z)) as e eqn:Ee. clear Ee.
  remember (Z.abs z) as a eqn:Ea. clear Ea.
  remember (if z <? 0 then -1 else 1) as s eqn:Es. clear Es.
  destruct (Z.leb_spec 0 e) as [_ | ?]; [|lia].
  destruct (Z.leb_spec (1 * 2 ^ e) a) as [_ | ?]; [|lia].
  assert (Z.max (e - 52) (-1074) = e - 52) as -> by lia.
  destruct (Z.leb_spec 0 (e - 52)) as [Hp | Hp].
  - assert (e = 52 \/ e = 53) as [E | E] by lia; subst e.
    + change (52 - 52) with 0. change (2 ^ 0) with 1. rewrite !Z.mul_1_r.
      rewrite Z.div_1_r, Z.mod_1_r.
      change (1 <? 2 * 0) with false. change (1 =? 2 * 0) with false. cbn [orb andb].
      destruct (Z.leb_spec (2 ^ 1024) a) as [H | _].
      * exfalso. assert (2 ^ 53 < 2 ^ 1024) by (apply Z.pow_lt_mono_r; lia). lia.
      * rewrite Hs. reflexivity.
    + assert (a = 2 ^ 53) as -> by (change (Z.succ 53) with 54 in Hhi; lia).
      change (53 - 52) with 1. change (2 ^ 1) with 2.
      replace (2 ^ 53 / (1 * 2)) with (2 ^ 52) by reflexivity.
      replace (2 ^ 53 mod (1 * 2)) with 0 by reflexivity.
      change (1 * 2 <? 2 * 0) with false. change (1 * 2 =? 2 * 0) with false.
      cbn [orb andb].
      replace (2 ^ 1024 <=? 2 ^ 52 * 2) with false by reflexivity.
      f_equal. f_equal. rewrite <- Hs. rewrite <- Z.mul_assoc. reflexivity.
  - rewrite Z.div_1_r, Z.mod_1_r.
    change (1 <? 2 * 0) with false. change (1 =? 2 * 0) with false. cbn [orb andb].
    f_equal. rewrite Z.mul_assoc, Hs. apply Qred_scaled.
    apply Z.pow_pos_nonneg; lia.
Qed.

(** An integer above [2 ^ 53] is rounded to an integer that is not below
    [2 ^ 53], or overflows. *)
Lemma round_large (z : Z) :
  2 ^ 53 < z -> atLeast (2 ^ 53) (JSDouble.round (inject_Z z)).
Proof.
  intros Hz. unfold JSDouble.round. cbn [Qnum Qden inject_Z].
  assert (0 < 2 ^ 53) as H53 by reflexivity.
  destruct (Z.eqb_spec z 0) as [-> | Hnz]; [lia|].
  change (Z.log2 1) with 0. rewrite Z.sub_0_r.
  rewrite (Z.abs_eq z) by lia.
  assert (0 < z) as Ha by lia.
  pose proof (Z.log2_spec z Ha) as [Hlo Hhi].
  assert (53 <= Z.log2 z) as He53.
  { change 53 with (Z.log2 (2 ^ 53)). apply Z.log2_le_mono. lia. }
  remember (Z.log2 z) as e eqn:Ee. clear Ee.
  destruct (Z.leb_spec 0 e) as [_ | ?]; [|lia].
  destruct (Z.leb_spec (1 * 2 ^ e) z) as [_ | ?]; [|lia].
  assert (Z.max (e - 52) (-1074) = e - 52) as -> by lia.
  destruct (Z.leb_spec 0 (e - 52)) as [_ | ?]; [|lia].
  destruct (Z.ltb_spec z 0) as [? | _]; [lia|].
  rewrite !Z.mul_1_l.
  set (p := e - 52) in *.
  assert (2 <= 2 ^ p) as Hp.
  { change 2 with (2 ^ 1) at 1. apply Z.pow_le_mono_r; lia. }
  assert (2 ^ e = 2 ^ 52 * 2 ^ p) as Hsplit.
  { unfold p. rewrite <- Z.pow_add_r by lia. f_equal. lia. }
  assert (2 ^ 52 <= z / 2 ^ p) as Hm.
  { apply Z.div_le_lower_bound; lia. }
  remember (z / 2 ^ p) as m eqn:Em. clear Em.
  remember (2 ^ p) as k eqn:Ek. clear Ek.
  match goal with
  | |- atLeast _ (if ?c then _ else _) => destruct c
  end; [left; reflexivity|].
  right. eexists. split; [reflexivity|].
  assert (0 < 2 ^ 52) by reflexivity.
  change (2 ^ 53) with (2 ^ 52 * 2).
  match goal with
  | |- _ <= (if ?c then _ else _) * _ => destruct c
  end; nia.
Qed.

Lemma ofZ_small (z : Z) :
  Z.abs z <= 2 ^ 53 -> JSDouble.ofZ z = JSDouble.Finite (inject_Z z).
Proof. apply round_small. Qed.

(** Rounding is monotone on the integers: it does not go below an integer
    up to [2 ^ 53] that the argument is not below. *)
Lemma ofZ_atLeast (c z : Z) :
  Z.abs c <= 2 ^ 53 -> c <= z -> atLeast c (JSDouble.ofZ z).
Proof.
  intros Hc Hz. destruct (Z.le_gt_cases z (2 ^ 53)) as [H | H].
  - right. exists z. split; [apply ofZ_small; lia | assumption].
  - destruct (round_large z H) as [E | (r & E & Hr)]; [left; exact E|].
    right. exists r. split; [exact E | lia].
Qed.

Lemma add_integers (a b : Z) :
  JSDouble.add (JSDouble.Finite (inject_Z a)) (JSDouble.Finite (inject_Z b))
  = JSDouble.ofZ (a + b).
Proof.
  unfold JSDouble.add, JSDouble.ofZ, Qplus, inject_Z. cbn [Qnum Qden Pos.mul].
  rewrite !Z.mul_1_r. reflexivity.
Qed.

Lemma sub_integers (a b : Z) :
  JSDouble.sub (JSDouble.Finite (inject_Z a)) (JSDouble.Finite (inject_Z b))
  = JSDouble.ofZ (a - b).
Proof.
  unfold JSDouble.sub, JSDouble.opp, JSDouble.add, JSDouble.ofZ, Qplus, Qopp, inject_Z.
  cbn [Qnum Qden Pos.mul]. rewrite !Z.mul_1_r. reflexivity.
Qed.

Lemma mul_integers (a b : Z) :
  JSDouble.mul (JSDouble.Finite (inject_Z a)) (JSDouble.Finite (inject_Z b))
  = JSDouble.ofZ (a * b).
Proof. reflexivity. Qed.

Lemma truncate_integer (z : Z) : JSDouble.truncate (JSDouble.Finite (inject_Z z)) = Some z.
Proof. unfold JSDouble.truncate, inject_Z. cbn [Qnum Qden]. rewrite Z.quot_1_r. reflexivity. Qed.

Lemma le_integers (a b : Z) :
  JSDouble.le (JSDouble.Finite (inject_Z a)) (JSDouble.Finite (inject_Z b)) = (a <=? b).
Proof.
  unfold JSDouble.le, Qle_bool, inject_Z. cbn [Qnum Qden]. rewrite !Z.mul_1_r. reflexivity.
Qed.

(** ** Binary64 arithmetic on integers that may be large

    [approx K x x']: the Number [x'] computed for the integer [x] is [x]
    itself when [x] is at most [K], and in any case an integer, or
    [+Infinity], that is not below [x] and [K]. *)

Lemma approx_ofZ (K x : Z) :
  - 2 ^ 53 <= x -> - 2 ^ 53 <= K <= 2 ^ 53 -> approx K x (JSDouble.ofZ x).
Proof.
  intros Hx HK. split.
  - intros H. apply ofZ_small. lia.
  - apply ofZ_atLeast; lia.
Qed.

Lemma approx_exact (K x : Z) : approx K x (JSDouble.Finite (inject_Z x)).
Proof. split; [reflexivity|]. right. exists x. split; [reflexivity | lia]. Qed.

(** A Number that approximates [x] is [+Infinity], and then [x] is above
    [K], or an integer, whose Number value approximates [x] as well. *)
Lemma approx_cases (K x : Z) (x' : JSDouble.double) :
  - 2 ^ 53 <= x -> - 2 ^ 53 <= K <= 2 ^ 53 -> approx K x x' ->
  (x' = JSDouble.Infinity false /\ K < x) \/
  (exists q, x' = JSDouble.Finite (inject_Z q) /\ approx K x (JSDouble.ofZ q) /\
             Z.min x K <= q /\ (x <= K -> q = x)).
Proof.
  intros Hx HK [Hex Hat].
  destruct Hat as [E | (q & E & Hq)].
  - left. split; [exact E|]. destruct (Z.le_gt_cases x K) as [H | H]; [|lia].
    rewrite (Hex H) in E. discriminate.
  - right. exists q. split; [exact E|].
    assert (x <= K -> q = x) as Hqx.
    { intros H. rewrite (Hex H) in E. injection E as E. lia. }
    split; [|split; assumption]. split.
    + intros H. rewrite (Hqx H). apply ofZ_small. lia.
    + apply ofZ_atLeast; lia.
Qed.

Lemma approx_add (Ka Kb K La Lb a b : Z) (a' b' : JSDouble.double) :
  approx Ka a a' -> approx Kb b b' ->
  - La <= a -> - Lb <= b -> 0 <= La -> 0 <= Lb ->
  K <= Ka - Lb -> K <= Kb - La -> K <= Ka + Kb -> K <= 2 ^ 53 ->
  La + Lb <= 2 ^ 53 -> - 2 ^ 53 <= K ->
  approx K (a + b) (JSDouble.add a' b').
Proof.
  intros [Hae Haa] [Hbe Hba] Ha Hb HLa HLb H1 H2 H3 H4 H5 H6. split.
  - intros H. rewrite Hae, Hbe by lia. rewrite add_integers. apply ofZ_small. lia.
  - destruct Haa as [-> | (qa & -> & Hqa)]; destruct Hba as [-> | (qb & -> & Hqb)];
      try (left; reflexivity).
    rewrite add_integers. apply ofZ_atLeast; lia.
Qed.

Lemma approx_mul (Ka K La k a : Z) (a' : JSDouble.double) :
  approx Ka a a' -> - La <= a -> 0 <= La -> 0 < k ->
  K <= Ka * k -> K <= 2 ^ 53 -> La * k <= 2 ^ 53 -> - 2 ^ 53 <= K ->
  approx K (a * k) (JSDouble.mul a' (JSDouble.Finite (inject_Z k))).
Proof.
  intros [Hae Haa] Ha HLa Hk H1 H2 H3 H4. split.
  - intros H. assert (a <= Ka) as Hle by nia.
    rewrite (Hae Hle), mul_integers. apply ofZ_small. nia.
  - destruct Haa as [-> | (qa & -> & Hqa)].
    + left. unfold JSDouble.mul, inject_Z. cbn [Qnum xorb].
      destruct (Z.eqb_spec k 0) as [? | _]; [lia|].
      destruct (Z.ltb_spec k 0) as [? | _]; [lia|]. reflexivity.
    + rewrite mul_integers. apply ofZ_atLeast; [nia|].
      destruct (Z.le_gt_cases a Ka); nia.
Qed.

(** ** The Date constructor on fields that are not negative

    Read from numerals, the fields of [new Date(y, m - 1, d, h, min)] are
    integers that are not negative, of any size.  The constructor then gives
    the date that exact arithmetic gives: where a sum or a product exceeds
    the integers binary64 holds exactly, the result is beyond the range of
    time values in both. *)

Lemma monthStart_range (leap m : Z) : 0 <= leap <= 1 -> 0 <= monthStart leap m <= 335.
Proof.
  intros Hl. unfold monthStart.
  repeat match goal with |- context [if ?c then _ else _] => destruct c end; lia.
Qed.

Lemma leap_range (y : Z) : 0 <= (if isLeap y then 1 else 0) <= 1.
Proof. destruct (isLeap y); lia. Qed.

Lemma DayFromYear_lower (y : Z) : 365 * (y - 1970) - 500 <= DayFromYear y \/ y < 0.
Proof.
  destruct (Z.lt_ge_cases y 0) as [H | H]; [right; assumption | left].
  unfold DayFromYear. Z.div_mod_to_equations. lia.
Qed.

Lemma ofZ_const (z : Z) :
  Z.abs z <= 2 ^ 53 -> JSDouble.ofZ z = JSDouble.Finite (inject_Z z).
Proof. apply ofZ_small. Qed.

Lemma truncate_zero : JSDouble.truncate JSDouble.zero = Some 0.
Proof. reflexivity. Qed.

Lemma MakeTimeN_approx (hh mi : Z) (h' m' : JSDouble.double) :
  0 <= hh -> 0 <= mi -> approx (2 ^ 53) hh h' -> approx (2 ^ 53) mi m' ->
  (MakeTimeN h' m' JSDouble.zero JSDouble.zero = JSDouble.NaN /\
   2 ^ 53 < MakeTime hh mi 0 0) \/
  approx (2 ^ 53) (MakeTime hh mi 0 0) (MakeTimeN h' m' JSDouble.zero JSDouble.zero).
Proof.
  intros Hh Hm Ah Am.
  assert (0 < 2 ^ 53) as H53 by reflexivity.
  apply approx_cases in Ah as [[-> Hbig] | (qh & -> & Ah & _)]; try lia.
  { left. split; [reflexivity|]. unfold MakeTime, msPerHour, msPerMinute, msPerSecond. lia. }
  apply approx_cases in Am as [[-> Hbig] | (qm & -> & Am & _)]; try lia.
  { left. split; [reflexivity|]. unfold MakeTime, msPerHour, msPerMinute, msPerSecond. lia. }
  right. unfold MakeTimeN. rewrite !truncate_integer, truncate_zero.
  rewrite (ofZ_const msPerHour), (ofZ_const msPerMinute), (ofZ_const msPerSecond),
    (ofZ_const 0) by (vm_compute; discriminate).
  unfold MakeTime.
  apply (approx_add (2 ^ 53) (2 ^ 53) (2 ^ 53) 0 0); try lia;
    [|apply approx_exact | unfold msPerHour, msPerMinute, msPerSecond; lia].
  apply (approx_add (2 ^ 53) (2 ^ 53) (2 ^ 53) 0 0); try lia;
    [| rewrite mul_integers; apply approx_ofZ; lia
     | unfold msPerHour, msPerMinute; lia].
  apply (approx_add (2 ^ 53) (2 ^ 53) (2 ^ 53) 0 0); try lia;
    try (unfold msPerHour, msPerMinute; lia).
  - apply (approx_mul (2 ^ 53) (2 ^ 53) 0); try assumption; unfold msPerHour; lia.
  - apply (approx_mul (2 ^ 53) (2 ^ 53) 0); try assumption; unfold msPerMinute; lia.
Qed.

Lemma MakeDayN_approx (yr m1 d : Z) (d' : JSDouble.double) :
  100 <= yr <= 1000000 -> -1 <= m1 <= 10000000 -> 0 <= d -> approx (2 ^ 53) d d' ->
  (MakeDayN (JSDouble.Finite (inject_Z yr)) (JSDouble.Finite (inject_Z m1)) d'
   = JSDouble.NaN /\ 104000000 < MakeDay yr m1 d) \/
  approx (2 ^ 53 - 2000000) (MakeDay yr m1 d)
    (MakeDayN (JSDouble.Finite (inject_Z yr)) (JSDouble.Finite (inject_Z m1)) d').
Proof.
  intros Hy Hm Hd Ad.
  assert (0 < 2 ^ 53) as H53 by reflexivity.
  assert (-1 <= m1 / 12) as Hq by (apply Z.div_le_lower_bound; lia).
  pose proof (monthStart_range (if isLeap (yr + m1 / 12) then 1 else 0) (m1 mod 12)
                (leap_range _)) as Hms.
  destruct (DayFromYear_lower (yr + m1 / 12)) as [Hdy | ?]; [|lia].
  unfold MakeDayN, MakeDay. rewrite !truncate_integer.
  rewrite (ofZ_const (-1000000)), (ofZ_const 1000000), (ofZ_const (-10000000)),
    (ofZ_const 10000000) by (vm_compute; discriminate).
  rewrite !le_integers.
  destruct (Z.leb_spec (-1000000) yr); [|lia].
  destruct (Z.leb_spec yr 1000000); [|lia].
  destruct (Z.leb_spec (-10000000) m1); [|lia].
  destruct (Z.leb_spec m1 10000000); [|lia].
  cbn [andb].
  set (Dy := DayFromYear (yr + m1 / 12)
             + monthStart (if isLeap (yr + m1 / 12) then 1 else 0) (m1 mod 12)) in *.
  assert (- 700000 <= Dy) as HDy by (unfold Dy; lia).
  apply approx_cases in Ad as [[-> Hbig] | (qd & -> & Ad & _)]; try lia.
  { left. split; [reflexivity | lia]. }
  right. rewrite truncate_integer.
  unfold JSDouble.sub.
  change (JSDouble.opp JSDouble.one) with (JSDouble.Finite (inject_Z (-1))).
  replace (Dy + d - 1) with (Dy + d + -1) by lia.
  apply (approx_add (2 ^ 53 - 1000000) (2 ^ 53) (2 ^ 53 - 2000000) 700000 1); try lia;
    [|apply approx_exact].
  apply (approx_add (2 ^ 53) (2 ^ 53) (2 ^ 53 - 1000000) 700000 0); try lia;
    [|assumption].
  apply approx_ofZ; lia.
Qed.

Lemma MakeDateN_approx (D T : Z) (D' T' : JSDouble.double) :
  - 700002 <= D -> 0 <= T ->
  (D' = JSDouble.NaN /\ 104000000 < D) \/ approx (2 ^ 53 - 2000000) D D' ->
  (T' = JSDouble.NaN /\ 2 ^ 53 < T) \/ approx (2 ^ 53) T T' ->
  (exactBound < MakeDate D T /\
   (MakeDateN D' T' = JSDouble.NaN \/
    exists q, exactBound <= q /\ MakeDateN D' T' = JSDouble.Finite (inject_Z q))) \/
  (MakeDate D T <= exactBound /\ MakeDateN D' T' = JSDouble.Finite (inject_Z (MakeDate D T))).
Proof.
  intros HD HT AD AT.
  assert (0 < 2 ^ 53) as H53 by reflexivity.
  unfold exactBound, MakeDate.
  destruct AD as [[-> Hbig] | AD].
  { left. split; [unfold msPerDay; lia | left; reflexivity]. }
  destruct AT as [[-> Hbig] | AT].
  { left. split; [unfold msPerDay; lia|]. left. unfold MakeDateN.
    rewrite andb_false_r. reflexivity. }
  assert (approx (2 ^ 53 - 10 ^ 14) (D * msPerDay + T)
            (JSDouble.add (JSDouble.mul D' (JSDouble.Finite (inject_Z msPerDay))) T'))
    as [Hex Hat].
  { apply (approx_add (2 ^ 53) (2 ^ 53) (2 ^ 53 - 10 ^ 14) (700002 * msPerDay) 0);
      try assumption; try (unfold msPerDay; lia).
    apply (approx_mul (2 ^ 53 - 2000000) (2 ^ 53) 700002); try assumption;
      unfold msPerDay; lia. }
  pose proof AD as AD0. pose proof AT as AT0.
  apply approx_cases in AD as [[-> Hbig] | (qd & -> & _ & _)]; try lia.
  { left. split; [unfold msPerDay; lia | left; reflexivity]. }
  apply approx_cases in AT as [[-> Hbig] | (qt & -> & _ & _)]; try lia.
  { left. split; [unfold msPerDay; lia | left; reflexivity]. }
  unfold MakeDateN. cbn [JSDouble.isFinite andb].
  rewrite (ofZ_const msPerDay) by (vm_compute; discriminate).
  destruct (Z.le_gt_cases (D * msPerDay + T) (2 ^ 53 - 10 ^ 14)) as [Hle | Hgt].
  - right. split; [assumption|]. rewrite (Hex Hle). reflexivity.
  - left. split; [assumption|].
    rewrite Z.min_r in Hat by lia.
    destruct Hat as [-> | (q & -> & Hq)]; [left; reflexivity|].
    right. exists q. split; [assumption | reflexivity].
Qed.

(** The year [y] and the month [m - 1] of the constructor. *)
Lemma MakeDayN_year_month (y m d : Z) (d' : JSDouble.double) :
  0 <= y -> 0 <= m -> 0 <= d -> approx (2 ^ 53) d d' ->
  let year := JSDouble.ofZ y in
  let yr' := match JSDouble.truncate year with
             | Some y0 => if (0 <=? y0) && (y0 <=? 99) then JSDouble.ofZ (1900 + y0) else year
             | None => year
             end in
  let yr := if (0 <=? y) && (y <=? 99) then 1900 + y else y in
  (MakeDayN yr' (JSDouble.sub (JSDouble.ofZ m) JSDouble.one) d' = JSDouble.NaN /\
   104000000 < MakeDay yr (m - 1) d) \/
  approx (2 ^ 53 - 2000000) (MakeDay yr (m - 1) d)
    (MakeDayN yr' (JSDouble.sub (JSDouble.ofZ m) JSDouble.one) d').
Proof.
  intros Hy Hm Hd Ad year yr' yr.
  assert (0 < 2 ^ 53) as H53 by reflexivity.
  assert (100 <= yr /\ y <= yr <= Z.max 1999 y) as [Hyr Hyr'].
  { unfold yr. destruct ((0 <=? y) && (y <=? 99)) eqn:E.
    - apply andb_true_iff in E as [_ E]. apply Z.leb_le in E. lia.
    - apply andb_false_iff in E as [E | E];
        [apply Z.leb_gt in E | apply Z.leb_gt in E]; lia. }
  assert (-1 <= (m - 1) / 12) as Hq by (apply Z.div_le_lower_bound; lia).
  assert (m - 1 <= 12 * ((m - 1) / 12) + 11) as Hq'.
  { pose proof (Z.div_mod (m - 1) 12 ltac:(lia)).
    pose proof (Z.mod_pos_bound (m - 1) 12 ltac:(lia)). lia. }
  pose proof (monthStart_range (if isLeap (yr + (m - 1) / 12) then 1 else 0)
                ((m - 1) mod 12) (leap_range _)) as Hms.
  destruct (DayFromYear_lower (yr + (m - 1) / 12)) as [Hdy | ?]; [|lia].
  assert (1000000 < y \/ 10000000 < m - 1 -> 104000000 < MakeDay yr (m - 1) d) as Hbig.
  { intros Hc. unfold MakeDay. cbv zeta. lia. }
  (* the year *)
  assert ((1000000 < y /\ forall mo dt, MakeDayN yr' mo dt = JSDouble.NaN) \/
          (y <= 1000000 /\ yr' = JSDouble.Finite (inject_Z yr))) as [[Hy1 Hnan] | [Hy1 ->]].
  { unfold yr', year.
    destruct (approx_cases (2 ^ 53) y (JSDouble.ofZ y)) as [[-> Hb] | (q & -> & _ & Hq1 & Hq2)];
      try lia; [apply approx_ofZ; lia | |].
    - left. split; [lia | reflexivity].
    - rewrite truncate_integer.
      destruct (Z.le_gt_cases y 1000000) as [Hle | Hgt].
      + right. split; [assumption|]. rewrite (Hq2 ltac:(lia)). fold yr.
        unfold yr. destruct ((0 <=? y) && (y <=? 99)) eqn:E; [|reflexivity].
        apply andb_true_iff in E as [_ E]. apply Z.leb_le in E.
        apply ofZ_const. lia.
      + left. split; [assumption|].
        assert ((0 <=? q) && (q <=? 99) = false) as ->
          by (apply andb_false_iff; right; apply Z.leb_gt; lia).
        intros mo dt. unfold MakeDayN. rewrite truncate_integer.
        rewrite (ofZ_const 1000000) by (vm_compute; discriminate).
        rewrite (le_integers q 1000000).
        destruct (Z.leb_spec q 1000000); [lia|].
        rewrite andb_false_r. cbn [andb].
        destruct (JSDouble.truncate mo); [|reflexivity].
        destruct (JSDouble.truncate dt); reflexivity. }
  { left. split; [apply Hnan | apply Hbig; lia]. }
  (* the month *)
  assert ((10000000 < m - 1 /\
           forall dt, MakeDayN (JSDouble.Finite (inject_Z yr))
                               (JSDouble.sub (JSDouble.ofZ m) JSDouble.one) dt = JSDouble.NaN) \/
          (m - 1 <= 10000000 /\
           JSDouble.sub (JSDouble.ofZ m) JSDouble.one = JSDouble.Finite (inject_Z (m - 1))))
    as [[Hm1 Hnan] | [Hm1 ->]].
  { destruct (approx_cases (2 ^ 53) m (JSDouble.ofZ m)) as [[-> Hb] | (q & -> & _ & Hq1 & Hq2)];
      try lia; [apply approx_ofZ; lia | |].
    - left. split; [lia|]. intros dt. unfold MakeDayN. rewrite truncate_integer. reflexivity.
    - change JSDouble.one with (JSDouble.Finite (inject_Z 1)). rewrite sub_integers.
      destruct (Z.le_gt_cases (m - 1) 10000000) as [Hle | Hgt].
      + right. split; [assumption|]. rewrite (Hq2 ltac:(lia)). apply ofZ_const. lia.
      + left. split; [assumption|]. intros dt.
        destruct (ofZ_atLeast 10000001 (q - 1)) as [E | (r & E & Hr)]; try lia;
          rewrite E; unfold MakeDayN; rewrite truncate_integer.
        * reflexivity.
        * rewrite truncate_integer.
          rewrite (ofZ_const 10000000) by (vm_compute; discriminate).
          rewrite (le_integers r 10000000).
          destruct (Z.leb_spec r 10000000); [lia|].
          rewrite !andb_false_r.
          destruct (JSDouble.truncate dt); reflexivity. }
  { left. split; [apply Hnan | apply Hbig; lia]. }
  apply MakeDayN_approx; try assumption; lia.
Qed.

(** The constructor on fields that are not negative, against exact
    arithmetic: the same time value up to [exactBound], and beyond it no
    time value below [exactBound]. *)
Lemma newDateOfNumbers_cases (h : Host) (y m d hh mi : Z) :
  0 <= y -> 0 <= m -> 0 <= d -> 0 <= hh -> 0 <= mi ->
  let yr := if (0 <=? y) && (y <=? 99) then 1900 + y else y in
  let tv := MakeDate (MakeDay yr (m - 1) d) (MakeTime hh mi 0 0) in
  let made := newDateOfNumbers h (JSDouble.ofZ y)
                (JSDouble.sub (JSDouble.ofZ m) JSDouble.one) (JSDouble.ofZ d)
                (JSDouble.ofZ hh) (JSDouble.ofZ mi) JSDouble.zero in
  (exactBound < tv /\
   (made = NaN \/ exists q, exactBound <= q /\ made = TimeClip (UTC h q))) \/
  (tv <= exactBound /\ made = TimeClip (UTC h tv)).
Proof.
  intros Hy Hm Hd Hh Hmi yr tv made.
  assert (0 < 2 ^ 53) as H53 by reflexivity.
  pose proof (MakeDayN_year_month y m d (JSDouble.ofZ d) Hy Hm Hd
                ltac:(apply approx_ofZ; lia)) as HD.
  pose proof (MakeTimeN_approx hh mi (JSDouble.ofZ hh) (JSDouble.ofZ mi) Hh Hmi
                ltac:(apply approx_ofZ; lia) ltac:(apply approx_ofZ; lia)) as HT.
  cbv zeta in HD. fold yr in HD.
  assert (-700002 <= MakeDay yr (m - 1) d) as HDlow.
  { assert (100 <= yr) as Hyr.
    { unfold yr. destruct ((0 <=? y) && (y <=? 99)) eqn:E; [lia|].
      apply andb_false_iff in E as [E | E]; [apply Z.leb_gt in E | apply Z.leb_gt in E]; lia. }
    assert (-1 <= (m - 1) / 12) as Hq by (apply Z.div_le_lower_bound; lia).
    pose proof (monthStart_range (if isLeap (yr + (m - 1) / 12) then 1 else 0)
                  ((m - 1) mod 12) (leap_range _)) as Hms.
    destruct (DayFromYear_lower (yr + (m - 1) / 12)) as [Hdy | ?]; [|lia].
    unfold MakeDay. lia. }
  assert (0 <= MakeTime hh mi 0 0) as HTlow
    by (unfold MakeTime, msPerHour, msPerMinute, msPerSecond; lia).
  destruct (MakeDateN_approx _ _ _ _ HDlow HTlow HD HT) as [[Hbig Hres] | [Hle Hres]].
  - left. split; [exact Hbig|]. unfold made, newDateOfNumbers.
    destruct Hres as [-> | (q & Hq & ->)]; [left; reflexivity|].
    right. exists q. rewrite truncate_integer. auto.
  - right. split; [exact Hle|]. unfold made, newDateOfNumbers.
    rewrite Hres, truncate_integer. reflexivity.
Qed.

Lemma TimeClip_beyond (h : Host) (q : Z) :
  saneHost h -> exactBound <= q -> TimeClip (UTC h q) = NaN.
Proof.
  unfold saneHost, exactBound, TimeClip, UTC, msPerDay. intros Hh Hq.
  destruct (Z.ltb_spec 8640000000000000 (Z.abs (q - LocalTZA h))) as [_ | H];
    [reflexivity|].
  exfalso. change (2 ^ 53 - 10 ^ 14) with 8907199254740992 in Hq. lia.
Qed.

(** On fields that are not negative and give a time value up to
    [exactBound], the constructor computes exactly. *)
Lemma newDateOfNumbers_fields (h : Host) (y m d hh mi : Z) :
  0 <= y -> 0 <= m -> 0 <= d -> 0 <= hh -> 0 <= mi ->
  MakeDate (MakeDay (if (0 <=? y) && (y <=? 99) then 1900 + y else y) (m - 1) d)
           (MakeTime hh mi 0 0) <= exactBound ->
  newDateOfNumbers h (JSDouble.ofZ y) (JSDouble.sub (JSDouble.ofZ m) JSDouble.one)
    (JSDouble.ofZ d) (JSDouble.ofZ hh) (JSDouble.ofZ mi) JSDouble.zero
  = newDateOfFields h (Some y) (Some (m - 1)) (Some d) (Some hh) (Some mi) (Some 0).
Proof.
  intros Hy Hm Hd Hh Hmi Hle.
  destruct (newDateOfNumbers_cases h y m d hh mi Hy Hm Hd Hh Hmi) as [[Hbig _] | [_ ->]];
    [lia | reflexivity].
Qed.

(** On a host within a day of UTC, the constructor gives on fields that are
    not negative what exact arithmetic gives. *)
Lemma newDateOfNumbers_nonneg (h : Host) (y m d hh mi : Z) :
  saneHost h -> 0 <= y -> 0 <= m -> 0 <= d -> 0 <= hh -> 0 <= mi ->
  newDateOfNumbers h (JSDouble.ofZ y) (JSDouble.sub (JSDouble.ofZ m) JSDouble.one)
    (JSDouble.ofZ d) (JSDouble.ofZ hh) (JSDouble.ofZ mi) JSDouble.zero
  = newDateOfFields h (Some y) (Some (m - 1)) (Some d) (Some hh) (Some mi) (Some 0).
Proof.
  intros Hs Hy Hm Hd Hh Hmi.
  destruct (newDateOfNumbers_cases h y m d hh mi Hy Hm Hd Hh Hmi)
    as [[Hbig Hres] | [_ ->]]; [|reflexivity].
  cbn [newDateOfFields].
  rewrite (TimeClip_beyond h _ Hs (Z.lt_le_incl _ _ Hbig)).
  destruct Hres as [-> | (q & Hq & ->)]; [reflexivity|].
  apply TimeClip_beyond; assumption.
Qed.

(** ** Events with well-formed fields *)

Lemma digit_not_space (c : ascii) : isDigit c = true -> isWhiteSpace c = false.
Proof. intros H. digit_cases c H; reflexivity. Qed.

Lemma dropWhile_digits (s : string) :
  allChars isDigit s = true -> dropWhile isWhiteSpace s = s.
Proof.
  destruct s as [|c s]; simpl; [reflexivity|]. intros H.
  apply andb_true_iff in H as [Hc _]. rewrite (digit_not_space c Hc). reflexivity.
Qed.

Lemma allChars_rev_acc (p : ascii -> bool) (s acc : string) :
  allChars p (rev_acc s acc) = allChars p s && allChars p acc.
Proof.
  revert acc. induction s as [|c s IH]; intros acc; simpl; [reflexivity|].
  rewrite IH. simpl. rewrite !andb_assoc. f_equal. apply andb_comm.
Qed.

Lemma rev_involutive (s : string) : rev (rev s) = s.
Proof. unfold rev at 2. rewrite rev_rev_acc. reflexivity. Qed.

Lemma trim_digits (s : string) : allChars isDigit s = true -> trim s = s.
Proof.
  intros H. unfold trim, trimStart, trimEnd.
  rewrite (dropWhile_digits s H), dropWhile_digits.
  - apply rev_involutive.
  - unfold rev. rewrite allChars_rev_acc, H. reflexivity.
Qed.

(** ** What [Number] reads from a run of digits *)

Lemma skip_length (s : string) : skip (String.length s) s = "".
Proof. induction s as [|c s IH]; [reflexivity | exact IH]. Qed.

Lemma digit_not_letter (c : ascii) (s : string) :
  isDigit c = true -> (String c s =? "Infinity")%string = false.
Proof. intros H. digit_cases c H; reflexivity. Qed.

Lemma decimalNumber_digits (s : string) :
  allChars isDigit s = true -> s <> "" ->
  decimalNumber s = JSDouble.ofZ (decimalValue s).
Proof.
  intros Hs Hne. destruct s as [|c s]; [congruence|].
  pose proof Hs as Hall. cbn [allChars] in Hs. apply andb_true_iff in Hs as [Hc Hs].
  unfold decimalNumber.
  assert (match String c s with
          | String "-" r => (true, r)
          | String "+" r => (false, r)
          | _ => (false, String c s)
          end = (false, String c s)) as ->
    by (clear - Hc; digit_cases c Hc; reflexivity).
  rewrite (digit_not_letter c s Hc).
  unfold decimalLiteral, decimalValue.
  destruct (readDigits_digits (String c s) 0 O Hall) as (v & Hv & _); [lia|].
  rewrite Hv. cbn [fst Nat.add]. rewrite skip_length.
  cbn [String.length Nat.add Nat.eqb].
  unfold scaled. cbn [Z.of_nat Z.opp Z.leb Z.compare].
  change (10 ^ 0) with 1. rewrite Z.mul_1_r. reflexivity.
Qed.

(** [Number] on a non-empty run of digits is the Number value of its decimal
    value. *)
Lemma Number_digits (s : string) :
  allChars isDigit s = true -> s <> "" -> Number s = JSDouble.ofZ (decimalValue s).
Proof.
  intros Hs Hne. unfold Number. rewrite (trim_digits s Hs).
  rewrite <- (decimalNumber_digits s Hs Hne).
  destruct s as [|c s]; [congruence|]. cbn [allChars] in Hs.
  apply andb_true_iff in Hs as [Hc Hs].
  destruct s as [|c' s].
  - digit_cases c Hc; reflexivity.
  - cbn [allChars] in Hs. apply andb_true_iff in Hs as [Hc' Hs].
    digit_cases c Hc; try reflexivity.
    digit_cases c' Hc'; reflexivity.
Qed.

Lemma split_digits_sep (a : ascii) (u rest : string) :
  isDigit a = false -> allChars isDigit u = true ->
  split (String a "") (u ++ String a rest) = u :: split (String a "") rest.
Proof.
  intros Ha Hu. unfold split. rewrite split_go_digits by assumption.
  cbn [split_go stripPrefix]. unfold ascii_eqb. rewrite Ascii.eqb_refl.
  cbn [String.length Nat.sub]. rewrite rev_rev_acc. reflexivity.
Qed.

Lemma split_digits_last (a : ascii) (u : string) :
  isDigit a = false -> allChars isDigit u = true ->
  split (String a "") u = [u].
Proof.
  intros Ha Hu. unfold split. rewrite <- (append_empty_r u) at 1.
  rewrite split_go_digits by assumption.
  cbn [split_go]. rewrite rev_rev_acc. reflexivity.
Qed.

Lemma decimalValue_nonneg (s : string) :
  allChars isDigit s = true -> 0 <= decimalValue s.
Proof.
  intros Hs. unfold decimalValue.
  destruct (readDigits_digits s 0 O Hs) as (v & -> & Hv & _); [lia|].
  cbn [fst]. lia.
Qed.

(** The wall-clock minutes of a time text [H:M]. *)
Lemma minutesOf_wellformed (H M : string) :
  isNumeral H -> isNumeral M ->
  decimalValue H * 60 + decimalValue M <= 2 ^ 53 ->
  minutesOf (H ++ ":" ++ M) = JSDouble.ofZ (decimalValue H * 60 + decimalValue M).
Proof.
  intros [HdH HnH] [HdM HnM] Hle. unfold minutesOf.
  pose proof (decimalValue_nonneg H HdH) as H0.
  pose proof (decimalValue_nonneg M HdM) as M0.
  change (H ++ ":" ++ M) with (H ++ String ":" M).
  rewrite split_digits_sep, split_digits_last by (assumption || reflexivity).
  cbn [map elem nth]. rewrite !Number_digits by assumption.
  rewrite (ofZ_small (decimalValue H)), (ofZ_small (decimalValue M)), (ofZ_small 60)
    by lia.
  rewrite mul_integers, (ofZ_small (decimalValue H * 60)) by lia.
  apply add_integers.
Qed.

(** The numbers [filterUpcomingEvents] passes to the Date constructor for an
    event whose [date] is [Y-M-D] and whose [endTime] is [H:N]. *)
Lemma eventEnd_numerals (h : Host) (e : CalendarEvent) (Y M D H N : string) :
  isNumeral Y -> isNumeral M -> isNumeral D -> isNumeral H -> isNumeral N ->
  date e = Some (Y ++ "-" ++ M ++ "-" ++ D) -> endTime e = H ++ ":" ++ N ->
  eventEnd h e
  = newDateOfNumbers h (JSDouble.ofZ (decimalValue Y))
      (JSDouble.sub (JSDouble.ofZ (decimalValue M)) JSDouble.one)
      (JSDouble.ofZ (decimalValue D)) (JSDouble.ofZ (decimalValue H))
      (JSDouble.ofZ (decimalValue N)) JSDouble.zero.
Proof.
  intros [HdY HnY] [HdM HnM] [HdD HnD] [HdH HnH] [HdN HnN] Hdate Htime.
  unfold eventEnd. rewrite Hdate, Htime.
  assert (forall s, or_empty (Some s) = s) as -> by (intros [|c s]; reflexivity).
  change (Y ++ "-" ++ M ++ "-" ++ D) with (Y ++ String "-" (M ++ String "-" D)).
  change (H ++ ":" ++ N) with (H ++ String ":" N).
  rewrite !split_digits_sep, !split_digits_last by (assumption || reflexivity).
  cbn [map elem nth]. rewrite !Number_digits by assumption. reflexivity.
Qed.

(** On a host within a day of UTC, the end instant derived from [date] and
    [endTime] texts made of numerals is the local time with the fields
    written in them. *)
Lemma eventEnd_fields (h : Host) (e : CalendarEvent) (Y M D H N : string) :
  saneHost h ->
  isNumeral Y -> isNumeral M -> isNumeral D -> isNumeral H -> isNumeral N ->
  date e = Some (Y ++ "-" ++ M ++ "-" ++ D) -> endTime e = H ++ ":" ++ N ->
  eventEnd h e
  = newDateOfFields h (Some (decimalValue Y)) (Some (decimalValue M - 1))
                    (Some (decimalValue D)) (Some (decimalValue H))
                    (Some (decimalValue N)) (Some 0).
Proof.
  intros Hs HY HM HD HH HN Hdate Htime.
  rewrite (eventEnd_numerals h e Y M D H N) by assumption.
  apply newDateOfNumbers_nonneg; try assumption;
    apply decimalValue_nonneg; [apply HY | apply HM | apply HD | apply HH | apply HN].
Qed.

(** The end instant [filterUpcomingEvents] derives for an event whose [date]
    is [Y-M-D] and whose [endTime] is [H:N]: the local time with these
    fields, month [M] counted from 1. *)
Lemma eventEnd_wellformed (h : Host) (e : CalendarEvent) (Y M D H N : string) :
  saneHost h ->
  isNumeral Y -> isNumeral M -> isNumeral D -> isNumeral H -> isNumeral N ->
  date e = Some (Y ++ "-" ++ M ++ "-" ++ D) -> endTime e = H ++ ":" ++ N ->
  eventEnd h e
  = newDateOfFields h (Some (decimalValue Y)) (Some (decimalValue M - 1))
                    (Some (decimalValue D)) (Some (decimalValue H))
                    (Some (decimalValue N)) (Some 0).
Proof. apply eventEnd_fields. Qed.





(** ** Concrete runs behind the general statements *)

(** [Number] reads the parts of [date] and [endTime] as JavaScript does: an
    exponent, a trailing point, a fraction, a sign, blanks around the
    digits and a hexadecimal year are numbers.  An hour [Infinity] and an
    [endTime] without a colon give Invalid Date, so the prune removes the
    event. *)
Lemma eventEnd_reads_numbers :
  map (fun endTime =>
         toISOString (eventEnd hostUTC (mkEvent "a" "A" "09:00" endTime []
                                                (Some "2025-03-10") None None)))
      ["1e1:00"; "10.:30"; ".5:30"; "-1:00"; "25:61"; " 10 : 30 "; "10.9:59.9"]
  = map Returned
        ["2025-03-10T10:00:00.000Z"; "2025-03-10T10:30:00.000Z";
         "2025-03-10T00:30:00.000Z"; "2025-03-09T23:00:00.000Z";
         "2025-03-11T02:01:00.000Z"; "2025-03-10T10:30:00.000Z";
         "2025-03-10T10:59:00.000Z"] /\
  toISOString (eventEnd hostUTC (mkEvent "a" "A" "09:00" "10:00" []
                                         (Some "0x7e9-3-9") None None))
  = Returned "2025-03-09T10:00:00.000Z" /\
  eventEnd hostUTC (mkEvent "a" "A" "09:00" "Infinity:00" []
                            (Some "2025-03-10") None None) = NaN /\
  eventEnd hostUTC (mkEvent "a" "A" "09:00" "10" []
                            (Some "2025-03-10") None None) = NaN /\
  filterUpcomingEvents hostUTC
    [mkEvent "a" "A" "09:00" "Infinity:00" [] (Some "2025-03-10") None None;
     mkEvent "b" "B" "09:00" "1e1:00" [] (Some "2025-03-10") None None]
  = [mkEvent "b" "B" "09:00" "1e1:00" [] (Some "2025-03-10") None None].
Proof. repeat split; vm_compute; reflexivity. Qed.

(** In [findActiveEvent] the minutes of a window are the numbers [Number]
    reads: an hour [Infinity] makes a window without an end, and fractions
    of an hour or of a minute count. *)
Lemma findActiveEvent_reads_numbers :
  localClock hostUTC = Returned "2025-03-10T10:00:00.000Z" /\
  findActiveEvent hostUTC
    [mkEvent "a" "A" "10:0.5" "11:00" [] (Some "2025-03-10") None None;
     mkEvent "b" "B" "09:00" "Infinity:00" [] (Some "2025-03-10") None None]
  = Returned (Some (mkEvent "b" "B" "09:00" "Infinity:00" []
                            (Some "2025-03-10") None None)) /\
  findActiveEvent hostUTC
    [mkEvent "c" "C" "9.99:00" "10:0.5" [] (Some "2025-03-10") None None]
  = Returned (Some (mkEvent "c" "C" "9.99:00" "10:0.5" []
                            (Some "2025-03-10") None None)) /\
  findActiveEvent hostUTC
    [mkEvent "d" "D" "09:00" "1e1" [] (Some "2025-03-10") None None]
  = Returned None.
Proof. repeat split; vm_compute; reflexivity. Qed.

(** The same defect west of UTC: on a host five hours behind UTC (such as
    America/Bogota) an occurrence starting at 20:00 local time on 2099-01-01
    gets the [date] of the next day. *)
Lemma parseICS_evening_date_is_utc :
  parseICS (mkHost (-5 * msPerHour) 1735689600000) eveningFeed
  = Returned [ mkEvent "ics-0-0-4070998800000" "Dinner" "20:00" "21:00" [Some 4]
                       (Some "2099-01-02") (Some "No location") (Some true) ].
Proof. vm_compute. reflexivity. Qed.

Lemma processBlock_at_most_501_witness :
  exists new,
    [ mkEvent "ics-0-0-1736154000000" "Sync" "09:00" "09:30" [Some 1]
              (Some "2025-01-06") (Some "No location") (Some true);
      mkEvent "ics-0-1-1738573200000" "Sync" "09:00" "09:30" [Some 1]
              (Some "2025-02-03") (Some "No location") (Some true) ]
    = ([] ++ new)%list /\ (List.length new <= 501)%nat.
Proof.
  apply (processBlock_at_most_501 loopFuel (mkHost 0 1735689600000)
           (newDate (mkHost 0 1735689600000)) (expansionLimitOf (mkHost 0 1735689600000))
           farUntilBlock 0 []).
  vm_compute. reflexivity.
Defined.

Lemma eventEnd_wellformed_witness :
  eventEnd hostAtMidnight eventEndingNow
  = newDateOfFields hostAtMidnight (Some (decimalValue "1970")) (Some (decimalValue "01" - 1))
                    (Some (decimalValue "02")) (Some (decimalValue "00"))
                    (Some (decimalValue "00")) (Some 0).
Proof.
  apply (eventEnd_wellformed hostAtMidnight eventEndingNow "1970" "01" "02" "00" "00");
    try (split; [reflexivity | discriminate]); try reflexivity.
  unfold saneHost. vm_compute. discriminate.
Defined.

(** * Further properties of the calendar service *)

(** ** Decimal texts read back *)

Lemma readDigits_uint_acc (d : Decimal.uint) :
  forall (acc : positive) (n : nat),
    readDigits 10 (radixDigit 10) (Z.pos acc) n (NilEmpty.string_of_uint d)
    = (Z.pos (Pos.of_uint_acc d acc),
       (n + String.length (NilEmpty.string_of_uint d))%nat).
Proof.
  induction d; intros acc n;
    cbn [NilEmpty.string_of_uint readDigits String.length Pos.of_uint_acc];
    try (rewrite Nat.add_0_r; reflexivity);
    match goal with
    | |- context [radixDigit 10 ?c] =>
        let v := eval vm_compute in (radixDigit 10 c) in
        change (radixDigit 10 c) with v
    end; cbv iota beta;
    match goal with
    | |- readDigits _ _ ?a _ _ = _ =>
        match goal with
        | |- _ = (Z.pos (Pos.of_uint_acc _ ?b), _) =>
            replace a with (Z.pos b) by lia
        end
    end;
    rewrite IHd; f_equal; lia.
Qed.

Lemma readDigits_uint (d : Decimal.uint) (n : nat) :
  readDigits 10 (radixDigit 10) 0 n (NilEmpty.string_of_uint d)
  = (Z.of_N (Pos.of_uint d), (n + String.length (NilEmpty.string_of_uint d))%nat).
Proof.
  revert n.
  induction d; intros n; cbn [NilEmpty.string_of_uint readDigits String.length Pos.of_uint];
    try (rewrite Nat.add_0_r; reflexivity);
    match goal with
    | |- context [radixDigit 10 ?c] =>
        let v := eval vm_compute in (radixDigit 10 c) in
        change (radixDigit 10 c) with v
    end; cbv iota beta.
  - change (10 * 0 + 0) with 0. rewrite IHd. f_equal. lia.
  - change (10 * 0 + 1) with (Z.pos 1). rewrite readDigits_uint_acc. f_equal. lia.
  - change (10 * 0 + 2) with (Z.pos 2). rewrite readDigits_uint_acc. f_equal. lia.
  - change (10 * 0 + 3) with (Z.pos 3). rewrite readDigits_uint_acc. f_equal. lia.
  - change (10 * 0 + 4) with (Z.pos 4). rewrite readDigits_uint_acc. f_equal. lia.
  - change (10 * 0 + 5) with (Z.pos 5). rewrite readDigits_uint_acc. f_equal. lia.
  - change (10 * 0 + 6) with (Z.pos 6). rewrite readDigits_uint_acc. f_equal. lia.
  - change (10 * 0 + 7) with (Z.pos 7). rewrite readDigits_uint_acc. f_equal. lia.
  - change (10 * 0 + 8) with (Z.pos 8). rewrite readDigits_uint_acc. f_equal. lia.
  - change (10 * 0 + 9) with (Z.pos 9). rewrite readDigits_uint_acc. f_equal. lia.
Qed.

(** The decimal text of a natural number denotes that number. *)
Lemma decimalValue_toString (z : Z) : 0 <= z -> decimalValue (toString (Some z)) = z.
Proof.
  intros Hz. unfold decimalValue, toString, NilZero.string_of_int.
  destruct z as [|p|p]; [reflexivity| |lia].
  cbn [Z.to_int].
  assert (NilZero.string_of_uint (Pos.to_uint p)
          = NilEmpty.string_of_uint (Pos.to_uint p)) as ->.
  { pose proof (Unsigned.to_uint_nonnil p) as Hnn. unfold NilZero.string_of_uint.
    destruct (Pos.to_uint p); congruence. }
  rewrite readDigits_uint, Unsigned.of_to. reflexivity.
Qed.

Lemma toString_nonempty (z : Z) : toString (Some z) <> "".
Proof.
  unfold toString, NilZero.string_of_int.
  destruct z as [|p|p]; cbn [Z.to_int]; try discriminate.
  unfold NilZero.string_of_uint.
  pose proof (Unsigned.to_uint_nonnil p) as Hnn.
  destruct (Pos.to_uint p); try congruence; discriminate.
Qed.

Lemma readDigits_fst (radix : Z) (dv : ascii -> option Z) (s : string) :
  forall (acc : Z) (n m : nat),
    fst (readDigits radix dv acc n s) = fst (readDigits radix dv acc m s).
Proof.
  induction s as [|c s IH]; intros acc n m; cbn [readDigits]; [reflexivity|].
  destruct (dv c); [apply IH | reflexivity].
Qed.

Lemma zeros_digits (k : nat) (s : string) :
  allChars isDigit s = true ->
  allChars isDigit (String.concat "" (repeat "0" k) ++ s) = true /\
  decimalValue (String.concat "" (repeat "0" k) ++ s) = decimalValue s.
Proof.
  intros Hs. induction k as [|k [IH1 IH2]]; [auto|].
  assert (String.concat "" (repeat "0" (S k)) ++ s
          = String "0" (String.concat "" (repeat "0" k) ++ s)) as ->.
  { simpl. destruct (repeat "0" k) eqn:E; simpl; reflexivity. }
  split.
  - simpl. assumption.
  - rewrite <- IH2. unfold decimalValue. cbn [readDigits].
    change (radixDigit 10 "0") with (Some 0). cbv iota beta.
    change (10 * 0 + 0) with 0. apply readDigits_fst.
Qed.

(** A natural number padded with zeros on the left is a numeral that denotes
    it. *)
Lemma padStart_numeral (n : nat) (z : Z) :
  0 <= z ->
  isNumeral (padStart n (toString (Some z))) /\
  decimalValue (padStart n (toString (Some z))) = z.
Proof.
  intros Hz. unfold padStart.
  destruct (zeros_digits (n - String.length (toString (Some z))) (toString (Some z)))
    as [Hd Hv]; [apply toString_digits; assumption|].
  repeat split.
  - assumption.
  - pose proof (toString_nonempty z) as Hne.
    destruct (String.concat "" (repeat "0" (n - String.length (toString (Some z)))));
      destruct (toString (Some z)); simpl; congruence.
  - rewrite Hv. apply decimalValue_toString. assumption.
Qed.

(** ** Pruning at a later clock reading *)

Lemma eventEnd_same_offset (h h' : Host) (e : CalendarEvent) :
  LocalTZA h = LocalTZA h' -> eventEnd h e = eventEnd h' e.
Proof.
  intros Hz. unfold eventEnd, newDateOfNumbers, UTC. rewrite Hz. reflexivity.
Qed.

Lemma upcoming_later (h h' : Host) (e : CalendarEvent) :
  LocalTZA h = LocalTZA h' -> now h <= now h' ->
  upcoming h' (newDate h') e = true -> upcoming h (newDate h) e = true.
Proof.
  intros Hz Hn. rewrite !upcoming_spec. intros [Hd | [t [He Ht]]]; [left; assumption|].
  right. exists t. rewrite (eventEnd_same_offset h h' e Hz). split; [assumption | lia].
Qed.

Lemma filter_filter_implied {A : Type} (p q : A -> bool) (l : list A) :
  (forall x, q x = true -> p x = true) -> filter q (filter p l) = filter q l.
Proof.
  intros Hpq. induction l as [|x l IH]; [reflexivity|].
  cbn [filter]. destruct (p x) eqn:Hp.
  - cbn [filter]. rewrite IH. reflexivity.
  - destruct (q x) eqn:Hq; [apply Hpq in Hq; congruence | exact IH].
Qed.

(** Pruning a schedule that was already pruned at an earlier clock
    reading of the same host gives what pruning the original schedule gives. *)
Theorem filterUpcomingEvents_later (h h' : Host) (schedule : list CalendarEvent) :
  LocalTZA h = LocalTZA h' -> now h <= now h' ->
  filterUpcomingEvents h' (filterUpcomingEvents h schedule)
  = filterUpcomingEvents h' schedule.
Proof.
  intros Hz Hn. unfold filterUpcomingEvents.
  apply filter_filter_implied. intros e. apply upcoming_later; assumption.
Qed.

Lemma filterUpcomingEvents_later_witness :
  filterUpcomingEvents hostUTC (filterUpcomingEvents hostAtMidnight [eventEndingNow])
  = filterUpcomingEvents hostUTC [eventEndingNow].
Proof.
  apply (filterUpcomingEvents_later hostAtMidnight hostUTC [eventEndingNow]).
  - reflexivity.
  - vm_compute. discriminate.
Defined.

(** ** The decoder on tokens of the accepted shape *)

Lemma parseInt_numeral (s : string) :
  allChars isDigit s = true -> s <> "" -> parseInt s = Some (decimalValue s).
Proof.
  intros Hs Hne. destruct s as [|c s]; [congruence|].
  cbn [allChars] in Hs. apply andb_prop in Hs. destruct Hs as [Hc Hs].
  destruct (readDigits_digits (String c s) 0 0) as (v & Hv & _);
    [cbn [allChars]; rewrite Hc, Hs; reflexivity | lia |].
  unfold decimalValue. rewrite Hv. cbn [fst].
  unfold parseInt, trimStart. cbn [dropWhile]. rewrite (digit_not_space c Hc).
  digit_cases c Hc;
    try (unfold readNumber; rewrite Hv; cbn [String.length Nat.add]; f_equal; lia).
  destruct s as [|c' s'].
  - unfold readNumber. rewrite Hv. cbn [String.length Nat.add]. f_equal. lia.
  - cbn [allChars] in Hs. apply andb_prop in Hs. destruct Hs as [Hc' Hs'].
    digit_cases c' Hc';
      unfold readNumber; rewrite Hv; cbn [String.length Nat.add]; f_equal; lia.
Qed.

(** A field cut out of a run of digits: [parseInt(...) || 0] is the number
    the digits denote, and 0 when the field is empty. *)
Lemma or_zero_parseInt_digits (s : string) :
  allChars isDigit s = true -> or_zero (parseInt s) = Some (decimalValue s).
Proof.
  intros Hs. destruct s as [|c s]; [reflexivity|].
  rewrite parseInt_numeral by (assumption || discriminate). reflexivity.
Qed.

Lemma substring_numeral (u : string) (a b : nat) :
  allChars isDigit u = true -> (a < b <= String.length u)%nat ->
  allChars isDigit (substring a b u) = true /\ substring a b u <> "".
Proof.
  intros Hu Hab. unfold substring.
  destruct (substring_digits u a (b - a)) as [Hd Hl]; [lia | assumption |].
  split; [assumption|]. intros E. rewrite E in Hl. cbn in Hl. lia.
Qed.

Lemma substring_allChars (p : ascii -> bool) (u : string) :
  allChars p u = true -> forall a n, allChars p (String.substring a n u) = true.
Proof.
  induction u as [|c u IH]; intros Hu a n.
  - destruct a, n; reflexivity.
  - cbn [allChars] in Hu. apply andb_prop in Hu. destruct Hu as [Hc Hu].
    destruct a as [|a]; destruct n as [|n]; cbn [String.substring allChars];
      try reflexivity; try (apply IH; assumption).
    rewrite Hc. apply IH. assumption.
Qed.

(** The decoder on a date-time token: the fields are the numbers written at
    the fixed positions, and the designator [Z] is dropped. *)
Lemma parseIcsDate_date_time (h : Host) (d8 d6 z : string) :
  allChars isDigit d8 = true -> String.length d8 = 8%nat ->
  allChars isDigit d6 = true -> z = "" \/ z = "Z" ->
  parseIcsDate h (d8 ++ "T" ++ d6 ++ z)
  = newDateOfFields h (Some (decimalValue (substring 0 4 d8)))
      (Some (decimalValue (substring 4 6 d8) - 1))
      (Some (decimalValue (substring 6 8 d8)))
      (Some (decimalValue (substring 0 2 d6)))
      (Some (decimalValue (substring 2 4 d6)))
      (Some (decimalValue (substring 4 6 d6))).
Proof.
  intros H8 L8 H6 Hz. unfold parseIcsDate.
  assert (((d8 ++ "T" ++ d6 ++ z) =? "")%string
          || (String.length (d8 ++ "T" ++ d6 ++ z) <? 8)%nat = false) as ->.
  { apply orb_false_iff. split.
    - destruct d8; [discriminate L8 | reflexivity].
    - apply Nat.ltb_ge. rewrite length_append. lia. }
  rewrite (includes_digits "T" d8 _ eq_refl H8).
  replace (includes "T" ("T" ++ d6 ++ z)) with true by reflexivity.
  rewrite (timePart_of_token d8 d6 z H8 H6 Hz).
  unfold substring at 1 2 3.
  rewrite !(substring_app_l d8) by (rewrite L8; cbn; lia).
  change (String.substring 0 (4 - 0) d8) with (substring 0 4 d8).
  change (String.substring 4 (6 - 4) d8) with (substring 4 6 d8).
  change (String.substring 6 (8 - 6) d8) with (substring 6 8 d8).
  destruct (substring_numeral d8 0 4 H8) as [Ha1 Ha2]; [lia|].
  destruct (substring_numeral d8 4 6 H8) as [Hb1 Hb2]; [lia|].
  destruct (substring_numeral d8 6 8 H8) as [Hc1 Hc2]; [lia|].
  rewrite !parseInt_numeral by assumption.
  assert (forall a b, allChars isDigit (substring a b d6) = true) as Hsub
    by (intros a b; apply substring_allChars; assumption).
  rewrite !or_zero_parseInt_digits by apply Hsub.
  reflexivity.
Qed.

(** The decoder on a date-only token: midnight of the date written. *)
Lemma parseIcsDate_date_only (h : Host) (d8 : string) :
  allChars isDigit d8 = true -> String.length d8 = 8%nat ->
  parseIcsDate h d8
  = newDateOfFields h (Some (decimalValue (substring 0 4 d8)))
      (Some (decimalValue (substring 4 6 d8) - 1))
      (Some (decimalValue (substring 6 8 d8)))
      (Some 0) (Some 0) (Some 0).
Proof.
  intros H8 L8. unfold parseIcsDate.
  assert ((d8 =? "")%string || (String.length d8 <? 8)%nat = false) as ->.
  { apply orb_false_iff. split.
    - destruct d8; [discriminate L8 | reflexivity].
    - apply Nat.ltb_ge. lia. }
  assert (includes "T" d8 = false) as ->.
  { rewrite <- (append_empty_r d8).
    rewrite (includes_digits "T" d8 "" eq_refl H8). reflexivity. }
  destruct (substring_numeral d8 0 4 H8) as [Ha1 Ha2]; [lia|].
  destruct (substring_numeral d8 4 6 H8) as [Hb1 Hb2]; [lia|].
  destruct (substring_numeral d8 6 8 H8) as [Hc1 Hc2]; [lia|].
  rewrite !parseInt_numeral by assumption.
  reflexivity.
Qed.

(** The UTC designator [Z] at the end of a date-time token is discarded:
    the token is decoded as the same local time with or without it. *)
Theorem parseIcsDate_ignores_Z (h : Host) (d8 d6 : string) :
  allChars isDigit d8 = true -> String.length d8 = 8%nat ->
  allChars isDigit d6 = true ->
  parseIcsDate h (d8 ++ "T" ++ d6 ++ "Z") = parseIcsDate h (d8 ++ "T" ++ d6).
Proof.
  intros H8 L8 H6.
  rewrite (parseIcsDate_date_time h d8 d6 "Z" H8 L8 H6 (or_intror eq_refl)).
  pose proof (parseIcsDate_date_time h d8 d6 "" H8 L8 H6 (or_introl eq_refl)) as E.
  rewrite append_empty_r in E. rewrite E. reflexivity.
Qed.

Lemma parseIcsDate_ignores_Z_witness :
  parseIcsDate hostNoumea "20250310T100000Z" = parseIcsDate hostNoumea "20250310T100000".
Proof.
  apply (parseIcsDate_ignores_Z hostNoumea "20250310" "100000"); reflexivity.
Defined.

(** ** The calendar: fields to time value and back *)

Lemma DayFromYear_mono (a b : Z) : a <= b -> DayFromYear a <= DayFromYear b.
Proof. intros H. unfold DayFromYear. Z.div_mod_to_equations; lia. Qed.

Lemma YearFromDay_unique (y d : Z) :
  DayFromYear y <= d < DayFromYear (y + 1) -> YearFromDay d = y.
Proof.
  intros H. pose proof (YearFromDay_spec d) as Hs.
  destruct (Z.lt_trichotomy (YearFromDay d) y) as [Hlt | [Heq | Hgt]]; [|assumption|].
  - pose proof (DayFromYear_mono (YearFromDay d + 1) y). lia.
  - pose proof (DayFromYear_mono (y + 1) (YearFromDay d)). lia.
Qed.

Lemma monthStart_within (leap m0 d : Z) :
  0 <= leap <= 1 -> 0 <= m0 <= 11 ->
  1 <= d <= (if m0 =? 1 then 28 + leap
             else if (m0 =? 3) || (m0 =? 5) || (m0 =? 8) || (m0 =? 10) then 30 else 31) ->
  monthOfDay leap (monthStart leap m0 + d - 1) = m0 /\
  0 <= monthStart leap m0 + d - 1 < 365 + leap.
Proof.
  intros Hl Hm Hd.
  assert (m0 = 0 \/ m0 = 1 \/ m0 = 2 \/ m0 = 3 \/ m0 = 4 \/ m0 = 5 \/ m0 = 6 \/ m0 = 7 \/
          m0 = 8 \/ m0 = 9 \/ m0 = 10 \/ m0 = 11) as Hcases by lia.
  repeat (destruct Hcases as [-> | Hcases]); try subst m0;
    cbv [Z.eqb Pos.eqb orb] in Hd; cbv [monthStart Z.eqb Pos.eqb];
    (split; [|lia]);
    unfold monthOfDay;
    repeat match goal with
           | |- context [if (?a <? ?b) then _ else _] => destruct (Z.ltb_spec a b)
           end; lia.
Qed.

(** A date of the calendar and a time of the day, given as local fields, are
    what the local getters read from the date created. *)
Lemma newDateOfFields_local (h : Host) (y m d hh mi s : Z) :
  saneHost h ->
  100 <= y <= 9999 -> 1 <= m <= 12 -> 1 <= d <= DaysInMonth y m ->
  0 <= hh < 24 -> 0 <= mi < 60 -> 0 <= s < 60 ->
  exists t,
    newDateOfFields h (Some y) (Some (m - 1)) (Some d) (Some hh) (Some mi) (Some s)
    = Some t /\
    YearFromTime (LocalTime h t) = y /\
    MonthFromTime (LocalTime h t) = m - 1 /\
    DateFromTime (LocalTime h t) = d /\
    HourFromTime (LocalTime h t) = hh /\
    MinFromTime (LocalTime h t) = mi /\
    SecFromTime (LocalTime h t) = s.
Proof.
  intros Hh Hy Hm Hd Hhh Hmi Hs.
  destruct (newDateOfFields_valid h y (m - 1) d hh mi s) as [t Ht];
    try assumption; try lia.
  { unfold DaysInMonth in Hd.
    repeat match type of Hd with context [if ?c then _ else _] => destruct c end; lia. }
  exists t. split; [assumption|].
  unfold newDateOfFields in Ht.
  assert ((0 <=? y) && (y <=? 99) = false) as Hy99.
  { apply andb_false_iff. right. apply Z.leb_gt. lia. }
  rewrite Hy99 in Ht.
  unfold TimeClip in Ht.
  destruct (8640000000000000 <? _) in Ht; [discriminate|].
  assert (t = UTC h (MakeDate (MakeDay y (m - 1) d) (MakeTime hh mi s 0))) as Et
    by congruence.
  clear Ht.
  set (leap := if isLeap y then 1 else 0).
  assert (0 <= leap <= 1) as Hleap by (unfold leap; destruct (isLeap y); lia).
  assert (MakeDay y (m - 1) d = DayFromYear y + monthStart leap (m - 1) + d - 1) as Emd.
  { unfold MakeDay. rewrite (Z.div_small (m - 1) 12), (Z.mod_small (m - 1) 12) by lia.
    rewrite Z.add_0_r. reflexivity. }
  assert (Hd' : 1 <= d <= (if m - 1 =? 1 then 28 + leap
             else if (m - 1 =? 3) || (m - 1 =? 5) || (m - 1 =? 8) || (m - 1 =? 10)
                  then 30 else 31)).
  { unfold DaysInMonth in Hd. unfold leap.
    replace (m - 1 =? 1) with (m =? 2) by (destruct (Z.eqb_spec m 2); lia).
    replace (m - 1 =? 3) with (m =? 4) by (destruct (Z.eqb_spec m 4); lia).
    replace (m - 1 =? 5) with (m =? 6) by (destruct (Z.eqb_spec m 6); lia).
    replace (m - 1 =? 8) with (m =? 9) by (destruct (Z.eqb_spec m 9); lia).
    replace (m - 1 =? 10) with (m =? 11) by (destruct (Z.eqb_spec m 11); lia).
    destruct (m =? 2); [destruct (isLeap y)|]; lia. }
  destruct (monthStart_within leap (m - 1) d Hleap ltac:(lia) Hd') as [Hmo Hwithin0].
  assert (0 <= monthStart leap (m - 1) + d - 1 < DaysInYear y) as Hwithin.
  { unfold DaysInYear. unfold leap in *. destruct (isLeap y); lia. }
  clear Hwithin0.
  set (dw := monthStart leap (m - 1) + d - 1) in *.
  assert (0 <= MakeTime hh mi s 0 < msPerDay) as Htime
    by (unfold MakeTime, msPerDay, msPerHour, msPerMinute, msPerSecond; lia).
  assert (LocalTime h t = (DayFromYear y + dw) * msPerDay + MakeTime hh mi s 0) as Elt.
  { rewrite Et. unfold LocalTime, UTC, MakeDate. rewrite Emd. unfold dw. lia. }
  assert (Day (LocalTime h t) = DayFromYear y + dw) as Eday.
  { rewrite Elt. unfold Day. unfold msPerDay in *. Z.div_mod_to_equations; lia. }
  assert (YearFromTime (LocalTime h t) = y) as Eyear.
  { unfold YearFromTime. rewrite Eday. apply YearFromDay_unique.
    rewrite DayFromYear_succ. lia. }
  assert (DayWithinYear (LocalTime h t) = dw) as Edw.
  { unfold DayWithinYear. rewrite Eyear, Eday. lia. }
  assert (InLeapYear (LocalTime h t) = leap) as Eleap.
  { unfold InLeapYear. rewrite Eyear. reflexivity. }
  assert (MonthFromTime (LocalTime h t) = m - 1) as Emonth.
  { unfold MonthFromTime. rewrite Eleap, Edw. exact Hmo. }
  repeat split.
  - assumption.
  - assumption.
  - unfold DateFromTime. rewrite Emonth, Eleap, Edw. unfold dw. lia.
  - unfold HourFromTime. rewrite Elt.
    unfold MakeTime, msPerDay, msPerHour, msPerMinute, msPerSecond.
    Z.div_mod_to_equations; lia.
  - unfold MinFromTime. rewrite Elt.
    unfold MakeTime, msPerDay, msPerHour, msPerMinute, msPerSecond.
    Z.div_mod_to_equations; lia.
  - unfold SecFromTime. rewrite Elt.
    unfold MakeTime, msPerDay, msPerHour, msPerMinute, msPerSecond.
    Z.div_mod_to_equations; lia.
Qed.

(** ** The decoder reads the fields of a token *)

Lemma decimalValue_bound (s : string) :
  allChars isDigit s = true ->
  0 <= decimalValue s < 10 ^ Z.of_nat (String.length s).
Proof.
  intros Hs. destruct (readDigits_digits s 0 0 Hs) as (v & Hv & Hb); [lia|].
  unfold decimalValue. rewrite Hv. cbn [fst]. lia.
Qed.

Lemma substring_app_r (u v : string) (a n : nat) :
  String.substring (String.length u + a) n (u ++ v) = String.substring a n v.
Proof. induction u as [|c u IH]; [reflexivity | exact IH]. Qed.

Lemma substring_past_end (u : string) :
  forall a n, (String.length u <= a)%nat -> String.substring a n u = "".
Proof.
  induction u as [|c u IH]; intros a n Ha.
  - destruct a, n; reflexivity.
  - destruct a as [|a]; [cbn in Ha; lia|]. cbn [String.substring]. apply IH.
    cbn in Ha. lia.
Qed.

Lemma tokenField_date (d8 tail : string) (a b : nat) :
  (b <= String.length d8)%nat ->
  tokenField a b (d8 ++ tail) = decimalValue (substring a b d8).
Proof.
  intros Hb. unfold tokenField, substring.
  destruct (Nat.le_gt_cases a b) as [Hab | Hab].
  - rewrite substring_app_l by lia. reflexivity.
  - replace (b - a)%nat with 0%nat by lia.
    assert (forall u k, String.substring k 0 u = "") as Hz.
    { induction u as [|c u IH]; intros [|k]; cbn [String.substring]; auto. }
    rewrite !Hz. reflexivity.
Qed.

Lemma tokenField_time (d8 d6 z : string) (a b : nat) :
  (b <= String.length d6)%nat ->
  tokenField (String.length d8 + 1 + a) (String.length d8 + 1 + b) (d8 ++ "T" ++ d6 ++ z)
  = decimalValue (substring a b d6).
Proof.
  intros Hb. unfold tokenField, substring.
  replace (String.length d8 + 1 + b - (String.length d8 + 1 + a))%nat with (b - a)%nat by lia.
  replace (String.length d8 + 1 + a)%nat with (String.length d8 + S a)%nat by lia.
  rewrite substring_app_r. cbn [append String.substring].
  fold (tokenField a b (d6 ++ z)). apply tokenField_date. assumption.
Qed.

Lemma tokenField_none (d8 : string) (a b : nat) :
  (String.length d8 <= a)%nat -> tokenField a b d8 = 0.
Proof.
  intros Ha. unfold tokenField, substring. rewrite substring_past_end by assumption.
  reflexivity.
Qed.

(** The numbers of a token of the accepted shape, as the decoder passes them
    to the [Date] constructor. *)
Lemma parseIcsDate_token_fields (h : Host) (w : string) :
  lang false reDateTime w ->
  parseIcsDate h w
  = newDateOfFields h (Some (tokenYear w)) (Some (tokenMonth w - 1)) (Some (tokenDay w))
      (Some (tokenHour w)) (Some (tokenMinute w)) (Some (tokenSecond w)) /\
  0 <= tokenYear w <= 9999 /\ 0 <= tokenMonth w /\ 0 <= tokenDay w /\
  0 <= tokenHour w /\ 0 <= tokenMinute w /\ 0 <= tokenSecond w.
Proof.
  intros Hw.
  destruct (reDateTime_shape w Hw) as (d8 & tail & -> & H8 & L8 & Htail).
  unfold tokenYear, tokenMonth, tokenDay.
  rewrite !tokenField_date by (rewrite L8; lia).
  assert (forall a b, 0 <= decimalValue (substring a b d8)) as Hnn8.
  { intros a b. apply decimalValue_bound. apply substring_allChars. assumption. }
  assert (decimalValue (substring 0 4 d8) <= 9999) as Hy.
  { destruct (substring_digits d8 0 4) as [Hd Hl]; [lia | assumption |].
    pose proof (decimalValue_bound _ Hd) as Hb. rewrite Hl in Hb.
    change (10 ^ Z.of_nat 4) with 10000 in Hb. unfold substring.
    change (4 - 0)%nat with 4%nat. lia. }
  destruct Htail as [-> | (d6 & z & -> & H6 & L6 & Hz)].
  - rewrite append_empty_r, (parseIcsDate_date_only h d8 H8 L8).
    unfold tokenHour, tokenMinute, tokenSecond.
    rewrite !tokenField_none by (rewrite L8; lia).
    repeat split; try apply Hnn8; try lia; assumption.
  - rewrite (parseIcsDate_date_time h d8 d6 z H8 L8 H6 Hz).
    pose proof (tokenField_time d8 d6 z 0 2) as Eh.
    pose proof (tokenField_time d8 d6 z 2 4) as Em.
    pose proof (tokenField_time d8 d6 z 4 6) as Es.
    rewrite L8, L6 in Eh, Em, Es.
    cbn [Nat.add] in Eh, Em, Es.
    unfold tokenHour, tokenMinute, tokenSecond.
    rewrite Eh, Em, Es by lia.
    assert (forall a b, 0 <= decimalValue (substring a b d6)) as Hnn6.
    { intros a b. apply decimalValue_bound. apply substring_allChars. assumption. }
    repeat split; try apply Hnn8; try apply Hnn6; assumption.
Qed.

Lemma reDateTime_date_time (d8 d6 z : string) :
  allChars isDigit d8 = true -> String.length d8 = 8%nat ->
  allChars isDigit d6 = true -> String.length d6 = 6%nat ->
  z = "" \/ z = "Z" ->
  lang false reDateTime (d8 ++ "T" ++ d6 ++ z).
Proof.
  intros H8 L8 H6 L6 Hz. left.
  exists d8, ("T" ++ d6 ++ z). split; [reflexivity|]. split.
  { cbn. rewrite L8. repeat split; try assumption; lia. }
  exists "T", (d6 ++ z). split; [reflexivity|]. split; [reflexivity|].
  exists d6, z. split; [reflexivity|]. split.
  { cbn. rewrite L6. repeat split; try assumption; lia. }
  destruct Hz as [-> | ->]; [left | right]; reflexivity.
Qed.

Lemma parseIcsDate_local (h : Host) (w : string) :
  saneHost h -> calendarToken w ->
  exists t,
    parseIcsDate h w = Some t /\
    YearFromTime (LocalTime h t) = tokenYear w /\
    MonthFromTime (LocalTime h t) = tokenMonth w - 1 /\
    DateFromTime (LocalTime h t) = tokenDay w /\
    HourFromTime (LocalTime h t) = tokenHour w /\
    MinFromTime (LocalTime h t) = tokenMinute w /\
    SecFromTime (LocalTime h t) = tokenSecond w.
Proof.
  intros Hh (Hw & Hy & Hm & Hd & Hhh & Hmi & Hs).
  destruct (parseIcsDate_token_fields h w Hw)
    as (E & Hy' & Hm' & Hd' & Hhh' & Hmi' & Hs').
  destruct (newDateOfFields_local h (tokenYear w) (tokenMonth w) (tokenDay w)
              (tokenHour w) (tokenMinute w) (tokenSecond w))
    as (t & Et & F); try assumption; try lia.
  exists t. rewrite E. split; assumption.
Qed.

Lemma parseIcsDate_local_clock (h : Host) (w : string) :
  saneHost h -> calendarToken w ->
  exists t,
    parseIcsDate h w = Some t /\
    getHours h (Some t) = Some (tokenHour w) /\
    getMinutes h (Some t) = Some (tokenMinute w).
Proof.
  intros Hh Hw.
  destruct (parseIcsDate_local h w Hh Hw) as (t & Et & _ & _ & _ & Fh & Fmi & _).
  exists t. unfold getHours, getMinutes, getLocal. rewrite Fh, Fmi. auto.
Qed.

(** A token whose numbers are a date of the calendar and a time of the day is
    decoded to the instant at which the local clock shows these numbers. *)
Theorem parseIcsDate_local_fields (h : Host) (w : string) :
  saneHost h -> calendarToken w ->
  exists t,
    parseIcsDate h w = Some t /\
    getFullYear h (Some t) = Some (tokenYear w) /\
    getMonth h (Some t) = Some (tokenMonth w - 1) /\
    getDate h (Some t) = Some (tokenDay w) /\
    getHours h (Some t) = Some (tokenHour w) /\
    getMinutes h (Some t) = Some (tokenMinute w) /\
    SecFromTime (LocalTime h t) = tokenSecond w.
Proof.
  intros Hh Hw.
  destruct (parseIcsDate_local h w Hh Hw) as (t & Et & Fy & Fm & Fd & Fh & Fmi & Fs).
  exists t. unfold getFullYear, getMonth, getDate, getHours, getMinutes, getLocal.
  rewrite Fy, Fm, Fd, Fh, Fmi. repeat split; assumption.
Qed.

Lemma parseIcsDate_local_fields_witness :
  exists t,
    parseIcsDate hostNoumea "20240229T235959Z" = Some t /\
    getFullYear hostNoumea (Some t) = Some 2024 /\
    getMonth hostNoumea (Some t) = Some (2 - 1) /\
    getDate hostNoumea (Some t) = Some 29 /\
    getHours hostNoumea (Some t) = Some 23 /\
    getMinutes hostNoumea (Some t) = Some 59 /\
    SecFromTime (LocalTime hostNoumea t) = 59.
Proof.
  apply (parseIcsDate_local_fields hostNoumea "20240229T235959Z").
  - vm_compute. discriminate.
  - split; [apply (reDateTime_date_time "20240229" "235959" "Z"); auto|].
    vm_compute. repeat split; discriminate.
Defined.

(** ** Occurrences in full *)

Section Occurrences.

Variable h : Host.
Variables now expansionLimit : Date.
Variable blockIdx : nat.
Variables title location : string.
Variable duration : JSNum.

Local Abbreviation addOcc := (addOccurrence h now blockIdx title location duration).

(** What a returning call of [addOccurrence] did: nothing, or it appended the
    event of an occurrence that has not ended. *)
Lemma addOccurrence_inv (occStart : Date) (idx : Z) (events events1 : list CalendarEvent) :
  addOcc occStart idx events = Returned events1 ->
  (events1 = events /\ lt (newDateOfValue (add (getTime occStart) duration)) now = true) \/
  exists t, occStart = Some t /\
            lt (newDateOfValue (add (Some t) duration)) now = false /\
            events1 = (events ++ [occurrenceEvent h blockIdx title location duration idx t])%list.
Proof.
  unfold addOccurrence. intros Hrun.
  destruct (lt _ now) eqn:Hlt.
  - left. split; congruence.
  - right. destruct occStart as [t|]; [|discriminate].
    exists t. cbn in Hrun. injection Hrun as <-. repeat split. assumption.
Qed.

Variable freq : string.
Variable count : Count.
Variable until : Date.
Variable interval : JSNum.

Local Abbreviation loop := (expand h now expansionLimit blockIdx title location duration
                               freq count until interval).

(** A rule for the loop that follows [currentStart]: [Inv] relates the loop
    variables and the events at each evaluation of the condition, [Post]
    holds of the events wherever the loop is left. *)
Lemma expand_rule (Inv : Date -> Z -> list CalendarEvent -> Prop)
  (Post : list CalendarEvent -> Prop) (fuel : nat) :
  (forall cur it events, 0 <= it <= 500 -> Inv cur it events -> Post events) ->
  (forall t it events events1,
      0 <= it <= 500 -> Inv (Some t) it events ->
      ltCount it count = true ->
      le (Some t) until = true -> le (Some t) expansionLimit = true ->
      (events1 = events \/
       (lt (newDateOfValue (add (Some t) duration)) now = false /\
        events1 = (events ++ [occurrenceEvent h blockIdx title location duration it t])%list)) ->
      Post events1 /\
      forall next, advance h freq interval (Some t) = Some next ->
                   Inv next (it + 1) events1) ->
  forall (currentStart : Date) (iterations : Z) (events events' : list CalendarEvent),
    0 <= iterations <= 500 -> Inv currentStart iterations events ->
    loop fuel currentStart iterations events = Returned events' ->
    Post events'.
Proof.
  intros Hexit Hstep.
  induction fuel as [|fuel IH]; intros cur it events events' Hit HInv Hrun;
    cbn [expand] in Hrun; [discriminate|].
  destruct (ltCount it count && le cur until && le cur expansionLimit) eqn:Hcond.
  - apply andb_true_iff in Hcond as [Hcond Hlimit].
    apply andb_true_iff in Hcond as [Hcount Huntil].
    destruct cur as [t|]; [|discriminate].
    destruct (addOccurrence h now blockIdx title location duration
                (newDateOfValue (getTime (Some t))) it events) as [events1| |] eqn:Hadd;
      cbn [bind] in Hrun; try discriminate.
    assert (events1 = events \/
            (lt (newDateOfValue (add (Some t) duration)) now = false /\
             events1 = (events ++ [occurrenceEvent h blockIdx title location duration it t])%list))
      as Hcases.
    { apply addOccurrence_inv in Hadd.
      destruct Hadd as [[E _] | (t' & Ht' & Hlt & E)]; [left; assumption | right].
      cbn in Ht'. unfold TimeClip in Ht'.
      destruct (8640000000000000 <? Z.abs t); [discriminate|].
      assert (t' = t) as -> by congruence. split; assumption. }
    destruct (Hstep t it events events1 Hit HInv Hcount Huntil Hlimit Hcases)
      as [HPost Hnext].
    destruct (advance h freq interval (Some t)) as [next|].
    + destruct (500 <? it + 1) eqn:Hbreak.
      * injection Hrun as <-. assumption.
      * apply Z.ltb_ge in Hbreak.
        apply (IH next (it + 1) events1 events'); [lia | auto | assumption].
    + injection Hrun as <-. assumption.
  - injection Hrun as <-. eapply Hexit; eassumption.
Qed.

End Occurrences.

(** What [processBlock] does with a block, with the parameters named. *)
Lemma processBlock_unfold (fuel : nat) (h : Host) (now expansionLimit : Date)
  (block : string) (blockIdx : nat) (events : list CalendarEvent) :
  (processBlock fuel h now expansionLimit block blockIdx events = Returned events /\
   (exec false reSummary block = None \/ exec false reDtStart block = None)) \/
  (exists title location,
      (rruleOf block = None \/ rruleOf block = Some "") /\
      processBlock fuel h now expansionLimit block blockIdx events
      = addOccurrence h now blockIdx title location (durationOf h block)
                      (startOf h block) 0 events) \/
  (exists title location rrule,
      rruleOf block = Some rrule /\ rrule <> "" /\
      processBlock fuel h now expansionLimit block blockIdx events
      = expand h now expansionLimit blockIdx title location (durationOf h block)
               (freqOf rrule) (countOf rrule) (untilOf h expansionLimit rrule)
               (intervalOf rrule)
               fuel (newDateOfValue (getTime (startOf h block))) 0 events).
Proof.
  unfold processBlock, rruleOf, untilOf, durationOf, startOf, freqOf, countOf, intervalOf.
  destruct (exec false reSummary block) as [summary1|]; [|left; auto].
  destruct (exec false reDtStart block) as [dtStart1|]; [|left; auto].
  right.
  destruct (exec false reRRule block) as [r|].
  - destruct (trim (group1 r)) as [|c rrule] eqn:Hr.
    + left. eexists _, _. split; [right|]; reflexivity.
    + right. eexists _, _, _. split; [reflexivity|]. split; [discriminate | reflexivity].
  - left. eexists _, _. split; [left|]; reflexivity.
Qed.

(** ** The parts of a recurrence rule *)

(** A match of [NAME=(value)] in a rule captures a text of the value's
    language. *)
Lemma rulePart_capture (name : string) (value : re) (rrule : string)
  (cap : option string) :
  exec true (Seq (Lit name) (Cap value)) rrule = Some cap ->
  exists w, cap = Some w /\ lang true value w.
Proof.
  intros H. apply exec_sound in H as (s & H).
  cbn [matchAt] in H.
  destruct (stripLit true name s) as [s1|]; [|discriminate].
  apply matchAt_sound in H as (w & rest & _ & -> & Hw & Hk).
  rewrite consumed_append in Hk. injection Hk as <-. eauto.
Qed.

(** [COUNT] is absent, or a natural number. *)
Lemma countOf_cases (rrule : string) :
  countOf rrule = Infinity \/ exists n, 0 <= n /\ countOf rrule = Finite (Some n).
Proof.
  unfold countOf. destruct (exec true reCount rrule) as [cap|] eqn:E; [right | left; reflexivity].
  apply rulePart_capture in E as (w & -> & Hw & Hlen & _).
  cbn [group1]. exists (decimalValue w).
  rewrite parseInt_numeral; [|assumption|].
  - split; [apply decimalValue_bound; assumption | reflexivity].
  - intros ->. cbn in Hlen. lia.
Qed.

(** [INTERVAL] is a natural number, 1 when absent. *)
Lemma intervalOf_cases (rrule : string) :
  exists k, 0 <= k /\ intervalOf rrule = Some k.
Proof.
  unfold intervalOf. destruct (exec true reInterval rrule) as [cap|] eqn:E.
  - apply rulePart_capture in E as (w & -> & Hw & Hlen & _).
    cbn [group1]. exists (decimalValue w).
    rewrite parseInt_numeral; [|assumption|].
    + split; [apply decimalValue_bound; assumption | reflexivity].
    + intros ->. cbn in Hlen. lia.
  - exists 1. split; [lia | reflexivity].
Qed.

(** ** What one block contributes *)

(** A rule with [COUNT=n] contributes at most [n] occurrences. *)
Theorem count_limits_block (fuel : nat) (h : Host) (now expansionLimit : Date)
  (block : string) (blockIdx : nat) (rrule : string) (n : JSNum)
  (events events' : list CalendarEvent) :
  rruleOf block = Some rrule -> rrule <> "" -> countOf rrule = Finite n ->
  processBlock fuel h now expansionLimit block blockIdx events = Returned events' ->
  exists new k,
    n = Some k /\ events' = (events ++ new)%list /\ Z.of_nat (List.length new) <= k.
Proof.
  intros Hrule Hne Hcount Hrun.
  destruct (countOf_cases rrule) as [E | (k & Hk & E)]; [congruence|].
  assert (n = Some k) as -> by congruence.
  destruct (processBlock_unfold fuel h now expansionLimit block blockIdx events)
    as [[E1 _] | [(title & location & Hnone & E1)
                 | (title & location & rrule' & Hrule' & _ & E1)]];
    rewrite E1 in Hrun.
  - injection Hrun as <-. exists [], k. rewrite app_nil_r. cbn. repeat split. lia.
  - exfalso. destruct Hnone as [H | H]; rewrite H in Hrule; congruence.
  - assert (rrule' = rrule) as -> by congruence. rewrite E in Hrun.
    assert (exists new, events' = (events ++ new)%list /\ Z.of_nat (List.length new) <= k)
      as (new & -> & Hlen); [|exists new, k; auto].
    eapply (expand_rule _ _ _ _ _ _ _ _ _ _ _
              (fun _ it evs => exists new, evs = (events ++ new)%list /\
                                           Z.of_nat (List.length new) <= it /\
                                           Z.of_nat (List.length new) <= k)
              (fun evs => exists new, evs = (events ++ new)%list /\
                                      Z.of_nat (List.length new) <= k));
      [ | | | | exact Hrun].
    + intros _ it evs _ (new & -> & _ & Hlen). eauto.
    + intros t it evs evs1 Hit (new & -> & Hlen1 & Hlen2) Hlt _ _ Hcases.
      cbn in Hlt. apply Z.ltb_lt in Hlt.
      assert (exists new1, evs1 = (events ++ new1)%list /\
                           Z.of_nat (List.length new1) <= it + 1 /\
                           Z.of_nat (List.length new1) <= k) as (new1 & -> & H1 & H2).
      { destruct Hcases as [-> | [_ ->]].
        - exists new. repeat split; lia.
        - eexists (new ++ [_])%list. rewrite app_assoc, length_app. cbn.
          repeat split; lia. }
      split; [|intros next _]; eauto.
    + lia.
    + exists []. rewrite app_nil_r. cbn. repeat split; lia.
Qed.

Lemma count_limits_block_witness :
  exists new k,
    Some 5 = Some k /\ dailyEvents = ([] ++ new)%list /\ Z.of_nat (List.length new) <= k.
Proof.
  apply (count_limits_block loopFuel (mkHost 0 1735689600000)
           (newDate (mkHost 0 1735689600000)) (expansionLimitOf (mkHost 0 1735689600000))
           dailyBlock 0 "FREQ=DAILY;COUNT=5" (Some 5) []).
  - vm_compute. reflexivity.
  - discriminate.
  - vm_compute. reflexivity.
  - vm_compute. reflexivity.
Defined.

Lemma advance_unknown (h : Host) (freq : string) (interval : JSNum) (cur : Date) :
  knownFreq freq = false -> advance h freq interval cur = None.
Proof.
  unfold knownFreq, advance. intros H.
  apply orb_false_iff in H as [H H4]. apply orb_false_iff in H as [H H3].
  apply orb_false_iff in H as [H1 H2]. rewrite H1, H2, H3, H4. reflexivity.
Qed.

Lemma startOf_clipped (h : Host) (block : string) (t : Z) :
  newDateOfValue (getTime (startOf h block)) = Some t -> startOf h block = Some t.
Proof.
  unfold newDateOfValue, getTime. destruct (startOf h block) as [t0|]; [|discriminate].
  unfold TimeClip, NaN. destruct (_ <? _); congruence.
Qed.

(** A rule whose frequency is none of DAILY, WEEKLY, MONTHLY and YEARLY
    contributes the first occurrence only, and not even that one when it has
    ended. *)
Theorem unknown_freq_first_occurrence_only (fuel : nat) (h : Host)
  (now expansionLimit : Date) (block : string) (blockIdx : nat) (rrule : string)
  (events events' : list CalendarEvent) :
  rruleOf block = Some rrule -> rrule <> "" -> knownFreq (freqOf rrule) = false ->
  processBlock fuel h now expansionLimit block blockIdx events = Returned events' ->
  events' = events \/
  exists title location t,
    startOf h block = Some t /\
    events' = (events ++ [occurrenceEvent h blockIdx title location
                            (durationOf h block) 0 t])%list.
Proof.
  intros Hrule Hne Hfreq Hrun.
  destruct (processBlock_unfold fuel h now expansionLimit block blockIdx events)
    as [[E1 _] | [(title & location & Hnone & E1)
                 | (title & location & rrule' & Hrule' & _ & E1)]];
    rewrite E1 in Hrun.
  - injection Hrun as <-. left. reflexivity.
  - exfalso. destruct Hnone as [H | H]; rewrite H in Hrule; congruence.
  - assert (rrule' = rrule) as -> by congruence.
    eapply (expand_rule _ _ _ _ _ _ _ _ _ _ _
              (fun cur it evs => evs = events /\ it = 0 /\
                                 cur = newDateOfValue (getTime (startOf h block)))
              (fun evs => evs = events \/
                 exists title location t,
                   startOf h block = Some t /\
                   evs = (events ++ [occurrenceEvent h blockIdx title location
                                       (durationOf h block) 0 t])%list));
      [ | | | | exact Hrun].
    + intros _ it evs _ (-> & _). left. reflexivity.
    + intros t it evs evs1 Hit (-> & -> & Hcur) _ _ _ Hcases. split.
      * destruct Hcases as [-> | [_ ->]]; [left; reflexivity | right].
        exists title, location, t. split; [|reflexivity].
        apply startOf_clipped. symmetry. exact Hcur.
      * intros next Hnext. rewrite advance_unknown in Hnext by assumption. discriminate.
    + lia.
    + auto.
Qed.

Lemma unknown_freq_first_occurrence_only_witness :
  [ mkEvent "ics-0-0-1735812000000" "Pulse" "10:00" "11:00" [Some 4]
            (Some "2025-01-02") (Some "No location") (Some true) ] = [] \/
  exists title location t,
    startOf (mkHost 0 1735689600000) hourlyBlock = Some t /\
    [ mkEvent "ics-0-0-1735812000000" "Pulse" "10:00" "11:00" [Some 4]
              (Some "2025-01-02") (Some "No location") (Some true) ]
    = ([] ++ [occurrenceEvent (mkHost 0 1735689600000) 0 title location
                (durationOf (mkHost 0 1735689600000) hourlyBlock) 0 t])%list.
Proof.
  apply (unknown_freq_first_occurrence_only loopFuel (mkHost 0 1735689600000)
           (newDate (mkHost 0 1735689600000)) (expansionLimitOf (mkHost 0 1735689600000))
           hourlyBlock 0 "FREQ=HOURLY" []).
  - vm_compute. reflexivity.
  - discriminate.
  - vm_compute. reflexivity.
  - vm_compute. reflexivity.
Defined.

(** A block without a rule contributes one occurrence, at the decoded
    [DTSTART], unless that occurrence has ended. *)
Theorem single_block_one_occurrence (fuel : nat) (h : Host)
  (now expansionLimit : Date) (block : string) (blockIdx : nat)
  (events events' : list CalendarEvent) :
  rruleOf block = None \/ rruleOf block = Some "" ->
  processBlock fuel h now expansionLimit block blockIdx events = Returned events' ->
  events' = events \/
  exists title location t,
    startOf h block = Some t /\
    lt (newDateOfValue (add (Some t) (durationOf h block))) now = false /\
    events' = (events ++ [occurrenceEvent h blockIdx title location
                            (durationOf h block) 0 t])%list.
Proof.
  intros Hrule Hrun.
  destruct (processBlock_unfold fuel h now expansionLimit block blockIdx events)
    as [[E1 _] | [(title & location & Hnone & E1)
                 | (title & location & rrule' & Hrule' & Hne & E1)]];
    rewrite E1 in Hrun.
  - injection Hrun as <-. left. reflexivity.
  - apply addOccurrence_inv in Hrun as [[-> _] | (t & Ht & Hlt & ->)];
      [left; reflexivity | right].
    exists title, location, t. auto.
  - exfalso. destruct Hrule as [H | H]; rewrite H in Hrule'; congruence.
Qed.

Lemma single_block_one_occurrence_witness :
  [ mkEvent "ics-0-0-4070944800000" "Standup" "10:00" "11:00" [Some 4]
            (Some "2099-01-01") (Some "No location") (Some true) ] = [] \/
  exists title location t,
    startOf (mkHost 0 1735689600000) singleBlock = Some t /\
    lt (newDateOfValue (add (Some t) (durationOf (mkHost 0 1735689600000) singleBlock)))
       (newDate (mkHost 0 1735689600000)) = false /\
    [ mkEvent "ics-0-0-4070944800000" "Standup" "10:00" "11:00" [Some 4]
              (Some "2099-01-01") (Some "No location") (Some true) ]
    = ([] ++ [occurrenceEvent (mkHost 0 1735689600000) 0 title location
                (durationOf (mkHost 0 1735689600000) singleBlock) 0 t])%list.
Proof.
  apply (single_block_one_occurrence loopFuel (mkHost 0 1735689600000)
           (newDate (mkHost 0 1735689600000)) (expansionLimitOf (mkHost 0 1735689600000))
           singleBlock 0 []).
  - left. vm_compute. reflexivity.
  - vm_compute. reflexivity.
Defined.

Lemma StronglySorted_snoc (l : list Z) (x : Z) :
  StronglySorted Z.lt l -> Forall (fun y => y < x) l -> StronglySorted Z.lt (l ++ [x]).
Proof.
  induction 1 as [|y l Hs IH Hy]; intros Hall; cbn.
  - repeat constructor.
  - inversion Hall; subst. constructor; [auto|].
    apply Forall_app. split; [assumption|]. repeat constructor. assumption.
Qed.

Lemma advance_daily_weekly (h : Host) (freq : string) (k t : Z) :
  freq = "DAILY" \/ freq = "WEEKLY" ->
  advance h freq (Some k) (Some t) = Some (TimeClip (t + stepDays freq k * msPerDay)).
Proof.
  intros [-> | ->]; unfold advance, stepDays; cbn [String.eqb Ascii.eqb Bool.eqb andb];
    cbn [mul lift2]; rewrite setDate_plus_days; reflexivity.
Qed.

(** The occurrences of a daily or weekly rule start a whole number of steps
    after the decoded [DTSTART], the step being [INTERVAL] days or weeks of
    24 hours: occurrence [idx] starts [idx] steps later.  They come in the
    order of their indices. *)
Theorem daily_weekly_occurrences (fuel : nat) (h : Host) (now expansionLimit : Date)
  (block : string) (blockIdx : nat) (rrule : string) (k t0 : Z)
  (events events' : list CalendarEvent) :
  rruleOf block = Some rrule -> rrule <> "" ->
  freqOf rrule = "DAILY" \/ freqOf rrule = "WEEKLY" ->
  intervalOf rrule = Some k -> startOf h block = Some t0 ->
  processBlock fuel h now expansionLimit block blockIdx events = Returned events' ->
  exists title location idxs,
    events' = (events ++
               map (fun idx => occurrenceEvent h blockIdx title location
                                 (durationOf h block) idx
                                 (t0 + idx * (stepDays (freqOf rrule) k * msPerDay)))
                   idxs)%list /\
    StronglySorted Z.lt idxs /\ Forall (fun idx => 0 <= idx <= 500) idxs.
Proof.
  intros Hrule Hne Hfreq Hint Hstart Hrun.
  destruct (processBlock_unfold fuel h now expansionLimit block blockIdx events)
    as [[E1 _] | [(title & location & Hnone & E1)
                 | (title & location & rrule' & Hrule' & _ & E1)]];
    rewrite E1 in Hrun.
  - injection Hrun as <-. exists "", "", []. rewrite app_nil_r.
    repeat split; constructor.
  - exfalso. destruct Hnone as [H | H]; rewrite H in Hrule; congruence.
  - assert (rrule' = rrule) as -> by congruence. rewrite Hint in Hrun.
    exists title, location.
    set (step := stepDays (freqOf rrule) k * msPerDay).
    set (f := fun idx => occurrenceEvent h blockIdx title location
                           (durationOf h block) idx (t0 + idx * step)).
    eapply (expand_rule _ _ _ _ _ _ _ _ _ _ _
              (fun cur it evs =>
                 (cur = None \/ cur = Some (t0 + it * step)) /\
                 exists idxs, evs = (events ++ map f idxs)%list /\
                              StronglySorted Z.lt idxs /\
                              Forall (fun idx => 0 <= idx < it) idxs)
              (fun evs =>
                 exists idxs, evs = (events ++ map f idxs)%list /\
                              StronglySorted Z.lt idxs /\
                              Forall (fun idx => 0 <= idx <= 500) idxs));
      [ | | | | exact Hrun].
    + intros cur it evs Hit (_ & idxs & -> & Hs & Hall). exists idxs.
      repeat split; try assumption.
      eapply Forall_impl; [|exact Hall]. cbn. intros; lia.
    + intros t it evs evs1 Hit ([Hcur | Hcur] & idxs & -> & Hs & Hall) _ _ _ Hcases;
        [discriminate|].
      assert (t = t0 + it * step) as -> by congruence.
      assert (exists idxs1, evs1 = (events ++ map f idxs1)%list /\
                            StronglySorted Z.lt idxs1 /\
                            Forall (fun idx => 0 <= idx < it + 1) idxs1)
        as (idxs1 & -> & Hs1 & Hall1).
      { destruct Hcases as [-> | [_ ->]].
        - exists idxs. repeat split; try assumption.
          eapply Forall_impl; [|exact Hall]. cbn. intros; lia.
        - exists (idxs ++ [it])%list. rewrite map_app, app_assoc. repeat split.
          + apply StronglySorted_snoc; [assumption|].
            eapply Forall_impl; [|exact Hall]. cbn. intros; lia.
          + apply Forall_app. split.
            * eapply Forall_impl; [|exact Hall]. cbn. intros; lia.
            * repeat constructor; lia. }
      split.
      * exists idxs1. repeat split; try assumption.
        eapply Forall_impl; [|exact Hall1]. cbn. intros; lia.
      * intros next Hnext. rewrite advance_daily_weekly in Hnext by assumption.
        injection Hnext as <-. split.
        -- unfold TimeClip. fold step.
           destruct (_ <? _); [left; reflexivity | right; f_equal; lia].
        -- exists idxs1. auto.
    + lia.
    + split.
      * rewrite Hstart. cbn. unfold TimeClip.
        destruct (_ <? _); [left; reflexivity | right; f_equal; lia].
      * exists []. rewrite app_nil_r. repeat split; constructor.
Qed.

Lemma daily_weekly_occurrences_witness :
  exists title location idxs,
    dailyEvents
    = ([] ++
       map (fun idx => occurrenceEvent (mkHost 0 1735689600000) 0 title location
                         (durationOf (mkHost 0 1735689600000) dailyBlock) idx
                         (1735812000000
                          + idx * (stepDays (freqOf "FREQ=DAILY;COUNT=5") 1 * msPerDay)))
           idxs)%list /\
    StronglySorted Z.lt idxs /\ Forall (fun idx => 0 <= idx <= 500) idxs.
Proof.
  apply (daily_weekly_occurrences loopFuel (mkHost 0 1735689600000)
           (newDate (mkHost 0 1735689600000)) (expansionLimitOf (mkHost 0 1735689600000))
           dailyBlock 0 "FREQ=DAILY;COUNT=5" 1 1735812000000 []).
  - vm_compute. reflexivity.
  - discriminate.
  - left. vm_compute. reflexivity.
  - vm_compute. reflexivity.
  - vm_compute. reflexivity.
  - vm_compute. reflexivity.
Defined.

(** ** Every returned event is an occurrence that had not ended *)

Lemma processBlock_Emitted (fuel : nat) (h : Host) (now expansionLimit : Date)
  (block : string) (blockIdx : nat) (events events' : list CalendarEvent) :
  Forall (Emitted h now) events ->
  processBlock fuel h now expansionLimit block blockIdx events = Returned events' ->
  Forall (Emitted h now) events'.
Proof.
  intros Hall Hrun.
  assert (forall title location idx t evs,
             0 <= idx <= 500 -> Forall (Emitted h now) evs ->
             lt (newDateOfValue (add (Some t) (durationOf h block))) now = false ->
             Forall (Emitted h now)
               (evs ++ [occurrenceEvent h blockIdx title location
                          (durationOf h block) idx t])%list) as Hpush.
  { intros title location idx t evs Hidx Hevs Hlt. apply Forall_app. split; [assumption|].
    repeat constructor. exists blockIdx, title, location, (durationOf h block), idx, t.
    auto. }
  destruct (processBlock_unfold fuel h now expansionLimit block blockIdx events)
    as [[E1 _] | [(title & location & Hnone & E1)
                 | (title & location & rrule & Hrule & _ & E1)]];
    rewrite E1 in Hrun.
  - injection Hrun as <-. assumption.
  - apply addOccurrence_inv in Hrun as [[-> _] | (t & Ht & Hlt & ->)]; [assumption|].
    apply Hpush; [lia | assumption | assumption].
  - eapply (expand_rule _ _ _ _ _ _ _ _ _ _ _
              (fun _ _ evs => Forall (Emitted h now) evs)
              (fun evs => Forall (Emitted h now) evs));
      [ | | | | exact Hrun]; auto; [|lia].
    intros t it evs evs1 Hit Hevs _ _ _ Hcases.
    assert (Forall (Emitted h now) evs1)
      by (destruct Hcases as [-> | [Hlt ->]]; [assumption | apply Hpush; assumption]).
    auto.
Qed.

Lemma forEachBlock_Emitted (fuel : nat) (h : Host) (now expansionLimit : Date)
  (blocks : list string) :
  forall (blockIdx : nat) (events events' : list CalendarEvent),
    Forall (Emitted h now) events ->
    forEachBlock fuel h now expansionLimit blocks blockIdx events = Returned events' ->
    Forall (Emitted h now) events'.
Proof.
  induction blocks as [|block rest IH]; intros blockIdx events events' Hall Hrun;
    cbn [forEachBlock] in Hrun.
  - injection Hrun as <-. assumption.
  - destruct (processBlock fuel h now expansionLimit block blockIdx events)
      as [events1| |] eqn:E; cbn [bind] in Hrun; try discriminate.
    eapply IH; [|exact Hrun]. eapply processBlock_Emitted; eassumption.
Qed.

Lemma parseICS_Emitted (h : Host) (icsData : string) (result : list CalendarEvent) :
  parseICS h icsData = Returned result -> Forall (Emitted h (newDate h)) result.
Proof.
  intros Hrun. apply parseICSFuel_returned in Hrun as (blocks & events & Hrun & Hperm).
  apply forEachBlock_Emitted in Hrun; [|constructor].
  eapply Permutation_Forall; [|exact Hrun]. symmetry. assumption.
Qed.

(** ** The order of the result *)

Lemma localeCompare_flip (a : string) :
  forall b, localeCompare b a = - localeCompare a b.
Proof.
  induction a as [|x a IH]; intros [|y b]; cbn [localeCompare]; try reflexivity.
  destruct (Nat.ltb_spec (code y) (code x)), (Nat.ltb_spec (code x) (code y));
    try reflexivity; try lia. apply IH.
Qed.

Lemma localeCompare_range (a : string) :
  forall b, -1 <= localeCompare a b <= 1.
Proof.
  induction a as [|x a IH]; intros [|y b]; cbn [localeCompare]; try lia.
  destruct (code x <? code y)%nat; [lia|]. destruct (code y <? code x)%nat; [lia|]. apply IH.
Qed.

Lemma localeCompare_eq (a : string) :
  forall b, localeCompare a b = 0 <-> a = b.
Proof.
  induction a as [|x a IH]; intros [|y b]; cbn [localeCompare];
    try (split; [lia | discriminate]); [split; reflexivity|].
  destruct (Nat.ltb_spec (code x) (code y)).
  - split; [lia|]. intros [= -> _]. lia.
  - destruct (Nat.ltb_spec (code y) (code x)).
    + split; [lia|]. intros [= -> _]. lia.
    + rewrite IH. assert (x = y) as ->.
      { unfold code in *. rewrite <- (ascii_nat_embedding x), <- (ascii_nat_embedding y).
        f_equal. lia. }
      split; [intros ->; reflexivity | intros [= ->]; reflexivity].
Qed.

Lemma localeCompare_trans (a : string) :
  forall b c, localeCompare a b <= 0 -> localeCompare b c <= 0 ->
              localeCompare a c <= 0 /\
              (localeCompare a b < 0 \/ localeCompare b c < 0 -> localeCompare a c < 0).
Proof.
  induction a as [|x a IH]; intros [|y b] [|z c]; cbn [localeCompare]; try lia.
  destruct (Nat.ltb_spec (code x) (code y)), (Nat.ltb_spec (code y) (code x)),
    (Nat.ltb_spec (code y) (code z)), (Nat.ltb_spec (code z) (code y)),
    (Nat.ltb_spec (code x) (code z)), (Nat.ltb_spec (code z) (code x));
    try lia.
  apply IH.
Qed.

Lemma compareEvents_dated (a b : CalendarEvent) (da db : string) :
  date a = Some da -> date b = Some db ->
  compareEvents a b
  = if (da =? db)%string then localeCompare (startTime a) (startTime b)
    else localeCompare da db.
Proof.
  intros Ha Hb. unfold compareEvents. rewrite Ha, Hb. cbn [option_string_eqb].
  destruct (da =? db)%string; cbn [negb]; [reflexivity|].
  destruct da, db; reflexivity.
Qed.

Lemma compareEvents_scheduleOrder (a b : CalendarEvent) (da db : string) :
  date a = Some da -> date b = Some db ->
  (compareEvents a b <= 0 <-> scheduleOrder a b).
Proof.
  intros Ha Hb. rewrite (compareEvents_dated a b da db Ha Hb).
  unfold scheduleOrder. destruct (String.eqb_spec da db) as [E | E].
  - split.
    + intros H. exists da, db. auto.
    + intros (da' & db' & Ha' & Hb' & [H | [_ H]]); [|assumption].
      assert (da' = da) by congruence. assert (db' = db) by congruence. subst.
      pose proof (proj2 (localeCompare_eq db db) eq_refl). lia.
  - split.
    + intros H. exists da, db. repeat split; try assumption. left.
      assert (localeCompare da db <> 0) by (rewrite localeCompare_eq; assumption). lia.
    + intros (da' & db' & Ha' & Hb' & [H | [H _]]).
      * assert (da' = da) by congruence. assert (db' = db) by congruence. subst. lia.
      * congruence.
Qed.

Lemma scheduleOrder_trans (a b c : CalendarEvent) :
  scheduleOrder a b -> scheduleOrder b c -> scheduleOrder a c.
Proof.
  intros (da & db & Ha & Hb & Hab) (db' & dc & Hb' & Hc & Hbc).
  assert (db' = db) as -> by congruence.
  exists da, dc. repeat split; try assumption.
  destruct Hab as [Hab | [-> Hab]]; destruct Hbc as [Hbc | [<- Hbc]].
  - left. apply (localeCompare_trans da db dc); lia.
  - left. assumption.
  - left. assumption.
  - right. split; [reflexivity|].
    apply (localeCompare_trans (startTime a) (startTime b) (startTime c)); assumption.
Qed.

Lemma scheduleOrder_total (a b : CalendarEvent) (da db : string) :
  date a = Some da -> date b = Some db -> scheduleOrder a b \/ scheduleOrder b a.
Proof.
  intros Ha Hb.
  destruct (Z.le_gt_cases (compareEvents a b) 0) as [H | H].
  - left. apply (compareEvents_scheduleOrder a b da db); assumption.
  - right. apply (compareEvents_scheduleOrder b a db da); try assumption.
    rewrite (compareEvents_dated a b da db Ha Hb) in H.
    rewrite (compareEvents_dated b a db da Hb Ha).
    rewrite String.eqb_sym.
    destruct (da =? db)%string.
    + rewrite localeCompare_flip. lia.
    + rewrite localeCompare_flip. lia.
Qed.

Lemma insertSorted_scheduleOrder (x : CalendarEvent) (l : list CalendarEvent) :
  Forall (fun e => exists d, date e = Some d) (x :: l) ->
  StronglySorted scheduleOrder l ->
  StronglySorted scheduleOrder (insertSorted compareEvents x l).
Proof.
  intros Hd Hs. inversion Hd as [|? ? [dx Hx] Hdl]; subst. clear Hd.
  induction Hs as [|y l Hs IH Hy]; cbn [insertSorted].
  - repeat constructor.
  - inversion Hdl as [|? ? [dy Hyd] Hdl']; subst.
    destruct (Z.ltb_spec 0 (compareEvents x y)) as [Hgt | Hle].
    + constructor; [apply IH; assumption|].
      eapply Permutation_Forall; [symmetry; apply insertSorted_Permutation|].
      constructor; [|assumption].
      destruct (scheduleOrder_total x y dx dy Hx Hyd) as [H | H]; [|assumption].
      apply (compareEvents_scheduleOrder x y dx dy) in H; try assumption. lia.
    + apply (compareEvents_scheduleOrder x y dx dy) in Hle; try assumption.
      constructor; [constructor; assumption|].
      constructor; [assumption|].
      eapply Forall_impl; [|exact Hy]. intros z Hz. eapply scheduleOrder_trans; eassumption.
Qed.

Lemma sort_scheduleOrder (l : list CalendarEvent) :
  Forall (fun e => exists d, date e = Some d) l ->
  StronglySorted scheduleOrder (sort compareEvents l).
Proof.
  induction l as [|x l IH]; intros Hd; cbn [sort]; [constructor|].
  inversion Hd; subst.
  apply insertSorted_scheduleOrder; [|auto].
  constructor; [assumption|].
  eapply Permutation_Forall; [symmetry; apply sort_Permutation | assumption].
Qed.

Lemma parseICS_dated_sorted (h : Host) (icsData : string) (result : list CalendarEvent) :
  parseICS h icsData = Returned result ->
  Forall (fun e => exists d, date e = Some d) result /\
  StronglySorted scheduleOrder result.
Proof.
  intros Hrun. unfold parseICS, parseICSFuel in Hrun.
  destruct (forEachBlock _ _ _ _ _ _ _) as [events| |] eqn:E; cbn [bind] in Hrun;
    try discriminate.
  injection Hrun as <-.
  assert (Forall (fun e => exists d, date e = Some d) events) as Hdated.
  { apply forEachBlock_Emitted in E; [|constructor].
    eapply Forall_impl; [|exact E].
    intros e (blockIdx & title & location & duration & idx & t & _ & _ & ->).
    eexists. reflexivity. }
  split; [|apply sort_scheduleOrder; assumption].
  eapply Permutation_Forall; [symmetry; apply sort_Permutation | assumption].
Qed.

(** Every event [parseICS] returns has a date, and the events are in the
    order of their date texts, and of their start time texts within one
    date. *)
Theorem parseICS_sorted (h : Host) (icsData : string) (result : list CalendarEvent) :
  parseICS h icsData = Returned result ->
  Forall (fun e => exists d, date e = Some d) result /\
  StronglySorted scheduleOrder result.
Proof. apply parseICS_dated_sorted. Qed.

Lemma parseICS_sorted_witness :
  Forall (fun e => exists d, date e = Some d) twoBlockEvents /\
  StronglySorted scheduleOrder twoBlockEvents.
Proof.
  apply (parseICS_sorted (mkHost 0 1735689600000) twoBlockFeed).
  vm_compute. reflexivity.
Defined.

(** ** The texts of an event *)

Lemma length_padStart_2 (z : Z) :
  0 <= z < 100 -> String.length (padStart 2 (dec z)) = 2%nat.
Proof.
  intros Hz.
  assert (forallb (fun k => (String.length (padStart 2 (dec (Z.of_nat k))) =? 2)%nat)
                  (List.seq 0 100) = true) as Hall by (vm_compute; reflexivity).
  rewrite forallb_forall in Hall.
  specialize (Hall (Z.to_nat z)). rewrite Z2Nat.id in Hall by lia.
  apply Nat.eqb_eq, Hall, in_seq. lia.
Qed.

(** A number below 100 padded to two digits. *)
Lemma two_digits (z : Z) :
  0 <= z < 100 ->
  isNumeral (padStart 2 (dec z)) /\ decimalValue (padStart 2 (dec z)) = z /\
  String.length (padStart 2 (dec z)) = 2%nat.
Proof.
  intros Hz. destruct (padStart_numeral 2 z) as [Hn Hv]; [lia|].
  repeat split; try apply Hn; [exact Hv | apply length_padStart_2; assumption].
Qed.

Lemma HourFromTime_range (t : Z) : 0 <= HourFromTime t < 24.
Proof. unfold HourFromTime. apply Z.mod_pos_bound. lia. Qed.

Lemma MinFromTime_range (t : Z) : 0 <= MinFromTime t < 60.
Proof. unfold MinFromTime. apply Z.mod_pos_bound. lia. Qed.

Lemma WeekDay_range (t : Z) : 0 <= WeekDay t <= 6.
Proof. unfold WeekDay. pose proof (Z.mod_pos_bound (Day t + 4) 7). lia. Qed.

(** The minute of the day of a local time. *)
Lemma minutesOf_hhmm (h : Host) (t : Z) :
  minutesOf (hhmm h (Some t))
  = JSDouble.ofZ (HourFromTime (LocalTime h t) * 60 + MinFromTime (LocalTime h t)) /\
  String.length (hhmm h (Some t)) = 5%nat.
Proof.
  unfold hhmm, getHours, getMinutes, getLocal.
  pose proof (HourFromTime_range (LocalTime h t)) as Hh.
  pose proof (MinFromTime_range (LocalTime h t)) as Hm.
  destruct (two_digits (HourFromTime (LocalTime h t))) as (Hn1 & Hv1 & Hl1); [lia|].
  destruct (two_digits (MinFromTime (LocalTime h t))) as (Hn2 & Hv2 & Hl2); [lia|].
  unfold dec in *. split.
  - rewrite minutesOf_wellformed; try assumption; rewrite Hv1, Hv2; [reflexivity|].
    assert (0 < 2 ^ 53) by reflexivity. lia.
  - rewrite !length_append, Hl1, Hl2. reflexivity.
Qed.

Lemma allChars_impl (p q : ascii -> bool) (s : string) :
  (forall c, p c = true -> q c = true) -> allChars p s = true -> allChars q s = true.
Proof.
  intros Hpq. induction s as [|c s IH]; cbn [allChars]; [reflexivity|].
  intros H. apply andb_prop in H as [Hc Hs]. rewrite (Hpq c Hc), (IH Hs). reflexivity.
Qed.

Lemma split_go_skip (a : ascii) (u rest cur : string) :
  allChars (notChar a) u = true ->
  split_go (String a "") 0 cur (u ++ rest) = split_go (String a "") 0 (rev_acc u cur) rest.
Proof.
  revert cur. induction u as [|c u IH]; intros cur Hu; [reflexivity|].
  cbn [allChars] in Hu. apply andb_prop in Hu as [Hc Hu].
  unfold notChar in Hc. apply negb_true_iff in Hc.
  cbn [append split_go stripPrefix rev_acc]. rewrite Hc. apply IH. assumption.
Qed.

Lemma rev_cons (c : ascii) (s : string) : rev (String c s) = rev s ++ String c "".
Proof. unfold rev. cbn [rev_acc]. apply rev_acc_app. Qed.

(** The text before the first occurrence of a separator character. *)
Lemma split_first (a : ascii) (u rest : string) :
  allChars (notChar a) u = true ->
  part 0 (split (String a "") (u ++ String a rest)) = u.
Proof.
  intros Hu. unfold split. rewrite split_go_skip by assumption.
  cbn [split_go stripPrefix]. unfold ascii_eqb. rewrite Ascii.eqb_refl.
  cbn [part nth]. rewrite rev_rev_acc. reflexivity.
Qed.

Lemma digits_notChar (a : ascii) (s : string) :
  isDigit a = false -> allChars isDigit s = true -> allChars (notChar a) s = true.
Proof.
  intros Ha. apply allChars_impl. intros c Hc. unfold notChar.
  rewrite (digit_not a c Ha Hc). reflexivity.
Qed.

Lemma padStart_digits (n : nat) (z : Z) :
  0 <= z -> allChars isDigit (padStart n (dec z)) = true.
Proof. intros Hz. apply (padStart_numeral n z Hz). Qed.

Lemma isoYear_notT (y : Z) : allChars (notChar "T") (isoYear y) = true.
Proof.
  unfold isoYear. destruct ((0 <=? y) && (y <=? 9999)) eqn:E.
  - apply andb_prop in E as [E _]. apply Z.leb_le in E.
    apply digits_notChar; [reflexivity | apply padStart_digits; assumption].
  - rewrite allChars_app.
    rewrite (digits_notChar "T" (padStart 6 (dec (Z.abs y)))) by
      (reflexivity || (apply padStart_digits; lia)).
    destruct (y <? 0); reflexivity.
Qed.

(** The date text of an occurrence: the UTC year, month and day of its start
    instant. *)
Lemma utcDateText_format (t : Z) :
  utcDateText t
  = isoYear (YearFromTime t) ++ "-" ++ padStart 2 (dec (MonthFromTime t + 1)) ++ "-"
    ++ padStart 2 (dec (DateFromTime t)).
Proof.
  unfold utcDateText, toISOString.
  pose proof (MonthFromTime_range t) as Hm. pose proof (DateFromTime_range t) as Hd.
  set (Y := isoYear (YearFromTime t)).
  set (M := padStart 2 (dec (MonthFromTime t + 1))).
  set (D := padStart 2 (dec (DateFromTime t))).
  match goal with
  | |- part 0 (split "T" (Y ++ "-" ++ M ++ "-" ++ D ++ "T" ++ ?rest)) = _ =>
      replace (Y ++ "-" ++ M ++ "-" ++ D ++ "T" ++ rest)
        with ((Y ++ "-" ++ M ++ "-" ++ D) ++ String "T" rest)
        by (rewrite !append_assoc; reflexivity)
  end.
  apply split_first. unfold Y, M, D.
  rewrite !allChars_app.
  rewrite (isoYear_notT (YearFromTime t)).
  rewrite (digits_notChar "T" (padStart 2 (dec (MonthFromTime t + 1))))
    by (reflexivity || (apply padStart_digits; lia)).
  rewrite (digits_notChar "T" (padStart 2 (dec (DateFromTime t))))
    by (reflexivity || (apply padStart_digits; lia)).
  reflexivity.
Qed.

(** Every event [parseICS] returns is derived from one start instant [t],
    which its identifier carries: [startTime] is the five-character [HH:MM]
    text of the local clock at [t], which [minutesOf] reads back as the local
    minute of the day; [date] is the text of the UTC date of [t]; [days]
    holds the local weekday of [t], from 0 to 6; [isExternal] is true. *)
Theorem parseICS_events_wellformed (h : Host) (icsData : string)
  (result : list CalendarEvent) :
  parseICS h icsData = Returned result ->
  Forall (fun e =>
            exists blockIdx idx t,
              id e = eventId blockIdx idx (Some t) /\
              minutesOf (startTime e)
              = JSDouble.ofZ (HourFromTime (LocalTime h t) * 60
                              + MinFromTime (LocalTime h t)) /\
              String.length (startTime e) = 5%nat /\
              date e = Some (isoYear (YearFromTime t) ++ "-"
                             ++ padStart 2 (dec (MonthFromTime t + 1)) ++ "-"
                             ++ padStart 2 (dec (DateFromTime t))) /\
              days e = [Some (WeekDay (LocalTime h t))] /\
              0 <= WeekDay (LocalTime h t) <= 6 /\
              isExternal e = Some true) result.
Proof.
  intros Hrun. apply parseICS_Emitted in Hrun.
  eapply Forall_impl; [|exact Hrun].
  intros e (blockIdx & title & location & duration & idx & t & _ & _ & ->).
  exists blockIdx, idx, t. cbn [id startTime date days isExternal occurrenceEvent].
  destruct (minutesOf_hhmm h t) as [Hm Hl].
  repeat split; try assumption; try apply WeekDay_range.
  rewrite utcDateText_format. reflexivity.
Qed.

Lemma parseICS_events_wellformed_witness :
  Forall (fun e =>
            exists blockIdx idx t,
              id e = eventId blockIdx idx (Some t) /\
              minutesOf (startTime e)
              = JSDouble.ofZ (HourFromTime (LocalTime (mkHost 0 1735689600000) t) * 60
                              + MinFromTime (LocalTime (mkHost 0 1735689600000) t)) /\
              String.length (startTime e) = 5%nat /\
              date e = Some (isoYear (YearFromTime t) ++ "-"
                             ++ padStart 2 (dec (MonthFromTime t + 1)) ++ "-"
                             ++ padStart 2 (dec (DateFromTime t))) /\
              days e = [Some (WeekDay (LocalTime (mkHost 0 1735689600000) t))] /\
              0 <= WeekDay (LocalTime (mkHost 0 1735689600000) t) <= 6 /\
              isExternal e = Some true) twoBlockEvents.
Proof.
  apply (parseICS_events_wellformed (mkHost 0 1735689600000) twoBlockFeed).
  vm_compute. reflexivity.
Defined.



(** ** Pruning what the parser returned *)

Lemma DayFromYear_upper (y : Z) : 0 <= y -> DayFromYear y <= 366 * y.
Proof. intros H. unfold DayFromYear. Z.div_mod_to_equations. lia. Qed.

(** The numbers the prune reads from the texts of the event of an
    occurrence that starts at [t] and ends at [x]: the UTC year, month and
    day of [t], and the local hour and minute of [x]. *)
Lemma eventEnd_occurrence_fields (h : Host) (blockIdx : nat) (title location : string)
  (duration : JSNum) (idx t x : Z) :
  newDateOfValue (add (Some t) duration) = Some x ->
  0 <= YearFromTime t <= 9999 ->
  eventEnd h (occurrenceEvent h blockIdx title location duration idx t)
  = newDateOfFields h (Some (YearFromTime t)) (Some (MonthFromTime t))
      (Some (DateFromTime t)) (Some (HourFromTime (LocalTime h x)))
      (Some (MinFromTime (LocalTime h x))) (Some 0).
Proof.
  intros Hx Hy.
  pose proof (MonthFromTime_range t) as Hm. pose proof (DateFromTime_range t) as Hd.
  pose proof (HourFromTime_range (LocalTime h x)) as Hhh.
  pose proof (MinFromTime_range (LocalTime h x)) as Hmi.
  destruct (padStart_numeral 4 (YearFromTime t)) as [HnY HvY]; [lia|].
  destruct (padStart_numeral 2 (MonthFromTime t + 1)) as [HnM HvM]; [lia|].
  destruct (padStart_numeral 2 (DateFromTime t)) as [HnD HvD]; [lia|].
  destruct (padStart_numeral 2 (HourFromTime (LocalTime h x))) as [HnH HvH]; [lia|].
  destruct (padStart_numeral 2 (MinFromTime (LocalTime h x))) as [HnN HvN]; [lia|].
  rewrite (eventEnd_numerals h _ (padStart 4 (dec (YearFromTime t)))
             (padStart 2 (dec (MonthFromTime t + 1)))
             (padStart 2 (dec (DateFromTime t)))
             (padStart 2 (dec (HourFromTime (LocalTime h x))))
             (padStart 2 (dec (MinFromTime (LocalTime h x)))));
    try assumption.
  - unfold dec. rewrite HvY, HvM, HvD, HvH, HvN.
    rewrite newDateOfNumbers_fields; try lia.
    + replace (MonthFromTime t + 1 - 1) with (MonthFromTime t) by lia. reflexivity.
    + replace (MonthFromTime t + 1 - 1) with (MonthFromTime t) by lia.
      set (yr := if (0 <=? YearFromTime t) && (YearFromTime t <=? 99)
                 then 1900 + YearFromTime t else YearFromTime t).
      assert (0 <= yr <= 9999) as Hyr by (unfold yr; destruct (_ && _) eqn:E;
        [apply andb_true_iff in E as [_ E]; apply Z.leb_le in E|]; lia).
      pose proof (DayFromYear_upper yr ltac:(lia)) as Hup.
      pose proof (monthStart_range (if isLeap yr then 1 else 0) (MonthFromTime t)
                    (leap_range _)) as Hms.
      unfold MakeDate, MakeDay, MakeTime, exactBound.
      rewrite (Z.div_small (MonthFromTime t) 12), (Z.mod_small (MonthFromTime t) 12)
        by lia.
      rewrite Z.add_0_r. cbv zeta.
      change (2 ^ 53 - 10 ^ 14) with 8907199254740992.
      unfold msPerDay, msPerHour, msPerMinute, msPerSecond. lia.
  - cbn [date occurrenceEvent]. rewrite utcDateText_format. unfold isoYear.
    assert ((0 <=? YearFromTime t) && (YearFromTime t <=? 9999) = true) as ->.
    { apply andb_true_iff. split; apply Z.leb_le; lia. }
    reflexivity.
  - cbn [endTime occurrenceEvent]. rewrite Hx. reflexivity.
Qed.

(** The end instant the prune derives for the event of an occurrence that
    starts at [t] and ends at [x]: the UTC day of the start, at the local
    hour and minute of the end, read as a local time. *)
Theorem eventEnd_of_occurrence (h : Host) (blockIdx : nat) (title location : string)
  (duration : JSNum) (idx t x : Z) :
  newDateOfValue (add (Some t) duration) = Some x ->
  100 <= YearFromTime t <= 9999 ->
  eventEnd h (occurrenceEvent h blockIdx title location duration idx t)
  = TimeClip (Day t * msPerDay
              + (HourFromTime (LocalTime h x) * 60 + MinFromTime (LocalTime h x))
                * msPerMinute
              - LocalTZA h).
Proof.
  intros Hx Hy.
  rewrite (eventEnd_occurrence_fields h blockIdx title location duration idx t x Hx)
    by lia.
  unfold newDateOfFields.
  assert ((0 <=? YearFromTime t) && (YearFromTime t <=? 99) = false) as ->.
  { apply andb_false_iff. right. apply Z.leb_gt. lia. }
  pose proof (MakeDay_same_month t 0) as Hmd. rewrite !Z.add_0_r in Hmd.
  rewrite Hmd. f_equal.
  unfold UTC, MakeDate, MakeTime, msPerHour, msPerMinute, msPerSecond. lia.
Qed.

Lemma eventEnd_of_occurrence_witness :
  eventEnd hostNoumea
    (occurrenceEvent hostNoumea 0 "Standup" "No location" (Some 3600000) 0 4070905200000)
  = TimeClip (Day 4070905200000 * msPerDay
              + (HourFromTime (LocalTime hostNoumea 4070908800000) * 60
                 + MinFromTime (LocalTime hostNoumea 4070908800000)) * msPerMinute
              - LocalTZA hostNoumea).
Proof.
  apply (eventEnd_of_occurrence hostNoumea 0 "Standup" "No location" (Some 3600000) 0
           4070905200000 4070908800000).
  - reflexivity.
  - vm_compute. split; discriminate.
Defined.

(** On a host in UTC, for an occurrence that ends on the day on which it
    starts, the end instant the prune derives is the end of the occurrence
    rounded down to the minute. *)
Theorem eventEnd_of_occurrence_utc (h : Host) (blockIdx : nat) (title location : string)
  (duration : JSNum) (idx t x : Z) :
  LocalTZA h = 0 ->
  newDateOfValue (add (Some t) duration) = Some x ->
  100 <= YearFromTime t <= 9999 ->
  Day x = Day t ->
  eventEnd h (occurrenceEvent h blockIdx title location duration idx t)
  = Some (x - x mod msPerMinute).
Proof.
  intros Hz Hx Hy Hday.
  assert (Z.abs x <= 8640000000000000) as Hrange.
  { destruct duration as [d|]; [|discriminate]. cbn in Hx. unfold TimeClip in Hx.
    destruct (Z.ltb_spec 8640000000000000 (Z.abs (t + d))); [discriminate|].
    assert (x = t + d) by congruence. lia. }
  rewrite (eventEnd_occurrence_fields h blockIdx title location duration idx t x Hx)
    by lia.
  unfold newDateOfFields.
  assert ((0 <=? YearFromTime t) && (YearFromTime t <=? 99) = false) as ->.
  { apply andb_false_iff. right. apply Z.leb_gt. lia. }
  pose proof (MakeDay_same_month t 0) as Hmd. rewrite !Z.add_0_r in Hmd.
  rewrite Hmd, <- Hday. unfold UTC, LocalTime. rewrite Hz, !Z.add_0_r, Z.sub_0_r.
  assert (MakeDate (Day x) (MakeTime (HourFromTime x) (MinFromTime x) 0 0)
          = x - x mod msPerMinute) as ->.
  { unfold MakeDate, MakeTime, Day, HourFromTime, MinFromTime, msPerDay, msPerHour,
      msPerMinute, msPerSecond.
    Z.div_mod_to_equations. lia. }
  unfold TimeClip.
  destruct (Z.ltb_spec 8640000000000000 (Z.abs (x - x mod msPerMinute))) as [H | H];
    [|reflexivity].
  exfalso. unfold msPerMinute in H. Z.div_mod_to_equations. lia.
Qed.

Lemma eventEnd_of_occurrence_utc_witness :
  eventEnd hostUTC
    (occurrenceEvent hostUTC 0 "Standup" "No location" (Some 3630000) 0 4070944800000)
  = Some (4070948430000 - 4070948430000 mod msPerMinute).
Proof.
  apply (eventEnd_of_occurrence_utc hostUTC 0 "Standup" "No location" (Some 3630000) 0
           4070944800000 4070948430000).
  - reflexivity.
  - reflexivity.
  - vm_compute. split; discriminate.
  - reflexivity.
Defined.

(** ** A block without a rule shows the times of its tokens *)

Lemma TimeClip_Some (u t : Z) : TimeClip u = Some t -> TimeClip t = Some t.
Proof.
  unfold TimeClip, NaN. destruct (8640000000000000 <? Z.abs u) eqn:Hc; [discriminate|].
  intros [= <-]. rewrite Hc. reflexivity.
Qed.

Lemma newDateOfFields_clipped (h : Host) (a b c d e f : JSNum) (t : Z) :
  newDateOfFields h a b c d e f = Some t -> TimeClip t = Some t.
Proof.
  unfold newDateOfFields.
  destruct a, b, c, d, e, f; try discriminate. cbv zeta. apply TimeClip_Some.
Qed.

Lemma parseIcsDate_token_clipped (h : Host) (w : string) (t : Z) :
  lang false reDateTime w -> parseIcsDate h w = Some t -> TimeClip t = Some t.
Proof.
  intros Hw Ht. destruct (parseIcsDate_token_fields h w Hw) as [E _].
  apply (newDateOfFields_clipped h _ _ _ _ _ _ t (eq_trans (eq_sym E) Ht)).
Qed.

(** A block without a rule whose [DTSTART] and [DTEND] are dates of the
    calendar with a time of the day contributes at most one event, and that
    event shows the hour and minute written in the two tokens. *)
Theorem single_block_shows_token_times (fuel : nat) (h : Host)
  (now expansionLimit : Date) (block : string) (blockIdx : nat) (w w' : string)
  (events events' : list CalendarEvent) :
  saneHost h ->
  rruleOf block = None \/ rruleOf block = Some "" ->
  exec false reDtStart block = Some (Some w) ->
  exec false reDtEnd block = Some (Some w') ->
  calendarToken w -> calendarToken w' ->
  processBlock fuel h now expansionLimit block blockIdx events = Returned events' ->
  events' = events \/
  exists e,
    events' = (events ++ [e])%list /\
    startTime e = padStart 2 (dec (tokenHour w)) ++ ":" ++ padStart 2 (dec (tokenMinute w)) /\
    endTime e = padStart 2 (dec (tokenHour w')) ++ ":" ++ padStart 2 (dec (tokenMinute w')).
Proof.
  intros Hh Hrule Hs He Hw Hw' Hrun.
  destruct (parseIcsDate_local_clock h w Hh Hw) as (t & Et & Hhour & Hmin).
  destruct (parseIcsDate_local_clock h w' Hh Hw') as (t' & Et' & Hhour' & Hmin').
  destruct (processBlock_unfold fuel h now expansionLimit block blockIdx events)
    as [[E1 _] | [(title & location & Hnone & E1)
                 | (title & location & rrule' & Hrule' & Hne & E1)]];
    rewrite E1 in Hrun.
  - injection Hrun as <-. left. reflexivity.
  - apply addOccurrence_inv in Hrun as [[-> _] | (t0 & Ht0 & Hlt & ->)];
      [left; reflexivity | right].
    eexists. split; [reflexivity|].
    assert (startOf h block = Some t) as Hstart
      by (unfold startOf; rewrite Hs; exact Et).
    assert (t0 = t) as -> by congruence.
    assert (durationOf h block = Some (t' - t)) as Hdur.
    { unfold durationOf. rewrite He, Hstart. cbn [group1]. rewrite Et'. reflexivity. }
    cbn [startTime endTime occurrenceEvent]. rewrite Hdur. cbn [add lift2 newDateOfValue].
    replace (t + (t' - t)) with t' by lia.
    rewrite (parseIcsDate_token_clipped h w' t' (proj1 Hw') Et').
    unfold hhmm. rewrite Hhour, Hmin, Hhour', Hmin'. split; reflexivity.
  - exfalso. destruct Hrule as [H | H]; rewrite H in Hrule'; congruence.
Qed.

Lemma single_block_shows_token_times_witness :
  [ mkEvent "ics-0-0-4070905200000" "Standup" "10:00" "11:00" [Some 4]
            (Some "2098-12-31") (Some "No location") (Some true) ] = [] \/
  exists e,
    [ mkEvent "ics-0-0-4070905200000" "Standup" "10:00" "11:00" [Some 4]
              (Some "2098-12-31") (Some "No location") (Some true) ]
    = ([] ++ [e])%list /\
    startTime e = padStart 2 (dec (tokenHour "20990101T100000")) ++ ":"
                  ++ padStart 2 (dec (tokenMinute "20990101T100000")) /\
    endTime e = padStart 2 (dec (tokenHour "20990101T110000")) ++ ":"
                ++ padStart 2 (dec (tokenMinute "20990101T110000")).
Proof.
  apply (single_block_shows_token_times loopFuel (mkHost (11 * msPerHour) 1735689600000)
           (newDate (mkHost (11 * msPerHour) 1735689600000))
           (expansionLimitOf (mkHost (11 * msPerHour) 1735689600000))
           singleBlock 0 "20990101T100000" "20990101T110000" []).
  - vm_compute. discriminate.
  - left. vm_compute. reflexivity.
  - vm_compute. reflexivity.
  - vm_compute. reflexivity.
  - split; [apply (reDateTime_date_time "20990101" "100000" ""); auto|].
    vm_compute. repeat split; discriminate.
  - split; [apply (reDateTime_date_time "20990101" "110000" ""); auto|].
    vm_compute. repeat split; discriminate.
  - vm_compute. reflexivity.
Defined.

(** ** A feed without an event marker *)

Lemma split_go_absent (sep : string) (s : string) :
  forall cur, includes sep s = false -> sep <> "" ->
              split_go sep 0 cur s = [rev cur ++ s].
Proof.
  induction s as [|c s IH]; intros cur Hinc Hsep.
  - cbn [split_go]. rewrite append_empty_r. reflexivity.
  - cbn [includes] in Hinc. cbn [split_go].
    destruct (stripPrefix sep (String c s)); [discriminate|].
    rewrite IH by assumption. rewrite rev_cons, append_assoc. reflexivity.
Qed.

(** A text in which the separator does not occur is not split. *)
Lemma split_absent (sep s : string) :
  includes sep s = false -> sep <> "" -> split sep s = [s].
Proof. intros H Hne. unfold split. rewrite split_go_absent by assumption. reflexivity. Qed.

(** A feed whose unfolded text has no [BEGIN:VEVENT] marker gives the empty
    sequence. *)
Theorem parseICS_no_event_marker (h : Host) (icsData : string) :
  includes "BEGIN:VEVENT" (removeAll reFold icsData) = false ->
  parseICS h icsData = Returned [].
Proof.
  intros H. unfold parseICS, parseICSFuel.
  rewrite (split_absent "BEGIN:VEVENT" _ H) by discriminate.
  reflexivity.
Qed.

Lemma parseICS_no_event_marker_witness :
  parseICS hostUTC "BEGIN:VCALENDAR
VERSION:2.0
END:VCALENDAR" = Returned [].
Proof.
  apply (parseICS_no_event_marker hostUTC).
  vm_compute. reflexivity.
Defined.

(** ** Blocks that lack a required property *)

Lemma stripLit_stripPrefix (l : string) :
  forall s, stripLit false l s = stripPrefix l s.
Proof.
  induction l as [|a l IH]; intros [|b s]; cbn [stripLit stripPrefix]; try reflexivity.
  rewrite IH. reflexivity.
Qed.

Lemma exec_literal_absent (name : string) (r : re) (s : string) :
  includes name s = false -> exec false (Seq (Lit name) r) s = None.
Proof.
  induction s as [|c s IH]; intros Hinc; cbn [includes] in Hinc; cbn [exec matchAt];
    rewrite stripLit_stripPrefix.
  - destruct (stripPrefix name ""); [discriminate | reflexivity].
  - destruct (stripPrefix name (String c s)); [discriminate|]. apply IH. assumption.
Qed.

(** A block in which the text [SUMMARY], or the text [DTSTART], does not
    occur contributes nothing. *)
Theorem block_without_required_property (fuel : nat) (h : Host)
  (now expansionLimit : Date) (block : string) (blockIdx : nat)
  (events : list CalendarEvent) :
  includes "SUMMARY" block = false \/ includes "DTSTART" block = false ->
  processBlock fuel h now expansionLimit block blockIdx events = Returned events.
Proof.
  intros [H | H]; unfold processBlock.
  - unfold reSummary, reProperty, seq. rewrite (exec_literal_absent "SUMMARY" _ block H).
    reflexivity.
  - unfold reDtStart, reProperty, seq. rewrite (exec_literal_absent "DTSTART" _ block H).
    destruct (exec false reSummary block); reflexivity.
Qed.

Lemma block_without_required_property_witness :
  processBlock loopFuel hostUTC (newDate hostUTC) (expansionLimitOf hostUTC)
    "
DTSTART:20990101T100000
DTEND:20990101T110000
END:VEVENT" 0 []
  = Returned [].
Proof.
  apply (block_without_required_property loopFuel hostUTC (newDate hostUTC)
           (expansionLimitOf hostUTC)).
  left. reflexivity.
Defined.

(** ** Line unfolding *)

Lemma removeAll_go_oneLine (a rest : string) :
  oneLine a ->
  removeAll_go reFold 0 (a ++ rest) = a ++ removeAll_go reFold 0 rest.
Proof.
  unfold oneLine. induction a as [|c a IH]; intros Ha; [reflexivity|].
  cbn [allChars] in Ha. apply andb_prop in Ha as [Hc Ha].
  cbn [append removeAll_go].
  assert (matchAt false reFold (String c (a ++ rest)) None (fun s1 _ => Some s1) = None)
    as ->.
  { unfold dot, isLineTerminator in Hc. apply negb_true_iff, orb_false_iff in Hc.
    destruct Hc as [Hlf Hcr].
    unfold reFold, seq, CR, LF. cbn [matchAt stripLit].
    unfold ascii_eqb.
    assert (Ascii.eqb "013" c = false) as ->.
    { apply Ascii.eqb_neq. intros <-. discriminate. }
    assert (Ascii.eqb "010" c = false) as ->.
    { apply Ascii.eqb_neq. intros <-. discriminate. }
    reflexivity. }
  rewrite IH by assumption. reflexivity.
Qed.

Lemma repGo_none_left {R : Type} (p : ascii -> bool) (s : string)
  (k : string -> option R) :
  repGo p 0 (Some 0%nat) s k = k s.
Proof. destruct s as [|c s]; cbn [repGo maxAllows]; [|rewrite andb_false_r]; reflexivity. Qed.

Lemma reFold_matches (cr ws b : string) :
  cr = "" \/ cr = CR -> ws = " " \/ ws = String "009" "" ->
  matchAt false reFold (cr ++ LF ++ ws ++ b) None (fun s1 _ => Some s1) = Some b.
Proof.
  intros [-> | ->] [-> | ->]; unfold reFold, seq, exactly, CR, LF;
    cbn [append matchAt stripLit ascii_eqb Ascii.eqb Bool.eqb repGo spaceOrTab code
         nat_of_ascii N_of_ascii N_of_digits N.to_nat Pos.to_nat Pos.iter_op Nat.add
         Nat.eqb orb andb maxAllows maxPred Nat.pred];
    rewrite ?repGo_none_left; reflexivity.
Qed.

Lemma removeAll_go_skip (r : re) (w s1 : string) :
  removeAll_go r (String.length w) (w ++ s1) = removeAll_go r 0 s1.
Proof. induction w as [|c w IH]; [reflexivity | exact IH]. Qed.

Lemma removeAll_go_match (r : re) (c : ascii) (w s1 : string) :
  matchAt false r (String c w ++ s1) None (fun s _ => Some s) = Some s1 ->
  removeAll_go r 0 (String c w ++ s1) = removeAll_go r 0 s1.
Proof.
  intros Hm. cbn [append removeAll_go]. cbn [append] in Hm. rewrite Hm.
  replace (String.length (String c (w ++ s1)) - String.length s1)%nat
    with (S (String.length w)) by (cbn [String.length]; rewrite length_append; lia).
  apply removeAll_go_skip.
Qed.

(** A line folded once is rejoined: for texts [a] and [b] without line
    breaks, unfolding removes the line break, with or without a carriage
    return before it, and the space or tab after it. *)
Theorem unfold_rejoins_line (a b : string) (cr ws : string) :
  oneLine a -> oneLine b ->
  cr = "" \/ cr = CR ->
  ws = " " \/ ws = String "009" "" ->
  removeAll reFold (a ++ cr ++ LF ++ ws ++ b) = a ++ b.
Proof.
  intros Ha Hb Hcr Hws. unfold removeAll.
  rewrite removeAll_go_oneLine by assumption. f_equal.
  pose proof (reFold_matches cr ws b Hcr Hws) as Hm.
  assert (removeAll_go reFold 0 b = b) as Hb'.
  { rewrite <- (append_empty_r b) at 1. rewrite removeAll_go_oneLine by assumption.
    apply append_empty_r. }
  rewrite <- Hb' at 2.
  destruct Hcr as [-> | ->]; destruct Hws as [-> | ->].
  - apply (removeAll_go_match reFold "010" " " b). exact Hm.
  - apply (removeAll_go_match reFold "010" (String "009" "") b). exact Hm.
  - apply (removeAll_go_match reFold "013" (String "010" " ") b). exact Hm.
  - apply (removeAll_go_match reFold "013" (String "010" (String "009" "")) b). exact Hm.
Qed.

Lemma unfold_rejoins_line_witness :
  removeAll reFold ("SUMMARY:Quarterly plan" ++ CR ++ LF ++ " " ++ "ning review")
  = "SUMMARY:Quarterly plan" ++ "ning review".
Proof.
  apply (unfold_rejoins_line "SUMMARY:Quarterly plan" "ning review" CR " ");
    try reflexivity; auto.
Defined.

(** * Properties of the persistence and of the App *)

(** ** [localStorage] *)

(** [setItem] either stores, within the quota, or throws and stores
    nothing. *)
Lemma setItem_cases (quota : Quota) (st : Storage) (key value : string) :
  (quota ((key, value) :: filter (fun kv => negb (fst kv =? key)%string) st) = true /\
   setItem quota st key value
   = Returned ((key, value) :: filter (fun kv => negb (fst kv =? key)%string) st)) \/
  (quota ((key, value) :: filter (fun kv => negb (fst kv =? key)%string) st) = false /\
   setItem quota st key value = Thrown "QuotaExceededError").
Proof. unfold setItem. destruct (quota _); auto. Qed.

Lemma setItem_returned (quota : Quota) (st st' : Storage) (key value : string) :
  setItem quota st key value = Returned st' ->
  st' = (key, value) :: filter (fun kv => negb (fst kv =? key)%string) st.
Proof.
  intros H. destruct (setItem_cases quota st key value) as [[_ E] | [_ E]];
    rewrite E in H; congruence.
Qed.

Lemma getItem_setItem (quota : Quota) (st st' : Storage) (key value : string) :
  setItem quota st key value = Returned st' -> getItem st' key = Some value.
Proof.
  intros H. rewrite (setItem_returned _ _ _ _ _ H).
  unfold getItem. cbn [find fst snd]. rewrite String.eqb_refl. reflexivity.
Qed.

Lemma getItem_setItem_other (quota : Quota) (st st' : Storage) (key key' value : string) :
  setItem quota st key value = Returned st' ->
  key' <> key -> getItem st' key' = getItem st key'.
Proof.
  intros H Hne. rewrite (setItem_returned _ _ _ _ _ H). clear H.
  unfold getItem. cbn [find fst].
  destruct (String.eqb_spec key key') as [E | _]; [congruence|].
  induction st as [|[k v] st IH]; cbn [filter find fst]; [reflexivity|].
  destruct (String.eqb_spec k key) as [-> | Hk]; cbn [negb].
  - destruct (String.eqb_spec key key') as [E | _]; [congruence | exact IH].
  - cbn [find fst]. destruct (k =? key')%string; [reflexivity | exact IH].
Qed.

(** ** The stored schedule *)

Lemma getStoredSchedule_setItem (J : JSON (list CalendarEvent)) (quota : Quota) (h : Host)
  (st st' : Storage) (schedule : list CalendarEvent) :
  setItem quota st SCHEDULE_KEY (stringify J schedule) = Returned st' ->
  RoundTrips J schedule ->
  getStoredSchedule J h st' = filterUpcomingEvents h schedule.
Proof.
  intros Hset [Hne Hrt]. unfold getStoredSchedule. rewrite (getItem_setItem _ _ _ _ _ Hset).
  destruct (String.eqb_spec (stringify J schedule) "") as [E | _]; [congruence|].
  rewrite Hrt. reflexivity.
Qed.

(** What [saveSchedule] stored, when the browser accepted it, is what
    [getStoredSchedule] reads, pruned at the clock reading of the read. *)
Theorem saveSchedule_getStoredSchedule (J : JSON (list CalendarEvent)) (quota : Quota)
  (h : Host) (st stored : Storage) (schedule : list CalendarEvent) :
  saveSchedule J quota st schedule = Returned stored ->
  RoundTrips J schedule ->
  getStoredSchedule J h stored = filterUpcomingEvents h schedule.
Proof. unfold saveSchedule. apply getStoredSchedule_setItem. Qed.

Lemma saveSchedule_getStoredSchedule_witness :
  getStoredSchedule scheduleCodec hostUTC storedSchedule
  = filterUpcomingEvents hostUTC twoBlockEvents.
Proof.
  apply (saveSchedule_getStoredSchedule scheduleCodec roomy hostUTC [] storedSchedule
           twoBlockEvents).
  - vm_compute. reflexivity.
  - split; [discriminate | reflexivity].
Defined.

(** ** Importing a calendar file *)

(** After an import that found events and stored them, the schedule in the
    state is what [loadData] would read from the storage at the same clock
    reading; later on, [loadData] reads the prune of the schedule in the
    state. *)
Theorem handleICSImport_stores_what_it_shows (JC : JSON (list CalendarEvent))
  (JS : JSON (list Session.t)) (quota : Quota) (h h' h'' : Host) (text : string)
  (s : App.State) (rawEvents : list CalendarEvent) (stored : Storage) :
  parseICS h text = Returned rawEvents -> rawEvents <> [] ->
  saveSchedule JC quota (App.storage s) rawEvents = Returned stored ->
  RoundTrips JC rawEvents ->
  LocalTZA h' = LocalTZA h'' -> now h' <= now h'' ->
  App.schedule (App.handleICSImport JC quota h h' text s)
  = filterUpcomingEvents h' rawEvents /\
  App.schedule (App.loadData JC JS h' (App.handleICSImport JC quota h h' text s))
  = App.schedule (App.handleICSImport JC quota h h' text s) /\
  App.schedule (App.loadData JC JS h'' (App.handleICSImport JC quota h h' text s))
  = filterUpcomingEvents h'' (App.schedule (App.handleICSImport JC quota h h' text s)).
Proof.
  intros Hrun Hne Hsave Hrt Hz Hn. unfold App.loadData, App.handleICSImport.
  rewrite Hrun.
  destruct rawEvents as [|e raw]; [congruence|].
  cbn [List.length Nat.ltb Nat.leb]. rewrite Hsave.
  cbn [App.schedule App.storage].
  unfold saveSchedule in Hsave.
  rewrite !(getStoredSchedule_setItem JC quota _ _ _ _ Hsave Hrt).
  repeat split.
  unfold filterUpcomingEvents. symmetry. apply filter_filter_implied.
  intros x. apply upcoming_later; assumption.
Qed.

(** On a host within a day of UTC [parseICS] returns, whatever the text of
    the file, and the import has three outcomes: no event was found, and
    storage, schedule and notification are unchanged and the error says so;
    or the events were stored, all of them, the upcoming ones are shown and
    the notification counts the events found; or the browser refused to
    store the events, and then nothing changes but the error, which reports
    a failure to parse. *)
Theorem handleICSImport_outcomes (J : JSON (list CalendarEvent)) (quota : Quota)
  (h h' : Host) (text : string) (s : App.State) :
  saneHost h ->
  exists rawEvents,
    parseICS h text = Returned rawEvents /\
    ((rawEvents = [] /\
      App.handleICSImport J quota h h' text s
      = App.mkState (App.storage s) (App.schedule s) (App.pastSessions s)
                    (App.currentTime s) (App.notification s)
                    (Some "The file was parsed but contained no upcoming events.")) \/
     (rawEvents <> [] /\
      exists stored,
        saveSchedule J quota (App.storage s) rawEvents = Returned stored /\
        App.handleICSImport J quota h h' text s
        = App.mkState stored
                      (filterUpcomingEvents h' rawEvents)
                      (App.pastSessions s) (App.currentTime s)
                      (Some ("Successfully imported "
                             ++ toString (Some (Z.of_nat (List.length rawEvents)))
                             ++ " events."))
                      (App.error s)) \/
     (rawEvents <> [] /\
      saveSchedule J quota (App.storage s) rawEvents = Thrown "QuotaExceededError" /\
      App.handleICSImport J quota h h' text s
      = App.mkState (App.storage s) (App.schedule s) (App.pastSessions s)
                    (App.currentTime s) (App.notification s)
                    (Some "Failed to parse calendar. Ensure it's a valid .ics file."))).
Proof.
  intros Hh. destruct (parseICS_returns h text Hh) as [rawEvents Hrun].
  exists rawEvents. split; [assumption|].
  unfold App.handleICSImport. rewrite Hrun.
  destruct rawEvents as [|e raw]; [left; split; reflexivity|].
  right. cbn [List.length Nat.ltb Nat.leb].
  unfold saveSchedule.
  destruct (setItem_cases quota (App.storage s) SCHEDULE_KEY (stringify J (e :: raw)))
    as [[_ E] | [_ E]]; rewrite E.
  - left. split; [discriminate|]. eexists. split; reflexivity.
  - right. split; [discriminate|]. split; reflexivity.
Qed.

(** ** The auto-refresh timer *)

Lemma tick_schedule (tza : Z) (s : App.State) (r : Z * Z) :
  App.schedule (runTick tza s r)
  = if SecFromTime (fst r + tza) =? 0
    then filterUpcomingEvents (mkHost tza (snd r)) (App.schedule s)
    else App.schedule s.
Proof.
  unfold runTick, App.tick, getSeconds, getLocal, newDate, LocalTime, mkHost.
  cbn [App.schedule JSDate.now LocalTZA].
  destruct (SecFromTime (fst r + tza)) as [|p|p]; reflexivity.
Qed.

Lemma lastPrune_inOrder (tza : Z) (rs : list (Z * Z)) :
  forall from t, inOrder from rs -> lastPrune tza rs = Some t -> from <= t.
Proof.
  induction rs as [|r rs IH]; intros from t Hord Hlast; [discriminate|].
  cbn [inOrder lastPrune] in *. destruct Hord as (H1 & H2 & Hord).
  destruct (lastPrune tza rs) as [t'|] eqn:E.
  - injection Hlast as <-. specialize (IH (snd r) t' Hord eq_refl). lia.
  - destruct (SecFromTime (fst r + tza) =? 0); [|discriminate].
    injection Hlast as <-. lia.
Qed.

(** The schedule after any number of runs of the timer is the schedule at
    the start pruned once, at the clock reading of the last run that fell on
    second 0 of a minute; it is unchanged when no run did. *)
Theorem timer_prunes_as_of_last_minute (tza : Z) (rs : list (Z * Z)) :
  forall (from : Z) (s : App.State),
    inOrder from rs ->
    App.schedule (fold_left (runTick tza) rs s)
    = match lastPrune tza rs with
      | Some t => filterUpcomingEvents (mkHost tza t) (App.schedule s)
      | None => App.schedule s
      end.
Proof.
  induction rs as [|r rs IH]; intros from s Hord; [reflexivity|].
  cbn [fold_left lastPrune inOrder] in *. destruct Hord as (H1 & H2 & Hord).
  rewrite (IH (snd r) _ Hord), tick_schedule.
  destruct (lastPrune tza rs) as [t|] eqn:E;
    [|destruct (SecFromTime (fst r + tza) =? 0); reflexivity].
  destruct (SecFromTime (fst r + tza) =? 0); [|reflexivity].
  pose proof (lastPrune_inOrder tza rs (snd r) t Hord E) as Hle.
  unfold filterUpcomingEvents. apply filter_filter_implied.
  intros x. apply upcoming_later; [reflexivity | exact Hle].
Qed.

(** ** The callout of the dashboard *)

Lemma filter_StronglySorted {A : Type} (R : A -> A -> Prop) (p : A -> bool) (l : list A) :
  StronglySorted R l -> StronglySorted R (filter p l).
Proof.
  induction 1 as [|x l Hs IH Hx]; cbn [filter]; [constructor|].
  destruct (p x); [|assumption].
  constructor; [assumption|].
  apply Forall_forall. intros y Hy. apply filter_In in Hy as [Hy _].
  rewrite Forall_forall in Hx. auto.
Qed.

(** The schedule the App holds after an import, pruned any number of times,
    is in the order of the parser. *)
Lemma pruned_parse_sorted (h h' : Host) (text : string) (rawEvents : list CalendarEvent) :
  parseICS h text = Returned rawEvents ->
  StronglySorted scheduleOrder (filterUpcomingEvents h' rawEvents).
Proof.
  intros Hrun. unfold filterUpcomingEvents. apply filter_StronglySorted.
  apply (parseICS_dated_sorted h text rawEvents Hrun).
Qed.

(** For the schedule the App holds after an import, the events [parseICS]
    returned pruned at some later time, the callout shows the first event in
    progress; when no event is in progress it shows the first event of the
    schedule, and every other event of the schedule has a later date text,
    or the same date text and a start time text that is not earlier. *)
Theorem calloutEvent_active_or_earliest (h0 h' h : Host) (text : string)
  (rawEvents : list CalendarEvent) (e : CalendarEvent) :
  parseICS h0 text = Returned rawEvents ->
  App.calloutEvent h (filterUpcomingEvents h' rawEvents) = Returned (Some e) ->
  (exists before after,
      filterUpcomingEvents h' rawEvents = (before ++ e :: after)%list /\
      ActiveNow h e /\ Forall (fun e' => ~ ActiveNow h e') before) \/
  (exists rest,
      filterUpcomingEvents h' rawEvents = e :: rest /\
      Forall (fun e' => ~ ActiveNow h e') (e :: rest) /\
      Forall (scheduleOrder e) rest).
Proof.
  intros Hparse Hrun.
  pose proof (pruned_parse_sorted h0 h' text rawEvents Hparse) as Hsorted.
  remember (filterUpcomingEvents h' rawEvents) as schedule eqn:Es. clear Es.
  unfold App.calloutEvent in Hrun.
  rewrite findActiveEvent_returns_first in Hrun. cbn [bind] in Hrun.
  destruct (find (activeAt (todayIsoOf h) (currentTimeMinsOf h)) schedule) as [a|] eqn:Hfind.
  - left. assert (a = e) as -> by congruence.
    apply find_first in Hfind as (before & after & -> & Ha & Hb).
    exists before, after. split; [reflexivity | split].
    + apply activeAt_ActiveNow. assumption.
    + eapply Forall_impl; [|exact Hb]. intros e' He' Hact.
      apply activeAt_ActiveNow in Hact. congruence.
  - right. destruct schedule as [|e0 rest]; [discriminate|].
    cbn [hd_error] in Hrun. assert (e0 = e) as -> by congruence.
    exists rest. split; [reflexivity | split].
    + apply find_none_iff in Hfind.
      eapply Forall_impl; [|exact Hfind]. intros e' He' Hact.
      apply activeAt_ActiveNow in Hact. congruence.
    + inversion Hsorted; assumption.
Qed.

Lemma calloutEvent_active_or_earliest_witness :
  (exists before after,
      filterUpcomingEvents (mkHost 0 1735689600000) twoBlockEvents
      = (before ++ nth 0 twoBlockEvents eventEndingNow :: after)%list /\
      ActiveNow (mkHost 0 1735689600000) (nth 0 twoBlockEvents eventEndingNow) /\
      Forall (fun e' => ~ ActiveNow (mkHost 0 1735689600000) e') before) \/
  (exists rest,
      filterUpcomingEvents (mkHost 0 1735689600000) twoBlockEvents
      = nth 0 twoBlockEvents eventEndingNow :: rest /\
      Forall (fun e' => ~ ActiveNow (mkHost 0 1735689600000) e')
             (nth 0 twoBlockEvents eventEndingNow :: rest) /\
      Forall (scheduleOrder (nth 0 twoBlockEvents eventEndingNow)) rest).
Proof.
  apply (calloutEvent_active_or_earliest (mkHost 0 1735689600000) (mkHost 0 1735689600000)
           (mkHost 0 1735689600000) twoBlockFeed twoBlockEvents
           (nth 0 twoBlockEvents eventEndingNow)).
  - vm_compute. reflexivity.
  - vm_compute. reflexivity.
Defined.

(** ** Sessions *)

Lemma findIndex_none {A : Type} (p : A -> bool) (l : list A) :
  Forall (fun x => p x = false) l -> JSArray.findIndex p l = None.
Proof.
  induction 1 as [|x l Hx _ IH]; cbn [JSArray.findIndex]; [reflexivity|].
  rewrite Hx, IH. reflexivity.
Qed.

Lemma findIndex_first {A : Type} (p : A -> bool) (l1 l2 : list A) (x : A) :
  Forall (fun y => p y = false) l1 -> p x = true ->
  JSArray.findIndex p (l1 ++ x :: l2) = Some (List.length l1).
Proof.
  intros Hl1 Hx. induction Hl1 as [|y l1 Hy _ IH]; cbn [JSArray.findIndex app List.length].
  - rewrite Hx. reflexivity.
  - rewrite Hy, IH. reflexivity.
Qed.

Lemma assign_middle {A : Type} (l1 l2 : list A) (x v : A) :
  JSArray.assign (List.length l1) v (l1 ++ x :: l2) = (l1 ++ v :: l2)%list.
Proof.
  induction l1 as [|y l1 IH]; cbn [JSArray.assign app List.length]; [reflexivity|].
  rewrite IH. reflexivity.
Qed.

Lemma getSessions_setItem (J : JSON (list Session.t)) (quota : Quota) (st st' : Storage)
  (sessions : list Session.t) :
  setItem quota st StorageService.STORAGE_KEY (stringify J sessions) = Returned st' ->
  RoundTrips J sessions ->
  StorageService.getSessions J st' = sessions.
Proof.
  intros Hset [Hne Hrt]. unfold StorageService.getSessions.
  rewrite (getItem_setItem _ _ _ _ _ Hset).
  destruct (String.eqb_spec (stringify J sessions) "") as [E | _]; [congruence|].
  rewrite Hrt. reflexivity.
Qed.

Lemma absent_findIndex (id : string) (sessions : list Session.t) :
  absent id sessions ->
  Forall (fun s => (Session.id s =? id)%string = false) sessions.
Proof.
  unfold absent. apply Forall_impl. intros s Hs. apply String.eqb_neq. assumption.
Qed.

(** A session whose identifier no stored session has is put in front of the
    stored sessions, when the browser accepts the new list. *)
Theorem saveSession_new_goes_first (J : JSON (list Session.t)) (quota : Quota)
  (st stored : Storage) (session : Session.t) :
  StorageService.saveSession J quota st session = Returned stored ->
  absent (Session.id session) (StorageService.getSessions J st) ->
  RoundTrips J (session :: StorageService.getSessions J st) ->
  StorageService.getSessions J stored = session :: StorageService.getSessions J st.
Proof.
  intros Hsave Habs Hrt. unfold StorageService.saveSession in Hsave.
  rewrite findIndex_none in Hsave by (apply absent_findIndex; assumption).
  apply (getSessions_setItem J quota st stored _ Hsave Hrt).
Qed.

(** A session whose identifier a stored session has replaces the first such
    session, in its place; all other sessions stay as they are. *)
Theorem saveSession_replaces_in_place (J : JSON (list Session.t)) (quota : Quota)
  (st stored : Storage) (session old : Session.t) (before after : list Session.t) :
  StorageService.saveSession J quota st session = Returned stored ->
  StorageService.getSessions J st = (before ++ old :: after)%list ->
  Session.id old = Session.id session ->
  absent (Session.id session) before ->
  RoundTrips J (before ++ session :: after)%list ->
  StorageService.getSessions J stored = (before ++ session :: after)%list.
Proof.
  intros Hsave Hst Hid Habs Hrt. unfold StorageService.saveSession in Hsave.
  rewrite Hst in Hsave.
  rewrite findIndex_first in Hsave;
    [|apply absent_findIndex; assumption | apply String.eqb_eq; assumption].
  rewrite assign_middle in Hsave.
  apply (getSessions_setItem J quota st stored _ Hsave Hrt).
Qed.

Lemma getSessions_deleteSession (J : JSON (list Session.t)) (quota : Quota)
  (st stored : Storage) (id : string) :
  StorageService.deleteSession J quota st id = Returned stored ->
  RoundTrips J (filter (fun s => negb (Session.id s =? id)%string)
                       (StorageService.getSessions J st)) ->
  StorageService.getSessions J stored
  = filter (fun s => negb (Session.id s =? id)%string) (StorageService.getSessions J st).
Proof.
  intros Hdel Hrt. unfold StorageService.deleteSession in Hdel.
  apply (getSessions_setItem J quota st stored _ Hdel Hrt).
Qed.

(** The [onDelete] handler of a session card ends in the exception of
    [localStorage] when the browser refuses the new list, before [loadData]
    runs; otherwise it gives a state whose sessions are the stored sessions
    of before whose identifier is another one, in their order, so that no
    session with the identifier is left, and whose schedule is the stored
    schedule, which the deletion did not touch. *)
Theorem onDelete_removes_session (JC : JSON (list CalendarEvent))
  (JS : JSON (list Session.t)) (quota : Quota) (h : Host) (id : string) (s : App.State) :
  RoundTrips JS (filter (fun x => negb (Session.id x =? id)%string)
                        (StorageService.getSessions JS (App.storage s))) ->
  (StorageService.deleteSession JS quota (App.storage s) id = Thrown "QuotaExceededError" /\
   App.onDelete JC JS quota h id s = Thrown "QuotaExceededError") \/
  (exists stored s',
      StorageService.deleteSession JS quota (App.storage s) id = Returned stored /\
      App.onDelete JC JS quota h id s = Returned s' /\
      App.storage s' = stored /\
      App.pastSessions s'
      = filter (fun x => negb (Session.id x =? id)%string)
               (StorageService.getSessions JS (App.storage s)) /\
      absent id (App.pastSessions s') /\
      App.schedule s' = getStoredSchedule JC h (App.storage s)).
Proof.
  intros Hrt. unfold App.onDelete.
  assert (StorageService.deleteSession JS quota (App.storage s) id
          = Thrown "QuotaExceededError" \/
          exists stored, StorageService.deleteSession JS quota (App.storage s) id
                         = Returned stored) as [Hdel | [stored Hdel]].
  { unfold StorageService.deleteSession.
    destruct (setItem_cases quota (App.storage s) StorageService.STORAGE_KEY
                (stringify JS (filter (fun s0 => negb (Session.id s0 =? id)%string)
                                      (StorageService.getSessions JS (App.storage s)))))
      as [[_ E] | [_ E]]; rewrite E; eauto. }
  - left. rewrite Hdel. split; reflexivity.
  - right. rewrite Hdel. cbn [bind]. exists stored. eexists.
    split; [reflexivity | split; [reflexivity|]]. unfold App.loadData.
    cbn [App.pastSessions App.schedule App.storage].
    rewrite (getSessions_deleteSession JS quota _ _ _ Hdel Hrt).
    split; [reflexivity | split; [reflexivity | split]].
    + unfold absent. apply Forall_forall. intros x Hx.
      apply filter_In in Hx as [_ Hx]. apply negb_true_iff, String.eqb_neq in Hx.
      assumption.
    + unfold getStoredSchedule, StorageService.deleteSession in *.
      rewrite (getItem_setItem_other _ _ _ _ _ _ Hdel) by discriminate. reflexivity.
Qed.

(** ** Durations *)

Lemma length_zeros (k : nat) : String.length (String.concat "" (repeat "0" k)) = k.
Proof.
  induction k as [|k IH]; [reflexivity|].
  assert (String.concat "" (repeat "0" (S k))
          = String "0" (String.concat "" (repeat "0" k))) as ->
    by (simpl; destruct (repeat "0" k); reflexivity).
  cbn [String.length]. rewrite IH. reflexivity.
Qed.

Lemma length_padStart (n : nat) (s : string) :
  String.length (padStart n s) = Nat.max n (String.length s).
Proof. unfold padStart. rewrite length_append, length_zeros. lia. Qed.

(** For a number of seconds that is not negative, and below [2 ^ 52], where
    the quotient JavaScript computes is the one of the integers,
    [formatDuration] gives the text [M:S] of two numerals: [S] has two digits
    and is below 60, [M] has at least two digits, and 60 times [M] plus [S]
    is the number of seconds. *)
Theorem formatDuration_reads_back (seconds : Z) :
  0 <= seconds < 2 ^ 52 ->
  exists mm ss,
    App.formatDuration seconds = mm ++ ":" ++ ss /\
    isNumeral mm /\ isNumeral ss /\
    (2 <= String.length mm)%nat /\ String.length ss = 2%nat /\
    decimalValue ss < 60 /\
    decimalValue mm * 60 + decimalValue ss = seconds.
Proof.
  intros [Hs _]. unfold App.formatDuration.
  assert (0 <= seconds / 60) as Hm by (apply Z.div_pos; lia).
  assert (Z.rem seconds 60 = seconds mod 60) as Hrem by (apply Z.rem_mod_nonneg; lia).
  pose proof (Z.mod_pos_bound seconds 60 ltac:(lia)) as Hb.
  rewrite Hrem.
  destruct (padStart_numeral 2 (seconds / 60) Hm) as [Hn1 Hv1].
  destruct (two_digits (seconds mod 60)) as (Hn2 & Hv2 & Hl2); [lia|].
  unfold dec in *.
  eexists _, _. split; [reflexivity|].
  repeat split; try apply Hn1; try apply Hn2; try assumption.
  - rewrite length_padStart. lia.
  - rewrite Hv2. lia.
  - rewrite Hv1, Hv2. pose proof (Z.div_mod seconds 60). lia.
Qed.

Lemma formatDuration_reads_back_witness :
  exists mm ss,
    App.formatDuration 3725 = mm ++ ":" ++ ss /\
    isNumeral mm /\ isNumeral ss /\
    (2 <= String.length mm)%nat /\ String.length ss = 2%nat /\
    decimalValue ss < 60 /\
    decimalValue mm * 60 + decimalValue ss = 3725.
Proof. apply (formatDuration_reads_back 3725). split; [lia | reflexivity]. Defined.

(** ** The time label of a segment *)

Lemma SecFromTime_range (t : Z) : 0 <= SecFromTime t < 60.
Proof. unfold SecFromTime. apply Z.mod_pos_bound. lia. Qed.

Lemma first_hour_fields (t : Z) :
  0 <= t < msPerHour ->
  YearFromTime t = 1970 /\ MonthFromTime t = 0 /\ DateFromTime t = 1 /\
  HourFromTime t = 0 /\ MinFromTime t = t / 1000 / 60 /\
  SecFromTime t = Z.rem (t / 1000) 60.
Proof.
  unfold msPerHour. intros Ht.
  assert (Day t = 0) as Hday by (unfold Day, msPerDay; apply Z.div_small; lia).
  assert (YearFromTime t = 1970) as Hy by (unfold YearFromTime; rewrite Hday; reflexivity).
  assert (DayWithinYear t = 0) as Hdw
    by (unfold DayWithinYear; rewrite Hy, Hday; reflexivity).
  assert (InLeapYear t = 0) as Hl by (unfold InLeapYear; rewrite Hy; reflexivity).
  assert (MonthFromTime t = 0) as Hmo
    by (unfold MonthFromTime; rewrite Hl, Hdw; reflexivity).
  repeat split; try assumption.
  - unfold DateFromTime. rewrite Hmo, Hl, Hdw. reflexivity.
  - unfold HourFromTime, msPerHour. rewrite Z.div_small by lia. reflexivity.
  - unfold MinFromTime, msPerMinute. rewrite Z.div_div by lia.
    apply Z.mod_small. split; [apply Z.div_pos; lia|].
    apply Z.div_lt_upper_bound; lia.
  - unfold SecFromTime, msPerSecond. symmetry. apply Z.rem_mod_nonneg; [|lia].
    apply Z.div_pos; lia.
Qed.

(** Within the first hour after the start, the time label of a segment is
    the duration text of the whole seconds elapsed. *)
Theorem displayTime_is_formatDuration (toLocaleTimeString : Z -> string)
  (segment : TranscriptionSegment.t) (startTime : Z) :
  startTime <> 0 ->
  0 <= TranscriptionSegment.timestamp segment - startTime < msPerHour ->
  TranscriberUI.displayTime toLocaleTimeString segment (Some startTime)
  = Returned (App.formatDuration
                ((TranscriptionSegment.timestamp segment - startTime) / 1000)).
Proof.
  intros Hst Ht. unfold TranscriberUI.displayTime.
  destruct (Z.eqb_spec startTime 0) as [E | _]; [congruence|].
  set (t := TranscriptionSegment.timestamp segment - startTime) in *.
  destruct (first_hour_fields t Ht) as (Hy & Hmo & Hd & Hh & Hmi & Hs).
  assert (newDateOfValue (Some t) = Some t) as ->.
  { cbn [newDateOfValue]. unfold TimeClip.
    destruct (Z.ltb_spec 8640000000000000 (Z.abs t)); [unfold msPerHour in Ht; lia|].
    reflexivity. }
  cbn [toISOString bind]. rewrite Hy, Hmo, Hd, Hh. f_equal.
  change (isoYear 1970) with "1970".
  change (padStart 2 (dec (0 + 1))) with "01".
  change (padStart 2 (dec 1)) with "01".
  change (padStart 2 (dec 0)) with "00".
  cbn [append]. unfold substr. cbn [String.substring].
  assert (0 <= MinFromTime t < 60) as Hmr by apply MinFromTime_range.
  assert (0 <= SecFromTime t < 60) as Hsr by apply SecFromTime_range.
  pose proof (length_padStart_2 (MinFromTime t) ltac:(lia)) as L1.
  pose proof (length_padStart_2 (SecFromTime t) ltac:(lia)) as L2.
  unfold App.formatDuration. rewrite <- Hmi, <- Hs.
  fold (dec (MinFromTime t)). fold (dec (SecFromTime t)).
  set (M := padStart 2 (dec (MinFromTime t))) in *.
  set (S := padStart 2 (dec (SecFromTime t))) in *.
  match goal with
  | |- String.substring 0 5 (M ++ String ":" (S ++ ?rest)) = _ =>
      replace (M ++ String ":" (S ++ rest)) with ((M ++ ":" ++ S) ++ rest)
        by (rewrite !append_assoc; reflexivity)
  end.
  replace 5%nat with (String.length (M ++ ":" ++ S))
    by (rewrite !length_append, L1, L2; reflexivity).
  apply substring_prefix.
Qed.

Lemma displayTime_is_formatDuration_witness :
  TranscriberUI.displayTime (fun _ => "")
    (TranscriptionSegment.mk "seg-1735689725500" "Hello" user 1735689725500)
    (Some 1735689600000)
  = Returned (App.formatDuration ((1735689725500 - 1735689600000) / 1000)).
Proof.
  apply (displayTime_is_formatDuration (fun _ => "")
           (TranscriptionSegment.mk "seg-1735689725500" "Hello" user 1735689725500)
           1735689600000).
  - discriminate.
  - vm_compute. split; [discriminate | reflexivity].
Defined.

(** ** Concrete runs of the persistence and of the App *)

Lemma handleICSImport_stores_what_it_shows_witness :
  App.schedule (App.handleICSImport scheduleCodec roomy (mkHost 0 1735689600000)
                  (mkHost 0 1735689600000) twoBlockFeed initialState)
  = filterUpcomingEvents (mkHost 0 1735689600000) twoBlockEvents /\
  App.schedule (App.loadData scheduleCodec sessionCodec (mkHost 0 1735689600000)
                  (App.handleICSImport scheduleCodec roomy (mkHost 0 1735689600000)
                     (mkHost 0 1735689600000) twoBlockFeed initialState))
  = App.schedule (App.handleICSImport scheduleCodec roomy (mkHost 0 1735689600000)
                    (mkHost 0 1735689600000) twoBlockFeed initialState) /\
  App.schedule (App.loadData scheduleCodec sessionCodec hostUTC
                  (App.handleICSImport scheduleCodec roomy (mkHost 0 1735689600000)
                     (mkHost 0 1735689600000) twoBlockFeed initialState))
  = filterUpcomingEvents hostUTC
      (App.schedule (App.handleICSImport scheduleCodec roomy (mkHost 0 1735689600000)
                       (mkHost 0 1735689600000) twoBlockFeed initialState)).
Proof.
  apply (handleICSImport_stores_what_it_shows scheduleCodec sessionCodec roomy
           (mkHost 0 1735689600000)
           (mkHost 0 1735689600000) hostUTC twoBlockFeed initialState twoBlockEvents
           storedSchedule).
  - vm_compute. reflexivity.
  - discriminate.
  - vm_compute. reflexivity.
  - split; [discriminate | reflexivity].
  - reflexivity.
  - vm_compute. discriminate.
Defined.

Lemma handleICSImport_outcomes_witness :
  exists rawEvents,
    parseICS (mkHost 0 1735689600000) twoBlockFeed = Returned rawEvents /\
    ((rawEvents = [] /\
      App.handleICSImport scheduleCodec full (mkHost 0 1735689600000)
        (mkHost 0 1735689600000) twoBlockFeed initialState
      = App.mkState (App.storage initialState) (App.schedule initialState)
                    (App.pastSessions initialState)
                    (App.currentTime initialState) (App.notification initialState)
                    (Some "The file was parsed but contained no upcoming events.")) \/
     (rawEvents <> [] /\
      exists stored,
        saveSchedule scheduleCodec full (App.storage initialState) rawEvents
        = Returned stored /\
        App.handleICSImport scheduleCodec full (mkHost 0 1735689600000)
          (mkHost 0 1735689600000) twoBlockFeed initialState
        = App.mkState stored
                      (filterUpcomingEvents (mkHost 0 1735689600000) rawEvents)
                      (App.pastSessions initialState) (App.currentTime initialState)
                      (Some ("Successfully imported "
                             ++ toString (Some (Z.of_nat (List.length rawEvents)))
                             ++ " events."))
                      (App.error initialState)) \/
     (rawEvents <> [] /\
      saveSchedule scheduleCodec full (App.storage initialState) rawEvents
      = Thrown "QuotaExceededError" /\
      App.handleICSImport scheduleCodec full (mkHost 0 1735689600000)
        (mkHost 0 1735689600000) twoBlockFeed initialState
      = App.mkState (App.storage initialState) (App.schedule initialState)
                    (App.pastSessions initialState)
                    (App.currentTime initialState) (App.notification initialState)
                    (Some "Failed to parse calendar. Ensure it's a valid .ics file."))).
Proof.
  apply (handleICSImport_outcomes scheduleCodec full (mkHost 0 1735689600000)
           (mkHost 0 1735689600000) twoBlockFeed initialState).
  vm_compute. discriminate.
Defined.

(** The import of a file with three events into a browser that is full
    reports a failure to parse and changes nothing else; into a browser with
    room it stores the events. *)
Lemma handleICSImport_full_storage :
  App.handleICSImport scheduleCodec full (mkHost 0 1735689600000)
    (mkHost 0 1735689600000) twoBlockFeed initialState
  = App.importFailed initialState /\
  App.storage (App.handleICSImport scheduleCodec roomy (mkHost 0 1735689600000)
                 (mkHost 0 1735689600000) twoBlockFeed initialState)
  = storedSchedule.
Proof. split; vm_compute; reflexivity. Qed.

Lemma timer_prunes_as_of_last_minute_witness :
  App.schedule (fold_left (runTick 0) threeTicks
                  (App.mkState [] twoBlockEvents [] NaN None None))
  = match lastPrune 0 threeTicks with
    | Some t => filterUpcomingEvents (mkHost 0 t) twoBlockEvents
    | None => twoBlockEvents
    end.
Proof.
  apply (timer_prunes_as_of_last_minute 0 threeTicks 0
           (App.mkState [] twoBlockEvents [] NaN None None)).
  cbn. lia.
Defined.

Lemma saveSession_new_goes_first_witness :
  StorageService.getSessions sessionCodec (storageWith [sessionB; sessionA])
  = sessionB :: StorageService.getSessions sessionCodec (storageWith [sessionA]).
Proof.
  apply (saveSession_new_goes_first sessionCodec roomy (storageWith [sessionA])
           (storageWith [sessionB; sessionA]) sessionB).
  - vm_compute. reflexivity.
  - repeat constructor. discriminate.
  - split; [discriminate | reflexivity].
Defined.

Lemma saveSession_replaces_in_place_witness :
  StorageService.getSessions sessionCodec (storageWith [sessionB; sessionA'])
  = ([sessionB] ++ sessionA' :: [])%list.
Proof.
  apply (saveSession_replaces_in_place sessionCodec roomy (storageWith [sessionB; sessionA])
           (storageWith [sessionB; sessionA']) sessionA' sessionA [sessionB] []).
  - vm_compute. reflexivity.
  - reflexivity.
  - reflexivity.
  - repeat constructor. discriminate.
  - split; [discriminate | reflexivity].
Defined.

Lemma onDelete_removes_session_witness :
  (StorageService.deleteSession sessionCodec roomy (storageWith [sessionB; sessionA])
     "session-2" = Thrown "QuotaExceededError" /\
   App.onDelete scheduleCodec sessionCodec roomy hostUTC "session-2"
     (App.mkState (storageWith [sessionB; sessionA]) [] [sessionB; sessionA] NaN None None)
   = Thrown "QuotaExceededError") \/
  (exists stored s',
      StorageService.deleteSession sessionCodec roomy (storageWith [sessionB; sessionA])
        "session-2" = Returned stored /\
      App.onDelete scheduleCodec sessionCodec roomy hostUTC "session-2"
        (App.mkState (storageWith [sessionB; sessionA]) [] [sessionB; sessionA] NaN
                     None None)
      = Returned s' /\
      App.storage s' = stored /\
      App.pastSessions s'
      = filter (fun x => negb (Session.id x =? "session-2")%string)
               (StorageService.getSessions sessionCodec (storageWith [sessionB; sessionA])) /\
      absent "session-2" (App.pastSessions s') /\
      App.schedule s'
      = getStoredSchedule scheduleCodec hostUTC (storageWith [sessionB; sessionA])).
Proof.
  apply (onDelete_removes_session scheduleCodec sessionCodec roomy hostUTC "session-2"
           (App.mkState (storageWith [sessionB; sessionA]) [] [sessionB; sessionA] NaN
                        None None)).
  split; [discriminate | reflexivity].
Defined.

(** Deleting a session in a browser with room, and in one that is full. *)
Lemma onDelete_runs :
  App.onDelete scheduleCodec sessionCodec roomy hostUTC "session-2"
    (App.mkState (storageWith [sessionB; sessionA]) [] [sessionB; sessionA] NaN None None)
  = Returned (App.mkState (storageWith [sessionA]) [] [sessionA] NaN None None) /\
  App.onDelete scheduleCodec sessionCodec full hostUTC "session-2"
    (App.mkState (storageWith [sessionB; sessionA]) [] [sessionB; sessionA] NaN None None)
  = Thrown "QuotaExceededError".
Proof. split; vm_compute; reflexivity. Qed.
